(** * Prairie connectivity analysis: a shallow embedding

    Model of [scripts/connectivity_analysis/prairie_connectivity_analysis.py]:
    the class [PrairieConnectivityQGIS] (feature extraction, size
    classification, proximity network, metrics, priority patches) together
    with the parts of networkx, pandas and numpy it calls.

    Numbers.  Areas, size thresholds, centralities and quantiles are
    rationals ([Q]); every comparison the script makes on them is decided by
    computation.  Centroid coordinates, distances and edge weights are real
    numbers ([R]) because the script takes square roots and cosines of them.
    Floating-point rounding and NaN are not modelled. *)

From Stdlib Require Import QArith Qround Qreals Reals Psatz Lia Sorted.
From stdpp Require Import gmap strings list.

#[local] Set Warnings "-clear-no-such-hyp".

Open Scope Q_scope.

(** ** Host objects handed in by QGIS *)

(** [QgsGeometry]: the three observations the script makes of a geometry. *)
Record Geometry := {
  isEmpty : bool;
  area : Q;
  centroid : R * R
}.

(** [QgsFeature]: [attribute f name] is [feature[name]]; [None] is a NULL
    attribute value. *)
Record Feature := {
  id : Z;
  geometry_of : Geometry;
  attribute : string -> option Q
}.

Record CRS := {
  isGeographic : bool;
  authid : string
}.

Record Layer := {
  isValid : bool;
  name : string;
  crs : CRS;
  fields : list string;
  getFeatures : list Feature
}.

(** ** Patches *)

(** The script names a patch [f'patch_{i}'], [i] being the position of the
    feature in the layer; [patch_ i] stands for that string. *)
Inductive PatchId := patch_ (i : nat).

Definition patch_index (p : PatchId) : nat := let 'patch_ i := p in i.

#[global] Instance PatchId_eq_dec : EqDecision PatchId.
Proof. solve_decision. Defined.

#[global] Instance PatchId_countable : Countable PatchId.
Proof. exact (inj_countable' patch_index patch_ (fun p => match p with patch_ _ => eq_refl end)). Defined.

Inductive NodeType := too_small | secondary | primary.

#[global] Instance NodeType_eq_dec : EqDecision NodeType.
Proof. solve_decision. Defined.

(** One dictionary of [features_data] (lines 103-111). *)
Record FeatureData := {
  patch_id : PatchId;
  fid : Z;
  area_ha : Q;
  centroid_x : R;
  centroid_y : R;
  geometry : Geometry;
  centroid_point : R * R
}.

(** A row of [patches_df] once the [node_type] column exists. *)
Record Patch := {
  data :> FeatureData;
  node_type : NodeType
}.

(** A row of [patches_df] once [_calculate_metrics] has added its columns. *)
Record AnnotatedPatch := {
  patch :> Patch;
  degree_centrality : Q;
  betweenness_centrality : Q;
  num_connections : nat
}.

(** [patches_df] has the metric columns or it has not. *)
Inductive Frame :=
| Plain (rows : list Patch)
| Annotated (rows : list AnnotatedPatch).

(** ** Exceptions and outcomes *)

Inductive Exception :=
| ValueError (msg : string)
| KeyError.

Inductive Outcome (A : Type) :=
| Return (a : A)
| Raise (e : Exception).
Arguments Return {A} a.
Arguments Raise {A} e.

#[global] Instance Outcome_bind : MBind Outcome := fun A B k o =>
  match o with
  | Return a => k a
  | Raise e => Raise e
  end.

#[global] Instance Outcome_ret : MRet Outcome := fun A a => Return a.

(** ** Comparisons *)

(** [x >= y] and [x > y] on the rational columns. *)
Definition Qgeb (x y : Q) : bool := Qle_bool y x.
Definition Qgtb (x y : Q) : bool := negb (Qle_bool x y).

#[global] Instance Rle_decision (x y : R) : Decision (x <= y)%R := Rle_dec x y.
#[global] Instance Rlt_decision (x y : R) : Decision (x < y)%R := Rlt_dec x y.

(** ** networkx *)

Record NodeData := {
  nd_area_ha : Q;
  nd_node_type : NodeType;
  nd_fid : Z;
  nd_centroid : R * R
}.

Record EdgeData := {
  distance_m : R;
  distance_km : R;
  weight : R
}.

(** [nx.Graph]: the node dictionary [_node] and the dictionary of
    dictionaries [_adj].  A node created by [add_edge] alone has an empty
    attribute dictionary, [None] here. *)
Record Graph := {
  g_node : gmap PatchId (option NodeData);
  g_adj : gmap PatchId (gmap PatchId EdgeData)
}.

Definition empty_graph : Graph := {| g_node := ∅; g_adj := ∅ |}.

Definition add_node (n : PatchId) (d : NodeData) (G : Graph) : Graph :=
  match g_node G !! n with
  | None => {| g_node := <[n := Some d]> (g_node G); g_adj := <[n := ∅]> (g_adj G) |}
  | Some _ => {| g_node := <[n := Some d]> (g_node G); g_adj := g_adj G |}
  end.

Definition ensure_node (n : PatchId) (G : Graph) : Graph :=
  match g_node G !! n with
  | None => {| g_node := <[n := None]> (g_node G); g_adj := <[n := ∅]> (g_adj G) |}
  | Some _ => G
  end.

Definition nbrs (G : Graph) (u : PatchId) : gmap PatchId EdgeData :=
  default ∅ (g_adj G !! u).

Definition set_adj (u v : PatchId) (d : EdgeData) (G : Graph) : Graph :=
  {| g_node := g_node G; g_adj := <[u := <[v := d]> (nbrs G u)]> (g_adj G) |}.

(** [G.add_edge(u, v, **attr)], every attribute given. *)
Definition add_edge (u v : PatchId) (d : EdgeData) (G : Graph) : Graph :=
  set_adj v u d (set_adj u v d (ensure_node v (ensure_node u G))).

Definition has_edge (G : Graph) (u v : PatchId) : bool :=
  bool_decide (is_Some (nbrs G u !! v)).

Definition edge_data (G : Graph) (u v : PatchId) : option EdgeData :=
  nbrs G u !! v.

Definition number_of_nodes (G : Graph) : nat := size (g_node G).

(** [G.degree(n)]: a self loop counts twice; [KeyError] off the graph. *)
Definition degree_of (nb : gmap PatchId EdgeData) (n : PatchId) : nat :=
  (size nb + (if bool_decide (is_Some (nb !! n)) then 1 else 0))%nat.

Definition degree (G : Graph) (n : PatchId) : Outcome nat :=
  match g_adj G !! n with
  | Some nb => Return (degree_of nb n)
  | None => Raise KeyError
  end.

Definition degree_sum (G : Graph) : nat :=
  map_fold (fun n nb acc => (acc + degree_of nb n)%nat) 0%nat (g_adj G).

(** [len(G.edges)] and [G.number_of_edges()]. *)
Definition number_of_edges (G : Graph) : nat := (degree_sum G / 2)%nat.

Definition Qnat (n : nat) : Q := inject_Z (Z.of_nat n).

(** [nx.density] of an undirected graph. *)
Definition density (G : Graph) : Q :=
  let n := number_of_nodes G in
  let m := number_of_edges G in
  if ((m =? 0) || (n <=? 1))%nat then 0
  else (Qnat m / (Qnat n * (Qnat n - 1))) * 2.

(** [nx.degree_centrality]:
    [if len(G) <= 1: return {n: 1 for n in G}], otherwise every degree
    times [1 / (len(G) - 1)]. *)
Definition nx_degree_centrality (G : Graph) : gmap PatchId Q :=
  if (number_of_nodes G <=? 1)%nat then (fun _ => 1) <$> g_node G
  else
    let s := 1 / (Qnat (number_of_nodes G) - 1) in
    map_imap (fun n _ => Some (Qnat (degree_of (nbrs G n) n) * s)) (g_node G).

(** [nx.connected_components]: a breadth-first search from every node not
    seen yet.  Each round of [plain_bfs] adds a node or stops, so as many
    rounds as the graph has nodes are enough.  The nodes are visited in key
    order, not in networkx's insertion order; the script reads only the
    number and the sizes of the components. *)
Definition frontier_nbrs (G : Graph) (frontier : gset PatchId) : gset PatchId :=
  set_fold (fun u acc => dom (nbrs G u) ∪ acc) ∅ frontier.

Fixpoint plain_bfs (fuel : nat) (G : Graph) (frontier seen : gset PatchId) : gset PatchId :=
  match fuel with
  | O => seen
  | S k =>
      let next := frontier_nbrs G frontier ∖ seen in
      if decide (next = ∅) then seen else plain_bfs k G next (seen ∪ next)
  end.

Definition connected_components (G : Graph) : list (gset PatchId) :=
  snd (foldl (fun '(seen, comps) v =>
                if decide (v ∈ seen) then (seen, comps)
                else
                  let c := plain_bfs (number_of_nodes G) G {[v]} {[v]} in
                  (seen ∪ c, comps ++ [c]))
             (∅, []) (elements (dom (g_node G)))).

(** [nx.betweenness_centrality(G)] as the script calls it: no [weight]
    argument, so paths are measured in hops; [normalized=True].

    [walks G k s t] counts the walks of [k] edges from [s] to [t]; the
    shortest paths from [s] to [t] are the walks of the least [k] that has
    one.  Brandes' algorithm, which networkx runs, accumulates for every
    node [v] the dependencies of all ordered pairs [(s, t)] and networkx
    scales the sum by [1 / ((n - 1) (n - 2))] when [n > 2]. *)
Definition neighbors (G : Graph) (u : PatchId) : list PatchId :=
  elements (dom (nbrs G u)).

Definition sum_nat (l : list nat) : nat := foldr Nat.add 0%nat l.
Definition Qsum (l : list Q) : Q := foldr Qplus 0 l.

Fixpoint walks (G : Graph) (k : nat) (s t : PatchId) : nat :=
  match k with
  | O => if decide (s = t) then 1%nat else 0%nat
  | S k' => sum_nat ((fun u => walks G k' u t) <$> neighbors G s)
  end.

Definition hop_distance (G : Graph) (s t : PatchId) : option nat :=
  List.find (fun k => negb (walks G k s t =? 0)%nat) (seq 0 (number_of_nodes G)).

(** The number of shortest paths from [s] to [t]. *)
Definition sigma (G : Graph) (s t : PatchId) : nat :=
  match hop_distance G s t with
  | Some d => walks G d s t
  | None => 0%nat
  end.

(** The share of the shortest paths from [s] to [t] that pass through [v]. *)
Definition pair_dependency (G : Graph) (s t v : PatchId) : Q :=
  match hop_distance G s t, hop_distance G s v, hop_distance G v t with
  | Some d, Some d1, Some d2 =>
      if (d1 + d2 =? d)%nat
      then Qnat (sigma G s v * sigma G v t) / Qnat (sigma G s t)
      else 0
  | _, _, _ => 0
  end.

Definition betweenness_rescale (n : nat) : Q :=
  if (n <=? 2)%nat then 1 else 1 / ((Qnat n - 1) * (Qnat n - 2)).

(** What Brandes' accumulation leaves for [v]: the dependencies of all
    ordered pairs of other nodes. *)
Definition dependency_sum (G : Graph) (v : PatchId) : Q :=
  let nodes := elements (dom (g_node G)) in
  Qsum ((fun s =>
           if decide (s = v) then 0
           else Qsum ((fun t =>
                         if decide (t = v) then 0
                         else if decide (t = s) then 0
                         else pair_dependency G s t v) <$> nodes)) <$> nodes).

Definition betweenness_of (G : Graph) (v : PatchId) : Q :=
  dependency_sum G v * betweenness_rescale (number_of_nodes G).

Definition nx_betweenness_centrality (G : Graph) : gmap PatchId Q :=
  map_imap (fun v _ => Some (betweenness_of G v)) (g_node G).

(** ** pandas and numpy *)

Fixpoint insert_sorted (x : Q) (l : list Q) : list Q :=
  match l with
  | [] => [x]
  | y :: l' => if Qle_bool x y then x :: l else y :: insert_sorted x l'
  end.

Definition sort_values (l : list Q) : list Q := foldr insert_sorted [] l.

(** [Series.quantile(q)], linear interpolation: the value at the virtual
    index [q * (n - 1)] of the sorted column.  NaN on an empty column is
    [None]. *)
Definition quantile (column : list Q) (q : Q) : option Q :=
  match sort_values column with
  | [] => None
  | (v0 :: _) as sorted =>
      let n := length sorted in
      let virtual_index := q * (Qnat n - 1) in
      let previous := Z.to_nat (Qfloor virtual_index) in
      let next := Nat.min (S previous) (n - 1) in
      let gamma := virtual_index - Qnat previous in
      let a := nth previous sorted v0 in
      let b := nth next sorted v0 in
      Some (a + (b - a) * gamma)
  end.

(** A comparison with NaN is false. *)
Definition gt_quantile (x : Q) (threshold : option Q) : bool :=
  match threshold with
  | Some t => Qgtb x t
  | None => false
  end.

(** [np.mean]: NaN, here [None], on an empty column. *)
Definition np_mean (column : list nat) : option Q :=
  match column with
  | [] => None
  | _ => Some (Qnat (sum_nat column) / Qnat (length column))
  end.

(** [np.max] raises [ValueError] on an empty column. *)
Definition np_max (column : list nat) : Outcome nat :=
  match column with
  | [] => Raise (ValueError "zero-size array to reduction operation maximum which has no identity")
  | x :: l => Return (foldr Nat.max x l)
  end.

(** ** The analyzer *)

(** [self]: the attributes of a [PrairieConnectivityQGIS] object. *)
Record Analyzer := {
  self_network : option Graph;
  self_patches_df : option Frame;
  self_crs : option CRS
}.

(** [__init__]. *)
Definition init : Analyzer :=
  {| self_network := None; self_patches_df := None; self_crs := None |}.

Record Metrics := {
  total_patches : nat;
  total_connections : nat;
  network_density : Q;
  primary_nodes : nat;
  secondary_nodes : nat;
  num_components : nat;
  largest_component_size : nat;
  isolated_patches : nat;
  avg_connections_per_patch : option Q;
  max_connections : nat;
  total_area_ha : Q
}.

(** *** Feature extraction (lines 68-111) *)

(** [area_field and area_field in [field.name() for field in layer.fields()]] *)
Definition area_field_used (layer : Layer) (area_field : option string) : option string :=
  match area_field with
  | Some f =>
      if bool_decide (f ≠ EmptyString) && bool_decide (f ∈ fields layer)
      then Some f else None
  | None => None
  end.

Definition feature_area_ha (layer : Layer) (area_field : option string)
    (feature : Feature) : Q :=
  match area_field_used layer area_field with
  | Some f =>
      match attribute feature f with
      | Some area_ha => area_ha
      | None => 0
      end
  | None =>
      let geom := geometry_of feature in
      let area_m2 :=
        if isGeographic (crs layer) then area geom * (111000 ^ 2) else area geom in
      area_m2 / 10000
  end.

Definition radians (deg : R) : R := (deg * PI / 180)%R.

Definition feature_centroid_xy (layer : Layer) (feature : Feature) : R * R :=
  let c := centroid (geometry_of feature) in
  if isGeographic (crs layer)
  then (c.1 * 111000 * cos (radians c.2), c.2 * 111000)%R
  else c.

(** The loop over [enumerate(layer.getFeatures())] from position [i] on. *)
Fixpoint extract_features (layer : Layer) (area_field : option string)
    (i : nat) (features : list Feature) : list FeatureData :=
  match features with
  | [] => []
  | feature :: rest =>
      let geom := geometry_of feature in
      if isEmpty geom then extract_features layer area_field (S i) rest
      else
        let xy := feature_centroid_xy layer feature in
        {| patch_id := patch_ i;
           fid := id feature;
           area_ha := feature_area_ha layer area_field feature;
           centroid_x := xy.1;
           centroid_y := xy.2;
           geometry := geom;
           centroid_point := centroid geom |}
        :: extract_features layer area_field (S i) rest
  end.

(** *** Classification and filter (lines 118-125) *)

Definition set_node_type (t : NodeType) (p : Patch) : Patch :=
  {| data := data p; node_type := t |}.

(** [df.loc[df['area_ha'] >= threshold, 'node_type'] = t] *)
Definition loc_assign (threshold : Q) (t : NodeType) (df : list Patch) : list Patch :=
  (fun p : Patch => if Qgeb (area_ha p) threshold then set_node_type t p else p) <$> df.

Definition classify_node_types (min_primary_size_ha min_secondary_size_ha : Q)
    (features_data : list FeatureData) : list Patch :=
  let df := (fun d => {| data := d; node_type := too_small |}) <$> features_data in
  let df := loc_assign min_secondary_size_ha secondary df in
  loc_assign min_primary_size_ha primary df.

Definition filter_patches (min_secondary_size_ha : Q) (df : list Patch) : list Patch :=
  List.filter (fun p : Patch => Qgeb (area_ha p) min_secondary_size_ha) df.

(** *** [_build_network] *)

(** [cdist(coords, coords)[i, j]]: the Euclidean distance of rows [i], [j]. *)
Definition euclidean (p q : R * R) : R :=
  sqrt ((p.1 - q.1) * (p.1 - q.1) + (p.2 - q.2) * (p.2 - q.2)).

Definition coords_of (df : list Patch) : list (R * R) :=
  (fun p : Patch => (centroid_x p, centroid_y p)) <$> df.

Definition cdist (coords : list (R * R)) (i j : nat) : R :=
  match coords !! i, coords !! j with
  | Some p, Some q => euclidean p q
  | _, _ => 0%R
  end.

Definition node_data_of (row : Patch) : NodeData :=
  {| nd_area_ha := area_ha row;
     nd_node_type := node_type row;
     nd_fid := fid row;
     nd_centroid := (centroid_x row, centroid_y row) |}.

Definition add_nodes (df : list Patch) (G : Graph) : Graph :=
  foldl (fun G (row : Patch) => add_node (patch_id row) (node_data_of row) G) G df.

(** [for i in range(n): for j in range(i + 1, n)] *)
Definition index_pairs (n : nat) : list (nat * nat) :=
  i ← seq 0 n; (fun j => (i, j)) <$> seq (S i) (n - S i).

Definition connection_data (area1 area2 : Q) (distance : R) : EdgeData :=
  {| distance_m := distance;
     distance_km := (distance / 1000)%R;
     weight := (sqrt (Q2R (area1 * area2)) / distance)%R |}.

(** The body of the inner loop (lines 170-182). *)
Definition add_connection (df : list Patch) (max_distance_m : R)
    (G : Graph) (ij : nat * nat) : Graph :=
  match (df !! ij.1 : option Patch), (df !! ij.2 : option Patch) with
  | Some row_i, Some row_j =>
      let distance := cdist (coords_of df) ij.1 ij.2 in
      if bool_decide (distance <= max_distance_m)%R && bool_decide (0 < distance)%R
      then add_edge (patch_id row_i) (patch_id row_j)
                    (connection_data (area_ha row_i) (area_ha row_j) distance) G
      else G
  | _, _ => G
  end.

Definition build_network (df : list Patch) (max_distance_m : R) : Graph :=
  foldl (add_connection df max_distance_m)
        (add_nodes df empty_graph)
        (index_pairs (length df)).

(** *** [_calculate_metrics] *)

Definition node_type_of (d : option NodeData) : Outcome NodeType :=
  match d with
  | Some d => Return (nd_node_type d)
  | None => Raise KeyError
  end.

Definition count_node_type (t : NodeType) (G : Graph) : Outcome nat :=
  types ← mapM (fun nd => node_type_of nd.2) (map_to_list (g_node G));
  mret (length (List.filter (fun t' => bool_decide (t' = t)) types)).

Definition annotate (G : Graph) (row : Patch) : Outcome AnnotatedPatch :=
  d ← degree G (patch_id row);
  mret {| patch := row;
          degree_centrality := default 0 (nx_degree_centrality G !! patch_id row);
          betweenness_centrality := default 0 (nx_betweenness_centrality G !! patch_id row);
          num_connections := d |}.

Definition calculate_metrics (G : Graph) (df : list Patch)
    : Outcome (Metrics * list AnnotatedPatch) :=
  n_primary ← count_node_type primary G;
  n_secondary ← count_node_type secondary G;
  let components := connected_components G in
  annotated ← mapM (annotate G) df;
  n_max ← np_max (num_connections <$> annotated);
  mret ({| total_patches := number_of_nodes G;
           total_connections := number_of_edges G;
           network_density := density G;
           primary_nodes := n_primary;
           secondary_nodes := n_secondary;
           num_components := length components;
           largest_component_size := foldr Nat.max 0%nat (size <$> components);
           isolated_patches :=
             length (List.filter (fun c => (size c =? 1)%nat) components);
           avg_connections_per_patch := np_mean (num_connections <$> annotated);
           max_connections := n_max;
           total_area_ha := Qsum ((fun row : AnnotatedPatch => area_ha row) <$> annotated) |},
        annotated).

(** *** [analyze_layer_connectivity]

    The result pairs the analyzer as the call leaves it with what the call
    returns or raises.  [_calculate_metrics] cannot raise on the network
    built from the same frame ([calculate_metrics_returns] below); the
    branch for it is kept for totality and leaves the frame as it was
    before the metric columns. *)
Definition analyze_layer_connectivity (self : Analyzer) (layer : Layer)
    (max_distance_km min_primary_size_ha min_secondary_size_ha : Q)
    (area_field : option string) : Analyzer * Outcome Metrics :=
  if negb (isValid layer) then (self, Raise (ValueError "Invalid layer provided"))
  else
    let self := {| self_network := self_network self;
                   self_patches_df := self_patches_df self;
                   self_crs := Some (crs layer) |} in
    let features_data := extract_features layer area_field 0 (getFeatures layer) in
    match features_data with
    | [] => (self, Raise (ValueError "No valid features found in layer"))
    | _ =>
        let df := classify_node_types min_primary_size_ha min_secondary_size_ha
                    features_data in
        let df := filter_patches min_secondary_size_ha df in
        match df with
        | [] =>
            ({| self_network := self_network self;
                self_patches_df := Some (Plain df);
                self_crs := self_crs self |},
             Raise (ValueError "No patches meet minimum size criteria"))
        | _ =>
            let G := build_network df (Q2R (max_distance_km * 1000)) in
            match calculate_metrics G df with
            | Return (metrics, annotated) =>
                ({| self_network := Some G;
                    self_patches_df := Some (Annotated annotated);
                    self_crs := self_crs self |},
                 Return metrics)
            | Raise e =>
                ({| self_network := Some G;
                    self_patches_df := Some (Plain df);
                    self_crs := self_crs self |},
                 Raise e)
            end
        end
    end.

(** *** [_create_priority_patches_layer] *)

Inductive PriorityType := Large_Isolated | Hub.

(** The attributes and geometry of one feature of the priority layer. *)
Record PriorityFeature := {
  pf_geometry : Geometry;
  pf_patch_id : PatchId;
  pf_area_ha : Q;
  priority_type : PriorityType;
  pf_num_connections : nat;
  pf_degree_centrality : Q
}.

Definition area_column (df : list AnnotatedPatch) : list Q :=
  (fun row : AnnotatedPatch => area_ha row) <$> df.

(** The first operand of [|] on lines 374-375. *)
Definition hub_mask (df : list AnnotatedPatch) (row : AnnotatedPatch) : bool :=
  gt_quantile (degree_centrality row) (quantile (degree_centrality <$> df) 0.8)
  && gt_quantile (area_ha row) (quantile (area_column df) 0.6).

(** The second operand (lines 376-377). *)
Definition large_isolated_mask (df : list AnnotatedPatch) (row : AnnotatedPatch) : bool :=
  (num_connections row =? 0)%nat
  && gt_quantile (area_ha row) (quantile (area_column df) 0.7).

Definition priority_patches (df : list AnnotatedPatch) : list AnnotatedPatch :=
  List.filter (fun row => hub_mask df row || large_isolated_mask df row) df.

(** Lines 404-408. *)
Definition priority_type_of (row : AnnotatedPatch) : PriorityType :=
  if (num_connections row =? 0)%nat then Large_Isolated else Hub.

Definition priority_feature (row : AnnotatedPatch) : PriorityFeature :=
  {| pf_geometry := geometry row;
     pf_patch_id := patch_id row;
     pf_area_ha := area_ha row;
     priority_type := priority_type_of row;
     pf_num_connections := num_connections row;
     pf_degree_centrality := degree_centrality row |}.

(** The features of the layer the method returns, [None] when it returns
    [None]; creating, styling and registering the layer are QGIS's. *)
Definition create_priority_patches_layer (df : list AnnotatedPatch)
    : option (list PriorityFeature) :=
  match priority_patches df with
  | [] => None
  | selected => Some (priority_feature <$> selected)
  end.

(** The rows [self.patches_df] holds, whatever its columns. *)
Definition frame_rows (f : option Frame) : list Patch :=
  match f with
  | Some (Plain rows) => rows
  | Some (Annotated rows) => patch <$> rows
  | None => []
  end.

Definition annotated_rows (f : option Frame) : list AnnotatedPatch :=
  match f with
  | Some (Annotated rows) => rows
  | _ => []
  end.

(** ** The output layers

    [create_qgis_layers] and the three methods it calls, up to the features
    they put into their memory layers; symbology and the registration of a
    layer with the QGIS project are left out.  Besides the exceptions of
    the analysis these methods can raise [IndexError] ([.iloc[0]] on an
    empty selection) and [AttributeError] ([self.crs] is [None]). *)

Inductive LayerError :=
| Raised (e : Exception)
| IndexError
| AttributeError.

Inductive Result (A : Type) :=
| Ok (a : A)
| Failed (e : LayerError).
Arguments Ok {A} a.
Arguments Failed {A} e.

#[global] Instance Result_bind : MBind Result := fun A B k r =>
  match r with
  | Ok a => k a
  | Failed e => Failed e
  end.

#[global] Instance Result_ret : MRet Result := fun A a => Ok a.

(** A feature of the patches layer: geometry and the eight attributes. *)
Record PatchFeature := {
  pt_geometry : Geometry;
  pt_patch_id : PatchId;
  pt_area_ha : Q;
  pt_node_type : NodeType;
  pt_num_connections : nat;
  pt_degree_centrality : Q;
  pt_betweenness_centrality : Q;
  is_hub : bool;
  is_isolated : bool
}.

(** A feature of the connections layer: the line between two points and
    the five attributes; [connection_type] stands for the string
    [f"{type1}-{type2}"]. *)
Record ConnectionFeature := {
  line : (R * R) * (R * R);
  patch_1 : PatchId;
  patch_2 : PatchId;
  cn_distance_km : R;
  cn_weight : R;
  connection_type : NodeType * NodeType
}.

(** A memory layer: its name, the [authid] of its CRS and its features. *)
Record MemoryLayer (F : Type) := {
  layer_name : string;
  layer_crs : string;
  layer_features : list F
}.
Arguments layer_name {F} _.
Arguments layer_crs {F} _.
Arguments layer_features {F} _.

Inductive CreatedLayer :=
| Patches_layer (l : MemoryLayer PatchFeature)
| Connections_layer (l : MemoryLayer ConnectionFeature)
| Priority_layer (l : MemoryLayer PriorityFeature).

(** [self.crs.authid()] *)
Definition crs_authid (crs : option CRS) : Result string :=
  match crs with
  | Some c => Ok (authid c)
  | None => Failed AttributeError
  end.

(** Lines 278-297. *)
Definition patch_feature (df : list AnnotatedPatch) (row : AnnotatedPatch)
    : PatchFeature :=
  {| pt_geometry := geometry row;
     pt_patch_id := patch_id row;
     pt_area_ha := area_ha row;
     pt_node_type := node_type row;
     pt_num_connections := num_connections row;
     pt_degree_centrality := degree_centrality row;
     pt_betweenness_centrality := betweenness_centrality row;
     is_hub := gt_quantile (degree_centrality row)
                 (quantile (degree_centrality <$> df) 0.8)
               && gt_quantile (area_ha row) (quantile (area_column df) 0.6);
     is_isolated := (num_connections row =? 0)%nat |}.

(** [_create_patches_layer]: a row of a frame without the metric columns
    raises [KeyError] at [row['degree_centrality']]. *)
Definition create_patches_layer (crs : option CRS) (frame : Frame)
    (name : string) : Result (MemoryLayer PatchFeature) :=
  a ← crs_authid crs;
  match frame with
  | Annotated rows =>
      Ok {| layer_name := name; layer_crs := a;
            layer_features := patch_feature rows <$> rows |}
  | Plain [] => Ok {| layer_name := name; layer_crs := a; layer_features := [] |}
  | Plain (_ :: _) => Failed (Raised KeyError)
  end.

(** [G.edges(data=True)]: every node in turn yields the edges to the
    neighbours that were not seen as a node before.  The nodes come in key
    order here, in insertion order in networkx. *)
Definition edges_step
    (state : gset PatchId * list (PatchId * PatchId * EdgeData))
    (entry : PatchId * gmap PatchId EdgeData)
    : gset PatchId * list (PatchId * PatchId * EdgeData) :=
  (state.1 ∪ {[entry.1]},
   state.2 ++ ((fun p : PatchId * EdgeData => (entry.1, p.1, p.2))
                 <$> List.filter (fun p : PatchId * EdgeData =>
                                    bool_decide (p.1 ∉ state.1))
                       (map_to_list entry.2))).

Definition edges (G : Graph) : list (PatchId * PatchId * EdgeData) :=
  (foldl edges_step (∅, []) (map_to_list (g_adj G))).2.

(** [df[df['patch_id'] == node]['centroid_point'].iloc[0]] *)
Definition first_centroid (rows : list Patch) (node : PatchId) : Result (R * R) :=
  match List.find (fun p : Patch => bool_decide (patch_id p = node)) rows with
  | Some p => Ok (centroid_point p)
  | None => Failed IndexError
  end.

(** [self.network.nodes[node]['node_type']] *)
Definition node_type_attr (G : Graph) (node : PatchId) : Result NodeType :=
  match g_node G !! node with
  | Some (Some d) => Ok (nd_node_type d)
  | _ => Failed (Raised KeyError)
  end.

Definition rows_of (frame : Frame) : list Patch :=
  match frame with
  | Plain rows => rows
  | Annotated rows => patch <$> rows
  end.

(** The body of the loop of lines 330-355. *)
Definition connection_feature (rows : list Patch) (G : Graph)
    (edge : PatchId * PatchId * EdgeData) : Result ConnectionFeature :=
  let '(node1, node2, edge_data) := edge in
  centroid1 ← first_centroid rows node1;
  centroid2 ← first_centroid rows node2;
  type1 ← node_type_attr G node1;
  type2 ← node_type_attr G node2;
  mret {| line := (centroid1, centroid2);
          patch_1 := node1;
          patch_2 := node2;
          cn_distance_km := distance_km edge_data;
          cn_weight := weight edge_data;
          connection_type := (type1, type2) |}.

(** [_create_connections_layer] *)
Definition create_connections_layer (crs : option CRS) (frame : Frame) (G : Graph)
    (name : string) : Result (MemoryLayer ConnectionFeature) :=
  a ← crs_authid crs;
  features ← mapM (connection_feature (rows_of frame) G) (edges G);
  mret {| layer_name := name; layer_crs := a; layer_features := features |}.

(** [_create_priority_patches_layer] as a method: the selection reads the
    metric columns first; the layer, and with it [self.crs], is only
    touched when a patch was selected. *)
Definition create_priority_layer (crs : option CRS) (frame : Frame)
    (name : string) : Result (option (MemoryLayer PriorityFeature)) :=
  match frame with
  | Plain _ => Failed (Raised KeyError)
  | Annotated rows =>
      match create_priority_patches_layer rows with
      | None => Ok None
      | Some features =>
          a ← crs_authid crs;
          mret (Some {| layer_name := name; layer_crs := a;
                        layer_features := features |})
      end
  end.

(** [create_qgis_layers]; a layer object counts as true in [if layer:]. *)
Definition create_qgis_layers (self : Analyzer) (layer_prefix : string)
    : Result (list CreatedLayer) :=
  match self_patches_df self, self_network self with
  | Some frame, Some G =>
      patches_layer ←
        create_patches_layer (self_crs self) frame (layer_prefix +:+ "_Patches");
      connections_layer ←
        create_connections_layer (self_crs self) frame G
          (layer_prefix +:+ "_Connections");
      priority_layer ←
        create_priority_layer (self_crs self) frame
          (layer_prefix +:+ "_Priority_Patches");
      mret ([Patches_layer patches_layer; Connections_layer connections_layer]
            ++ match priority_layer with
               | Some l => [Priority_layer l]
               | None => []
               end)
  | _, _ => Failed (Raised (ValueError "Must run analysis first"))
  end.

(** ** [quick_prairie_analysis]

    The project is the list of its layers and [activeLayer] the layer
    [iface.activeLayer()] returns, if any.  The function prints its
    messages and returns [None] when it finds no layer and when the analysis
    or the creation of the layers raises; otherwise the analyzer and the
    metrics. *)

(** [QgsProject.instance().mapLayersByName(layer_name)] *)
Definition mapLayersByName (project : list Layer) (layer_name : string)
    : list Layer :=
  List.filter (fun l : Layer => bool_decide (name l = layer_name)) project.

Definition quick_prairie_analysis (project : list Layer)
    (activeLayer : option Layer) (layer_name : option string)
    (max_distance_km min_size_ha : Q) : option (Analyzer * Metrics) :=
  let layer :=
    match layer_name with
    | None | Some EmptyString => activeLayer
    | Some n => head (mapLayersByName project n)
    end in
  match layer with
  | None => None
  | Some layer =>
      match analyze_layer_connectivity init layer max_distance_km
              min_size_ha (min_size_ha * 0.5) None with
      | (analyzer, Return metrics) =>
          match create_qgis_layers analyzer "Quick_Prairie_Analysis" with
          | Ok _ => Some (analyzer, metrics)
          | Failed _ => None
          end
      | (_, Raise _) => None
      end
  end.

(** * Vocabulary of the properties *)

(** The two nodes of an edge of [G.edges(data=True)]. *)
Definition edge_key (edge : PatchId * PatchId * EdgeData) : PatchId * PatchId :=
  (edge.1.1, edge.1.2).

Definition retained_patches (layer : Layer) (area_field : option string)
    (min_primary_size_ha min_secondary_size_ha : Q) : list Patch :=
  filter_patches min_secondary_size_ha
    (classify_node_types min_primary_size_ha min_secondary_size_ha
       (extract_features layer area_field 0 (getFeatures layer))).

Definition classify_row (min_primary_size_ha min_secondary_size_ha : Q)
    (d : FeatureData) : Patch :=
  {| data := d;
     node_type :=
       if Qgeb (area_ha d) min_primary_size_ha then primary
       else if Qgeb (area_ha d) min_secondary_size_ha then secondary
       else too_small |}.

(** [_adj] and [_node] have the same keys, as in every [nx.Graph]. *)
Definition graph_wf (G : Graph) : Prop := dom (g_adj G) = dom (g_node G).

(** [self.patches_df['patch_id'].tolist()] *)
Definition patch_ids (df : list Patch) : list PatchId :=
  (fun p : Patch => patch_id p) <$> df.

Definition all_attributed (G : Graph) : Prop :=
  forall n d, g_node G !! n = Some d -> is_Some d.

(** [within df max i j]: the test of line 172 on rows [i] and [j]. *)
Definition within (df : list Patch) (max_distance_m : R) (i j : nat) : Prop :=
  (0 < cdist (coords_of df) i j <= max_distance_m)%R.

(** Rows [i < j] pass the test and [e] is the edge the loop stores for them,
    read from [a] to [b]. *)
Definition link (df : list Patch) (max_distance_m : R) (i j : nat)
    (a b : PatchId) (e : EdgeData) : Prop :=
  exists row_i row_j : Patch,
    df !! i = Some row_i /\ df !! j = Some row_j /\ (i < j)%nat /\
    within df max_distance_m i j /\
    ((a = patch_id row_i /\ b = patch_id row_j) \/
     (a = patch_id row_j /\ b = patch_id row_i)) /\
    e = connection_data (area_ha row_i) (area_ha row_j) (cdist (coords_of df) i j).

Definition sound (df : list Patch) (max_distance_m : R) (G : Graph) : Prop :=
  forall a b e, nbrs G a !! b = Some e -> exists i j, link df max_distance_m i j a b e.

Definition complete (df : list Patch) (max_distance_m : R)
    (processed : list (nat * nat)) (G : Graph) : Prop :=
  forall i j a b e,
    (i, j) ∈ processed -> link df max_distance_m i j a b e -> nbrs G a !! b = Some e.

Definition covers (df : list Patch) (G : Graph) : Prop :=
  forall row : Patch, row ∈ df -> patch_id row ∈ dom (g_node G).

Definition centroid_xy (row : Patch) : R * R := (centroid_x row, centroid_y row).

(** The edge the script stores between two rows. *)
Definition edge_between (row_a row_b : Patch) : EdgeData :=
  let distance := euclidean (centroid_xy row_a) (centroid_xy row_b) in
  {| distance_m := distance;
     distance_km := (distance / 1000)%R;
     weight := (sqrt (Q2R (area_ha row_a) * Q2R (area_ha row_b)) / distance)%R |}.

(** The feature of the connections layer for an edge the network lists
    from [row_a] to [row_b]. *)
Definition connection_between (row_a row_b : Patch) : ConnectionFeature :=
  {| line := (centroid_point row_a, centroid_point row_b);
     patch_1 := patch_id row_a;
     patch_2 := patch_id row_b;
     cn_distance_km := distance_km (edge_between row_a row_b);
     cn_weight := weight (edge_between row_a row_b);
     connection_type := (node_type row_a, node_type row_b) |}.

(** The test of line 172 on two rows: [other] lies at a positive distance of
    at most [max_distance_m] from [row]. *)
Definition reaches (max_distance_m : R) (row other : Patch) : bool :=
  bool_decide (euclidean (centroid_xy row) (centroid_xy other) <= max_distance_m)%R
  && bool_decide (0 < euclidean (centroid_xy row) (centroid_xy other))%R.

(** The values of [patch_1] and [patch_2]. *)
Definition connection_key (c : ConnectionFeature) : PatchId * PatchId :=
  (patch_1 c, patch_2 c).




(** Every neighbour is a node of the graph. *)
Definition closed (G : Graph) : Prop :=
  forall u v, v ∈ dom (nbrs G u) -> v ∈ dom (g_node G).


(** The test of line 172 on the pair of positions [ij]. *)
Definition connection_test (df : list Patch) (max_distance_m : R)
    (ij : nat * nat) : bool :=
  bool_decide (cdist (coords_of df) ij.1 ij.2 <= max_distance_m)%R
  && bool_decide (0 < cdist (coords_of df) ij.1 ij.2)%R.

(** The counter [connections_added] when the loops of [_build_network] end. *)
Definition connections_added (df : list Patch) (max_distance_m : R) : nat :=
  length (List.filter (connection_test df max_distance_m)
            (index_pairs (length df))).

(** Every edge comes from a processed pair and every processed pair that
    passes the test has its edge. *)
Definition exact (df : list Patch) (max_distance_m : R)
    (processed : list (nat * nat)) (G : Graph) : Prop :=
  forall a b e,
    nbrs G a !! b = Some e <->
    exists i j, (i, j) ∈ processed /\ link df max_distance_m i j a b e.

(** One step of the loop of [nx.connected_components]. *)
Definition component_step (G : Graph)
    (state : gset PatchId * list (gset PatchId)) (v : PatchId)
    : gset PatchId * list (gset PatchId) :=
  if decide (v ∈ state.1) then state
  else
    let c := plain_bfs (number_of_nodes G) G {[v]} {[v]} in
    (state.1 ∪ c, state.2 ++ [c]).

(** A node without neighbours. *)
Definition isolated (G : Graph) (v : PatchId) : bool :=
  bool_decide (nbrs G v = ∅).

(** Neighbourhood is symmetric and no node is its own neighbour. *)
Definition simple (G : Graph) : Prop :=
  (forall u v, v ∈ dom (nbrs G u) -> u ∈ dom (nbrs G v)) /\
  (forall u, u ∉ dom (nbrs G u)).

(** The dictionary the extraction loop appends for the feature at position
    [i] (lines 103-111). *)
Definition feature_row (layer : Layer) (area_field : option string) (i : nat)
    (feature : Feature) : FeatureData :=
  {| patch_id := patch_ i;
     fid := id feature;
     area_ha := feature_area_ha layer area_field feature;
     centroid_x := (feature_centroid_xy layer feature).1;
     centroid_y := (feature_centroid_xy layer feature).2;
     geometry := geometry_of feature;
     centroid_point := centroid (geometry_of feature) |}.

(** * Examples *)

Definition square (x y : R) (a : Q) : Geometry :=
  {| isEmpty := false; area := a; centroid := (x, y) |}.

Definition no_attributes : string -> option Q := fun _ => None.

Definition utm : CRS := {| isGeographic := false; authid := "EPSG:32615" |}.

(** A layer with one patch of two hectares. *)
Definition one_patch_layer : Layer :=
  {| isValid := true; name := "prairie"; crs := utm; fields := [];
     getFeatures := [ {| id := 7; geometry_of := square 0 0 20000;
                         attribute := no_attributes |} ] |}.

(** One patch whose area is exactly the primary threshold of half a
    hectare. *)
Definition boundary_layer : Layer :=
  {| isValid := true; name := "boundary"; crs := utm; fields := [];
     getFeatures := [ {| id := 7; geometry_of := square 0 0 5000;
                         attribute := no_attributes |} ] |}.

(** Three patches of 0.3, 2 and 0.05 hectares; the first and the last have
    the same centroid.  Used with [min_primary_size_ha = 0.1] below
    [min_secondary_size_ha = 0.5]. *)
Definition inverted_layer : Layer :=
  {| isValid := true; name := "inverted"; crs := utm; fields := [];
     getFeatures := [ {| id := 1; geometry_of := square 0 0 3000;
                         attribute := no_attributes |};
                      {| id := 2; geometry_of := square 100 0 20000;
                         attribute := no_attributes |};
                      {| id := 3; geometry_of := square 0 0 500;
                         attribute := no_attributes |} ] |}.

(** Two patches of two and one hectares, one kilometre apart. *)
Definition two_patch_layer : Layer :=
  {| isValid := true; name := "pair"; crs := utm; fields := [];
     getFeatures := [ {| id := 1; geometry_of := square 0 0 20000;
                         attribute := no_attributes |};
                      {| id := 2; geometry_of := square 1000 0 10000;
                         attribute := no_attributes |} ] |}.

Definition west_patch : Patch :=
  {| data := {| patch_id := patch_ 0; fid := 1; area_ha := 20000 / 10000;
                centroid_x := 0; centroid_y := 0;
                geometry := square 0 0 20000; centroid_point := (0, 0)%R |};
     node_type := primary |}.

Definition east_patch : Patch :=
  {| data := {| patch_id := patch_ 1; fid := 2; area_ha := 10000 / 10000;
                centroid_x := 1000; centroid_y := 0;
                geometry := square 1000 0 10000; centroid_point := (1000, 0)%R |};
     node_type := primary |}.

(** A row of an annotated [patches_df] with the given columns. *)
Definition annotated_row (i : nat) (a : Q) (dc : Q) (nc : nat) : AnnotatedPatch :=
  {| patch := {| data := {| patch_id := patch_ i; fid := Z.of_nat i; area_ha := a;
                            centroid_x := 0; centroid_y := 0;
                            geometry := square 0 0 (a * 10000);
                            centroid_point := (0, 0)%R |};
                 node_type := primary |};
     degree_centrality := dc;
     betweenness_centrality := 0;
     num_connections := nc |}.


(** Three patches, one of them large and unconnected, the other two joined
    by an edge. *)
Definition isolated_frame : list AnnotatedPatch :=
  [annotated_row 0 1 (1 # 2) 1; annotated_row 1 2 (1 # 2) 1; annotated_row 2 9 0 0].

(** Three nodes in a row: edges 0-1 and 1-2, both of 1000 m. *)
Definition plain_node : NodeData :=
  {| nd_area_ha := 1; nd_node_type := primary; nd_fid := 0; nd_centroid := (0, 0)%R |}.

Definition edge_of_length (d : R) : EdgeData :=
  {| distance_m := d; distance_km := (d / 1000)%R; weight := (1 / d)%R |}.

Definition three_nodes : Graph :=
  add_node (patch_ 2) plain_node
    (add_node (patch_ 1) plain_node (add_node (patch_ 0) plain_node empty_graph)).

Definition path_graph : Graph :=
  add_edge (patch_ 1) (patch_ 2) (edge_of_length 1000)
    (add_edge (patch_ 0) (patch_ 1) (edge_of_length 1000) three_nodes).

(** The same with a third edge 0-2 of 3000 m: by length the way from 0 to 2
    through 1 is the shorter one, by hops the direct edge is. *)
Definition detour_graph : Graph :=
  add_edge (patch_ 0) (patch_ 2) (edge_of_length 3000) path_graph.

(** * Properties *)

(** ** A sample run *)

Example one_patch_run :
  (analyze_layer_connectivity init one_patch_layer 2 0.5 0.1 None).2 =
  Return {| total_patches := 1; total_connections := 0; network_density := 0;
            primary_nodes := 1; secondary_nodes := 0; num_components := 1;
            largest_component_size := 1; isolated_patches := 1;
            avg_connections_per_patch := Some (0 # 1); max_connections := 0;
            total_area_ha := 20000 # 10000 |}.
Proof. vm_compute. reflexivity. Qed.

(** The graph functions on three nodes without edges, on the path and on
    the triangle. *)
Example graph_metrics_examples :
  (number_of_edges three_nodes, length (connected_components three_nodes),
   Qeq_bool (density three_nodes) 0) = (0%nat, 3%nat, true) /\
  (number_of_edges path_graph, size <$> connected_components path_graph,
   Qeq_bool (density path_graph) (2 # 3)) = (2%nat, [3%nat], true) /\
  (number_of_edges detour_graph, size <$> connected_components detour_graph,
   Qeq_bool (density detour_graph) 1) = (3%nat, [3%nat], true) /\
  degree path_graph (patch_ 1) = Return 2%nat /\
  degree path_graph (patch_ 7) = Raise KeyError /\
  Qeq_bool (default 0 (nx_degree_centrality path_graph !! patch_ 1)) 1 = true /\
  Qeq_bool (default 0 (nx_degree_centrality path_graph !! patch_ 0)) (1 # 2) = true.
Proof. vm_compute. repeat split. Qed.

(** Quantiles of pandas: [[1, 10]] at 0.6 is 6.4; [[3, 1, 2, 4]] at 0.8 is
    3.4. *)
Example quantile_examples :
  Qeq_bool (default 0 (quantile [10; 1] 0.6)) 6.4 = true /\
  Qeq_bool (default 0 (quantile [3; 1; 2; 4] 0.8)) 3.4 = true /\
  Qeq_bool (default 0 (quantile [5] 0.7)) 5 = true /\
  quantile [] 0.8 = None.
Proof. vm_compute. repeat split. Qed.

(** ** Comparisons and outcomes *)

Lemma Qgeb_true (x y : Q) : Qgeb x y = true <-> (y <= x)%Q.
Proof. unfold Qgeb. apply Qle_bool_iff. Qed.

Lemma Qgeb_false (x y : Q) : Qgeb x y = false <-> (x < y)%Q.
Proof.
  unfold Qgeb. split; intros H.
  - apply Qnot_le_lt. intros Hle. apply Qle_bool_iff in Hle. congruence.
  - apply not_true_is_false. intros Hle. apply Qle_bool_iff in Hle.
    exact (Qlt_not_le _ _ H Hle).
Qed.

Lemma Qgtb_true (x y : Q) : Qgtb x y = true <-> (y < x)%Q.
Proof.
  unfold Qgtb. rewrite negb_true_iff. apply (Qgeb_false y x).
Qed.

Lemma mapM_Return_length {A B} (f : A -> Outcome B) (l : list A) (l' : list B) :
  mapM f l = Return l' -> length l' = length l.
Proof.
  revert l'. induction l as [|a l IH]; intros l' H; simpl in H.
  - injection H as <-. reflexivity.
  - destruct (f a) as [b|e]; simpl in H; [|discriminate].
    destruct (mapM f l) as [bs|e]; simpl in H; [|discriminate].
    injection H as <-. simpl. f_equal. apply IH. reflexivity.
Qed.

Lemma mapM_Return_Forall2 {A B} (f : A -> Outcome B) (l : list A) (l' : list B) :
  mapM f l = Return l' -> Forall2 (fun a b => f a = Return b) l l'.
Proof.
  revert l'. induction l as [|a l IH]; intros l' H; simpl in H.
  - injection H as <-. constructor.
  - destruct (f a) as [b|e] eqn:Hb; simpl in H; [|discriminate].
    destruct (mapM f l) as [bs|e]; simpl in H; [|discriminate].
    injection H as <-. constructor; [exact Hb | apply IH; reflexivity].
Qed.

Lemma mapM_all_Return {A B} (f : A -> Outcome B) (l : list A) :
  (forall a, a ∈ l -> exists b, f a = Return b) ->
  exists l', mapM f l = Return l'.
Proof.
  induction l as [|a l IH]; intros H; simpl.
  - eexists. reflexivity.
  - destruct (H a) as [b Hb]; [left|]. rewrite Hb. simpl.
    destruct IH as [bs Hbs]; [intros a' Ha'; apply H; right; exact Ha'|].
    rewrite Hbs. simpl. eexists. reflexivity.
Qed.

(** ** Classification and filter *)

Lemma classify_node_types_rows (minp mins : Q) (rows : list FeatureData) :
  classify_node_types minp mins rows = classify_row minp mins <$> rows.
Proof.
  unfold classify_node_types, loc_assign. rewrite <- !list_fmap_compose.
  apply list_fmap_ext. intros _ d _. unfold compose, classify_row. simpl.
  destruct (Qgeb (area_ha d) mins); simpl;
    destruct (Qgeb (area_ha d) minp); reflexivity.
Qed.

Lemma elem_of_filter_patches (mins : Q) (df : list Patch) (p : Patch) :
  p ∈ filter_patches mins df <-> p ∈ df /\ (mins <= area_ha p)%Q.
Proof.
  unfold filter_patches. rewrite !list_elem_of_In, filter_In, Qgeb_true.
  reflexivity.
Qed.

Lemma elem_of_retained_patches layer area_field minp mins (p : Patch) :
  p ∈ retained_patches layer area_field minp mins <->
  (exists d, d ∈ extract_features layer area_field 0 (getFeatures layer)
             /\ p = classify_row minp mins d)
  /\ (mins <= area_ha p)%Q.
Proof.
  unfold retained_patches.
  rewrite elem_of_filter_patches, classify_node_types_rows, list_elem_of_fmap.
  split; intros [[d [H1 H2]] H3]; (split; [exists d; auto | exact H3]).
Qed.

(** What a call that returns leaves in the analyzer. *)
Lemma annotate_patch (G : Graph) (row : Patch) (a : AnnotatedPatch) :
  annotate G row = Return a -> patch a = row.
Proof.
  unfold annotate. destruct (degree G (patch_id row)); simpl; [|discriminate].
  intros H. injection H as <-. reflexivity.
Qed.

Lemma mapM_annotate_patch (G : Graph) (df : list Patch) (l : list AnnotatedPatch) :
  mapM (annotate G) df = Return l -> patch <$> l = df.
Proof.
  intros H. apply mapM_Return_Forall2 in H.
  induction H as [|row a df l Ha _ IH]; simpl; [reflexivity|].
  f_equal; [exact (annotate_patch _ _ _ Ha) | exact IH].
Qed.

Lemma calculate_metrics_annotated (G : Graph) (df : list Patch) m annotated :
  calculate_metrics G df = Return (m, annotated) ->
  mapM (annotate G) df = Return annotated.
Proof.
  unfold calculate_metrics.
  destruct (count_node_type primary G); simpl; [|discriminate].
  destruct (count_node_type secondary G); simpl; [|discriminate].
  destruct (mapM (annotate G) df) as [l|]; simpl; [|discriminate].
  destruct (np_max _); simpl; [|discriminate].
  intros H. injection H as _ <-. reflexivity.
Qed.

Lemma analyze_returns self layer max_distance_km minp mins area_field self' m :
  analyze_layer_connectivity self layer max_distance_km minp mins area_field
    = (self', Return m) ->
  let df := retained_patches layer area_field minp mins in
  let G := build_network df (Q2R (max_distance_km * 1000)) in
  exists annotated,
    isValid layer = true /\ df <> [] /\
    calculate_metrics G df = Return (m, annotated) /\
    self' = {| self_network := Some G;
               self_patches_df := Some (Annotated annotated);
               self_crs := Some (crs layer) |}.
Proof.
  unfold analyze_layer_connectivity, retained_patches.
  destruct (isValid layer); simpl; [|discriminate].
  destruct (extract_features _ _ _ _) as [|d ds] eqn:Hex; [discriminate|].
  destruct (filter_patches _ _) as [|p df] eqn:Hdf; [discriminate|].
  destruct (calculate_metrics _ _) as [[m' annotated]|e] eqn:Hm; [|discriminate].
  intros H. injection H as <- <-. exists annotated. auto.
Qed.

Lemma analyze_returns_rows self layer max_distance_km minp mins area_field self' m :
  analyze_layer_connectivity self layer max_distance_km minp mins area_field
    = (self', Return m) ->
  frame_rows (self_patches_df self') = retained_patches layer area_field minp mins.
Proof.
  intros H. apply analyze_returns in H as (annotated & _ & _ & Hm & ->). simpl.
  apply calculate_metrics_annotated in Hm. exact (mapM_annotate_patch _ _ _ Hm).
Qed.

Lemma classify_row_tiers minp mins (d : FeatureData) :
  let p := classify_row minp mins d in
  (node_type p = primary <-> (minp <= area_ha p)%Q) /\
  (node_type p = secondary <-> (mins <= area_ha p)%Q /\ (area_ha p < minp)%Q) /\
  (node_type p = too_small <-> (area_ha p < mins)%Q /\ (area_ha p < minp)%Q).
Proof.
  simpl.
  destruct (Qgeb (area_ha d) minp) eqn:Hp;
    [apply Qgeb_true in Hp | apply Qgeb_false in Hp];
    (destruct (Qgeb (area_ha d) mins) eqn:Hs;
     [apply Qgeb_true in Hs | apply Qgeb_false in Hs]);
    repeat split; intros; try discriminate; try tauto;
    exfalso; repeat match goal with H : _ /\ _ |- _ => destruct H end; lra.
Qed.

(** ** C4: the size tier of a retained patch *)

(** C4.  After a call that returns, every row [p] of [patches_df] (the
    retained patches) has [node_type = primary] iff
    [area_ha >= min_primary_size_ha], [node_type = secondary] iff
    [min_secondary_size_ha <= area_ha < min_primary_size_ha], and
    [node_type = too_small] iff [area_ha < min_secondary_size_ha], for every
    layer and every choice of the parameters, the thresholds themselves
    included. *)
Theorem size_tier_invariant self layer max_distance_km minp mins area_field
    self' m (p : Patch) :
  analyze_layer_connectivity self layer max_distance_km minp mins area_field
    = (self', Return m) ->
  p ∈ frame_rows (self_patches_df self') ->
  (node_type p = primary <-> (minp <= area_ha p)%Q) /\
  (node_type p = secondary <-> (mins <= area_ha p)%Q /\ (area_ha p < minp)%Q) /\
  (node_type p = too_small <-> (area_ha p < mins)%Q).
Proof.
  intros Hrun Hp. rewrite (analyze_returns_rows _ _ _ _ _ _ _ _ Hrun) in Hp.
  apply elem_of_retained_patches in Hp as [[d [_ ->]] Hkeep].
  destruct (classify_row_tiers minp mins d) as (Hprim & Hsec & Hsmall).
  split; [exact Hprim | split; [exact Hsec |]].
  rewrite Hsmall. split; [tauto | intros Hlt; exfalso; lra].
Qed.

Lemma size_tier_invariant_witness :
  let p := classify_row 0.5 0.1
             {| patch_id := patch_ 0; fid := 7; area_ha := 5000 / 10000;
                centroid_x := 0; centroid_y := 0;
                geometry := square 0 0 5000; centroid_point := (0, 0)%R |} in
  (node_type p = primary <-> (0.5 <= area_ha p)%Q) /\
  (node_type p = secondary <-> (0.1 <= area_ha p)%Q /\ (area_ha p < 0.5)%Q) /\
  (node_type p = too_small <-> (area_ha p < 0.1)%Q).
Proof.
  intros p.
  eapply (size_tier_invariant init boundary_layer 2 0.5 0.1 None).
  - vm_compute. reflexivity.
  - vm_compute. left.
Defined.

(** ** C10: the filter looks at the area, not at the label *)

(** C10.  After a call that returns, every row of [patches_df] has
    [area_ha >= min_secondary_size_ha]: this holds for every layer and all
    parameters, [min_primary_size_ha < min_secondary_size_ha] included,
    and a patch is retained exactly when its area passes the test, whatever
    [node_type] it was given. *)
Theorem retained_area_at_least_min_secondary self layer max_distance_km minp mins
    area_field self' m :
  analyze_layer_connectivity self layer max_distance_km minp mins area_field
    = (self', Return m) ->
  (forall p : Patch, p ∈ frame_rows (self_patches_df self') ->
                     (mins <= area_ha p)%Q) /\
  frame_rows (self_patches_df self') =
    List.filter (fun p : Patch => Qle_bool mins (area_ha p))
      (classify_node_types minp mins
         (extract_features layer area_field 0 (getFeatures layer))).
Proof.
  intros Hrun. rewrite (analyze_returns_rows _ _ _ _ _ _ _ _ Hrun). split.
  - intros p Hp. apply elem_of_retained_patches in Hp as [_ Hkeep]. exact Hkeep.
  - reflexivity.
Qed.

Lemma retained_area_at_least_min_secondary_witness :
  exists self' m,
    analyze_layer_connectivity init inverted_layer 2 0.1 0.5 None = (self', Return m)
    /\ (forall p : Patch, p ∈ frame_rows (self_patches_df self') -> (0.5 <= area_ha p)%Q)
    /\ length (frame_rows (self_patches_df self')) = 1%nat.
Proof.
  eexists _, _. split; [vm_compute; reflexivity|]. split.
  - eapply (retained_area_at_least_min_secondary init inverted_layer 2 0.1 0.5 None).
    vm_compute. reflexivity.
  - reflexivity.
Defined.

(** ** The graph operations *)

Lemma graph_wf_empty : graph_wf empty_graph.
Proof. unfold graph_wf. simpl. rewrite !dom_empty_L. reflexivity. Qed.

Lemma nbrs_None (G : Graph) (a : PatchId) :
  graph_wf G -> g_node G !! a = None -> nbrs G a = ∅.
Proof.
  intros Hwf Ha. unfold nbrs.
  assert (g_adj G !! a = None) as ->; [|reflexivity].
  apply not_elem_of_dom. rewrite Hwf. apply not_elem_of_dom. exact Ha.
Qed.

Lemma graph_wf_add_node n d G : graph_wf G -> graph_wf (add_node n d G).
Proof.
  unfold graph_wf, add_node. intros Hwf.
  destruct (g_node G !! n) eqn:Hn; simpl; rewrite ?dom_insert_L, Hwf; [|reflexivity].
  apply (elem_of_dom_2 (g_node G)) in Hn. set_solver.
Qed.

Lemma graph_wf_ensure_node n G : graph_wf G -> graph_wf (ensure_node n G).
Proof.
  unfold graph_wf, ensure_node. intros Hwf.
  destruct (g_node G !! n) eqn:Hn; simpl; rewrite ?dom_insert_L, ?Hwf; reflexivity.
Qed.

Lemma nbrs_ensure_node n G a : graph_wf G -> nbrs (ensure_node n G) a = nbrs G a.
Proof.
  intros Hwf. unfold ensure_node.
  destruct (g_node G !! n) eqn:Hn; [reflexivity|].
  unfold nbrs at 1. simpl. destruct (decide (n = a)) as [->|Hne].
  - rewrite lookup_insert_eq. simpl. symmetry. apply nbrs_None; assumption.
  - rewrite lookup_insert_ne by exact Hne. reflexivity.
Qed.

Lemma g_node_ensure_node_dom n G :
  dom (g_node (ensure_node n G)) = {[n]} ∪ dom (g_node G).
Proof.
  unfold ensure_node. destruct (g_node G !! n) eqn:Hn; simpl.
  - apply (elem_of_dom_2 (g_node G)) in Hn. set_solver.
  - rewrite dom_insert_L. reflexivity.
Qed.

Lemma ensure_node_id n G : n ∈ dom (g_node G) -> ensure_node n G = G.
Proof.
  intros Hn. apply elem_of_dom in Hn as [d Hd]. unfold ensure_node.
  rewrite Hd. reflexivity.
Qed.

Lemma graph_wf_set_adj u v d G :
  graph_wf G -> u ∈ dom (g_node G) -> graph_wf (set_adj u v d G).
Proof.
  unfold graph_wf, set_adj. simpl. intros Hwf Hu. rewrite dom_insert_L, Hwf.
  set_solver.
Qed.

Lemma nbrs_set_adj u v d G a :
  nbrs (set_adj u v d G) a =
  if decide (a = u) then <[v := d]> (nbrs G u) else nbrs G a.
Proof.
  unfold nbrs at 1, set_adj. simpl. destruct (decide (a = u)) as [->|Hne].
  - rewrite lookup_insert_eq. reflexivity.
  - rewrite lookup_insert_ne by congruence. reflexivity.
Qed.

Lemma graph_wf_add_edge u v d G : graph_wf G -> graph_wf (add_edge u v d G).
Proof.
  intros Hwf. unfold add_edge.
  pose proof (graph_wf_ensure_node v _ (graph_wf_ensure_node u _ Hwf)) as Hwf'.
  pose proof (g_node_ensure_node_dom v (ensure_node u G)) as Hv.
  pose proof (g_node_ensure_node_dom u G) as Hu.
  apply graph_wf_set_adj; [apply graph_wf_set_adj; [exact Hwf'|] |]; simpl;
    set_solver.
Qed.

Lemma g_node_add_edge u v d G :
  u ∈ dom (g_node G) -> v ∈ dom (g_node G) ->
  g_node (add_edge u v d G) = g_node G.
Proof.
  intros Hu Hv. unfold add_edge. simpl.
  rewrite (ensure_node_id u G Hu), (ensure_node_id v G Hv). reflexivity.
Qed.

(** Reading the adjacency after [add_edge]. *)
Lemma lookup_add_edge u v d G a b :
  graph_wf G ->
  nbrs (add_edge u v d G) a !! b =
  if decide ((a = u /\ b = v) \/ (a = v /\ b = u)) then Some d
  else nbrs G a !! b.
Proof.
  intros Hwf. unfold add_edge.
  pose proof (graph_wf_ensure_node u _ Hwf) as Hwf1.
  rewrite !nbrs_set_adj.
  assert (forall x, nbrs (ensure_node v (ensure_node u G)) x = nbrs G x) as Hx.
  { intros x. rewrite nbrs_ensure_node by exact Hwf1.
    apply nbrs_ensure_node. exact Hwf. }
  destruct (decide (a = v)) as [->|Hav].
  - destruct (decide (b = u)) as [->|Hbu].
    + rewrite lookup_insert_eq. rewrite decide_True by tauto. reflexivity.
    + rewrite lookup_insert_ne by congruence.
      destruct (decide (v = u)) as [->|Hvu].
      * destruct (decide (b = u)) as [->|_]; [congruence|].
        rewrite lookup_insert_ne by congruence. rewrite Hx.
        rewrite decide_False by tauto. reflexivity.
      * rewrite Hx. rewrite decide_False by tauto. reflexivity.
  - destruct (decide (a = u)) as [->|Hau].
    + destruct (decide (b = v)) as [->|Hbv].
      * rewrite lookup_insert_eq. rewrite decide_True by tauto. reflexivity.
      * rewrite lookup_insert_ne by congruence. rewrite Hx.
        rewrite decide_False by tauto. reflexivity.
    + rewrite Hx. rewrite decide_False by tauto. reflexivity.
Qed.

Lemma nbrs_add_node n d G a : graph_wf G -> nbrs (add_node n d G) a = nbrs G a.
Proof.
  intros Hwf. unfold add_node. destruct (g_node G !! n) eqn:Hn; [reflexivity|].
  unfold nbrs at 1. simpl. destruct (decide (n = a)) as [->|Hne].
  - rewrite lookup_insert_eq. simpl. symmetry. apply nbrs_None; assumption.
  - rewrite lookup_insert_ne by exact Hne. reflexivity.
Qed.

Lemma g_node_add_node_dom n d G :
  dom (g_node (add_node n d G)) = {[n]} ∪ dom (g_node G).
Proof.
  unfold add_node. destruct (g_node G !! n); simpl; apply dom_insert_L.
Qed.

Lemma all_attributed_add_node n d G :
  all_attributed G -> all_attributed (add_node n d G).
Proof.
  intros Hall m dm. unfold add_node.
  destruct (g_node G !! n); simpl; intros Hm;
    (destruct (decide (n = m)) as [->|Hne];
     [rewrite lookup_insert_eq in Hm; injection Hm as <-; eexists; reflexivity
     |rewrite lookup_insert_ne in Hm by exact Hne; exact (Hall _ _ Hm)]).
Qed.

Lemma add_nodes_spec (df : list Patch) (G : Graph) :
  graph_wf G -> all_attributed G ->
  graph_wf (add_nodes df G) /\
  all_attributed (add_nodes df G) /\
  dom (g_node (add_nodes df G)) = dom (g_node G) ∪ list_to_set (patch_ids df) /\
  forall a, nbrs (add_nodes df G) a = nbrs G a.
Proof.
  revert G. induction df as [|row df IH]; intros G Hwf Hall; simpl.
  - repeat split; auto. set_solver.
  - destruct (IH (add_node (patch_id row) (node_data_of row) G))
      as (Hwf' & Hall' & Hdom & Hnb).
    { apply graph_wf_add_node. exact Hwf. }
    { apply all_attributed_add_node. exact Hall. }
    unfold add_nodes in *. simpl. repeat split; auto.
    + rewrite Hdom, g_node_add_node_dom. set_solver.
    + intros a. rewrite Hnb. apply nbrs_add_node. exact Hwf.
Qed.

(** ** The edges of the built network *)

Lemma patch_ids_lookup (df : list Patch) (i : nat) (row : Patch) :
  df !! i = Some row -> patch_ids df !! i = Some (patch_id row).
Proof. intros H. unfold patch_ids. rewrite list_lookup_fmap, H. reflexivity. Qed.

Lemma link_unique df max_distance_m i j i' j' a b e e' :
  NoDup (patch_ids df) ->
  link df max_distance_m i j a b e -> link df max_distance_m i' j' a b e' ->
  i = i' /\ j = j' /\ e = e'.
Proof.
  intros Hnd (ri & rj & Hi & Hj & Hlt & _ & Hab & ->)
         (ri' & rj' & Hi' & Hj' & Hlt' & _ & Hab' & ->).
  pose proof (patch_ids_lookup _ _ _ Hi) as Ki.
  pose proof (patch_ids_lookup _ _ _ Hj) as Kj.
  pose proof (patch_ids_lookup _ _ _ Hi') as Ki'.
  pose proof (patch_ids_lookup _ _ _ Hj') as Kj'.
  assert (forall x y p, patch_ids df !! x = Some p -> patch_ids df !! y = Some p -> x = y)
    as Hinj.
  { intros x y p Hx Hy. exact (NoDup_lookup _ _ _ _ Hnd Hx Hy). }
  destruct Hab as [[-> ->]|[-> ->]]; destruct Hab' as [[E1 E2]|[E1 E2]];
    rewrite E1 in *; rewrite E2 in *.
  - assert (i = i') as <- by eauto. assert (j = j') as <- by eauto.
    rewrite Hi in Hi'. rewrite Hj in Hj'. injection Hi' as <-. injection Hj' as <-.
    auto.
  - assert (i = j') by eauto. assert (j = i') by eauto. lia.
  - assert (j = i') by eauto. assert (i = j') by eauto. lia.
  - assert (i = i') as <- by eauto. assert (j = j') as <- by eauto.
    rewrite Hi in Hi'. rewrite Hj in Hj'. injection Hi' as <-. injection Hj' as <-.
    auto.
Qed.

Lemma within_test df max_distance_m i j :
  bool_decide (cdist (coords_of df) i j <= max_distance_m)%R
  && bool_decide (0 < cdist (coords_of df) i j)%R = true
  <-> within df max_distance_m i j.
Proof.
  unfold within. rewrite andb_true_iff, !bool_decide_eq_true. tauto.
Qed.

Lemma add_connection_step df max_distance_m processed G i j :
  NoDup (patch_ids df) -> (i < j)%nat ->
  graph_wf G -> covers df G ->
  sound df max_distance_m G -> complete df max_distance_m processed G ->
  let G' := add_connection df max_distance_m G (i, j) in
  graph_wf G' /\ g_node G' = g_node G /\
  sound df max_distance_m G' /\
  complete df max_distance_m (processed ++ [(i, j)]) G'.
Proof.
  intros Hnd Hlt Hwf Hcov Hsound Hcomplete. unfold add_connection. simpl.
  destruct (df !! i) as [row_i|] eqn:Hi; [destruct (df !! j) as [row_j|] eqn:Hj|].
  - destruct (_ && _) eqn:Htest.
    + apply within_test in Htest.
      assert (link df max_distance_m i j (patch_id row_i) (patch_id row_j)
                (connection_data (area_ha row_i) (area_ha row_j)
                   (cdist (coords_of df) i j))) as Hlink.
      { exists row_i, row_j. repeat split; auto; apply Htest. }
      assert (forall a b e,
                link df max_distance_m i j a b e ->
                (a = patch_id row_i /\ b = patch_id row_j) \/
                (a = patch_id row_j /\ b = patch_id row_i)) as Hends.
      { intros a b e (ri & rj & Hi' & Hj' & _ & _ & Hab & _).
        rewrite Hi in Hi'. rewrite Hj in Hj'.
        injection Hi' as <-. injection Hj' as <-. exact Hab. }
      split; [apply graph_wf_add_edge; exact Hwf|].
      split.
      { apply g_node_add_edge; apply Hcov; eapply list_elem_of_lookup_2; eauto. }
      split.
      * intros a b e. rewrite lookup_add_edge by exact Hwf.
        case_decide as Hab; [|apply Hsound].
        intros He. injection He as <-. exists i, j.
        destruct Hlink as (ri & rj & ? & ? & ? & ? & _ & ?).
        exists ri, rj. rewrite Hi in *. rewrite Hj in *. simplify_eq.
        repeat split; auto; apply Htest.
      * intros i' j' a b e Hin Hl. rewrite lookup_add_edge by exact Hwf.
        case_decide as Hab.
        -- f_equal.
           assert (link df max_distance_m i j a b
                     (connection_data (area_ha row_i) (area_ha row_j)
                        (cdist (coords_of df) i j))) as Hl'.
           { destruct Hlink as (ri & rj & ? & ? & ? & ? & _ & ?).
             exists ri, rj. rewrite Hi in *. rewrite Hj in *. simplify_eq.
             repeat split; auto; apply Htest. }
           destruct (link_unique _ _ _ _ _ _ _ _ _ _ Hnd Hl' Hl) as (_ & _ & ->).
           reflexivity.
        -- apply elem_of_app in Hin as [Hin|Hin].
           ++ eapply Hcomplete; eauto.
           ++ apply list_elem_of_singleton in Hin. injection Hin as -> ->.
              exfalso. apply Hab. eapply Hends. exact Hl.
    + split; [exact Hwf|]. split; [reflexivity|]. split; [exact Hsound|].
      intros i' j' a b e Hin Hl. apply elem_of_app in Hin as [Hin|Hin].
      * eapply Hcomplete; eauto.
      * apply list_elem_of_singleton in Hin. injection Hin as -> ->.
        destruct Hl as (_ & _ & _ & _ & _ & Hw & _).
        apply within_test in Hw. congruence.
  - split; [exact Hwf|]. split; [reflexivity|]. split; [exact Hsound|].
    intros i' j' a b e Hin Hl. apply elem_of_app in Hin as [Hin|Hin].
    * eapply Hcomplete; eauto.
    * apply list_elem_of_singleton in Hin. injection Hin as -> ->.
      destruct Hl as (? & ? & _ & Hj' & _). congruence.
  - split; [exact Hwf|]. split; [reflexivity|]. split; [exact Hsound|].
    intros i' j' a b e Hin Hl. apply elem_of_app in Hin as [Hin|Hin].
    * eapply Hcomplete; eauto.
    * apply list_elem_of_singleton in Hin. injection Hin as -> ->.
      destruct Hl as (? & ? & Hi' & _). congruence.
Qed.

Lemma add_connections_fold df max_distance_m pairs : forall processed G,
  NoDup (patch_ids df) ->
  (forall i j, (i, j) ∈ pairs -> (i < j)%nat) ->
  graph_wf G -> covers df G ->
  sound df max_distance_m G -> complete df max_distance_m processed G ->
  let G' := foldl (add_connection df max_distance_m) G pairs in
  graph_wf G' /\ g_node G' = g_node G /\
  sound df max_distance_m G' /\
  complete df max_distance_m (processed ++ pairs) G'.
Proof.
  induction pairs as [|[i j] pairs IH]; intros processed G Hnd Hlt Hwf Hcov Hs Hc; simpl.
  - rewrite app_nil_r. auto.
  - destruct (add_connection_step df max_distance_m processed G i j)
      as (Hwf' & Hnode & Hs' & Hc'); auto.
    { apply Hlt. left. }
    destruct (IH (processed ++ [(i, j)]) (add_connection df max_distance_m G (i, j)))
      as (Hwf'' & Hnode' & Hs'' & Hc''); auto.
    { intros i' j' Hin. apply Hlt. right. exact Hin. }
    { intros row Hrow. rewrite Hnode. apply Hcov. exact Hrow. }
    rewrite <- app_assoc in Hc''. simpl in Hc''.
    repeat split; auto. rewrite Hnode'. exact Hnode.
Qed.

Lemma elem_of_index_pairs (n i j : nat) :
  (i, j) ∈ index_pairs n <-> (i < j < n)%nat.
Proof.
  unfold index_pairs. rewrite list_elem_of_bind. split.
  - intros (i' & Hj & Hi). apply list_elem_of_fmap in Hj as (j' & Heq & Hj).
    injection Heq as -> ->. apply elem_of_seq in Hi, Hj. lia.
  - intros H. exists i. split.
    + apply list_elem_of_fmap. exists j. split; [reflexivity|].
      apply elem_of_seq. lia.
    + apply elem_of_seq. lia.
Qed.

(** The network [_build_network] leaves in [self.network]. *)
Lemma build_network_spec (df : list Patch) (max_distance_m : R) :
  NoDup (patch_ids df) ->
  let G := build_network df max_distance_m in
  graph_wf G /\ all_attributed G /\
  dom (g_node G) = list_to_set (patch_ids df) /\
  forall a b e,
    nbrs G a !! b = Some e <-> exists i j, link df max_distance_m i j a b e.
Proof.
  intros Hnd. unfold build_network.
  destruct (add_nodes_spec df empty_graph) as (Hwf & Hall & Hdom & Hnb).
  { exact graph_wf_empty. }
  { intros n d Hn. simpl in Hn. rewrite lookup_empty in Hn. discriminate. }
  simpl in Hdom. rewrite dom_empty_L, (left_id_L ∅ (∪)) in Hdom.
  destruct (add_connections_fold df max_distance_m (index_pairs (length df)) []
              (add_nodes df empty_graph)) as (Hwf' & Hnode & Hs & Hc); auto.
  - intros i j Hij. apply elem_of_index_pairs in Hij. lia.
  - intros row Hrow. rewrite Hdom. apply elem_of_list_to_set.
    unfold patch_ids. apply list_elem_of_fmap. exists row. auto.
  - intros a b e. rewrite Hnb. unfold nbrs. simpl. rewrite lookup_empty. simpl.
    rewrite lookup_empty. discriminate.
  - intros i j a b e Hin. apply elem_of_nil in Hin. contradiction.
  - simpl in Hc. split; [exact Hwf'|]. split.
    { intros n d. rewrite Hnode. apply Hall. }
    split; [rewrite Hnode; exact Hdom|].
    intros a b e. split; [apply Hs|].
    intros (i & j & Hl). apply (Hc i j); [|exact Hl].
    apply elem_of_index_pairs. destruct Hl as (ri & rj & _ & Hj & Hlt & _).
    apply lookup_lt_Some in Hj. lia.
Qed.

(** The identifiers of the extracted features are distinct. *)
Lemma extract_features_ids layer area_field features : forall i (d : FeatureData),
  d ∈ extract_features layer area_field i features ->
  (i <= patch_index (patch_id d))%nat.
Proof.
  induction features as [|f features IH]; intros i d Hd; simpl in Hd.
  - apply elem_of_nil in Hd. contradiction.
  - destruct (isEmpty (geometry_of f)).
    + apply IH in Hd. lia.
    + apply elem_of_cons in Hd as [->|Hd]; [simpl; lia|]. apply IH in Hd. lia.
Qed.

Lemma extract_features_NoDup layer area_field features : forall i,
  NoDup (patch_id <$> extract_features layer area_field i features).
Proof.
  induction features as [|f features IH]; intros i; simpl.
  - constructor.
  - destruct (isEmpty (geometry_of f)); [apply IH|].
    simpl. constructor; [|apply IH].
    intros Hin. apply list_elem_of_fmap in Hin as (d & Hid & Hd).
    apply extract_features_ids in Hd. rewrite <- Hid in Hd. simpl in Hd. lia.
Qed.

Lemma patch_ids_filter (f : Patch -> bool) (df : list Patch) :
  NoDup (patch_ids df) -> NoDup (patch_ids (List.filter f df)).
Proof.
  unfold patch_ids. induction df as [|p df IH]; simpl; intros Hnd; [constructor|].
  apply NoDup_cons in Hnd as [Hp Hnd]. destruct (f p); simpl; [|apply IH; exact Hnd].
  constructor; [|apply IH; exact Hnd]. intros Hin. apply Hp.
  apply list_elem_of_fmap in Hin as (q & Hq & Hin). apply list_elem_of_fmap.
  exists q. split; [exact Hq|]. apply list_elem_of_In in Hin.
  apply filter_In in Hin as [Hin _]. apply list_elem_of_In. exact Hin.
Qed.

Lemma retained_patches_NoDup layer area_field minp mins :
  NoDup (patch_ids (retained_patches layer area_field minp mins)).
Proof.
  unfold retained_patches, filter_patches. apply patch_ids_filter.
  rewrite classify_node_types_rows. unfold patch_ids.
  rewrite <- list_fmap_compose.
  exact (extract_features_NoDup layer area_field (getFeatures layer) 0).
Qed.

(** ** [_calculate_metrics] on the built network does not raise *)

Lemma count_node_type_returns (t : NodeType) (G : Graph) :
  all_attributed G -> exists n, count_node_type t G = Return n.
Proof.
  intros Hall. unfold count_node_type.
  destruct (mapM_all_Return (fun nd : PatchId * option NodeData => node_type_of nd.2)
              (map_to_list (g_node G))) as [types Htypes].
  - intros [n d] Hin. apply elem_of_map_to_list in Hin.
    destruct (Hall _ _ Hin) as [d' ->]. simpl. eexists. reflexivity.
  - rewrite Htypes. simpl. eexists. reflexivity.
Qed.

Lemma annotate_returns (G : Graph) (row : Patch) :
  graph_wf G -> patch_id row ∈ dom (g_node G) ->
  exists a, annotate G row = Return a.
Proof.
  intros Hwf Hin. unfold annotate, degree. rewrite <- Hwf in Hin.
  apply elem_of_dom in Hin as [nb ->]. simpl. eexists. reflexivity.
Qed.

Lemma calculate_metrics_returns (df : list Patch) (max_distance_m : R) :
  NoDup (patch_ids df) -> df <> [] ->
  exists m annotated,
    calculate_metrics (build_network df max_distance_m) df = Return (m, annotated).
Proof.
  intros Hnd Hne.
  destruct (build_network_spec df max_distance_m Hnd) as (Hwf & Hall & Hdom & _).
  unfold calculate_metrics.
  destruct (count_node_type_returns primary _ Hall) as [n1 ->].
  destruct (count_node_type_returns secondary _ Hall) as [n2 ->]. simpl.
  destruct (mapM_all_Return (annotate (build_network df max_distance_m)) df)
    as [annotated Hann].
  { intros row Hrow. apply annotate_returns; [exact Hwf|].
    rewrite Hdom. apply elem_of_list_to_set. unfold patch_ids.
    apply list_elem_of_fmap. exists row. auto. }
  rewrite Hann. simpl.
  pose proof (mapM_Return_length _ _ _ Hann) as Hlen.
  destruct annotated as [|a annotated].
  { destruct df; [contradiction | discriminate]. }
  simpl. eexists _, _. reflexivity.
Qed.

(** ** What a call returns or raises *)

Lemma analyze_invalid self layer max_distance_km minp mins area_field :
  isValid layer = false ->
  analyze_layer_connectivity self layer max_distance_km minp mins area_field
  = (self, Raise (ValueError "Invalid layer provided")).
Proof. intros H. unfold analyze_layer_connectivity. rewrite H. reflexivity. Qed.

Lemma analyze_no_features self layer max_distance_km minp mins area_field :
  isValid layer = true ->
  extract_features layer area_field 0 (getFeatures layer) = [] ->
  (analyze_layer_connectivity self layer max_distance_km minp mins area_field).2
  = Raise (ValueError "No valid features found in layer").
Proof.
  intros H Hex. unfold analyze_layer_connectivity. rewrite H, Hex. reflexivity.
Qed.

Lemma analyze_none_retained self layer max_distance_km minp mins area_field :
  isValid layer = true ->
  extract_features layer area_field 0 (getFeatures layer) <> [] ->
  retained_patches layer area_field minp mins = [] ->
  (analyze_layer_connectivity self layer max_distance_km minp mins area_field).2
  = Raise (ValueError "No patches meet minimum size criteria").
Proof.
  intros H Hex Hret. unfold analyze_layer_connectivity, retained_patches in *.
  rewrite H. simpl.
  destruct (extract_features _ _ _ _); [contradiction|]. rewrite Hret. reflexivity.
Qed.

Lemma analyze_some_retained self layer max_distance_km minp mins area_field :
  isValid layer = true ->
  retained_patches layer area_field minp mins <> [] ->
  exists self' m,
    analyze_layer_connectivity self layer max_distance_km minp mins area_field
    = (self', Return m).
Proof.
  intros H Hret.
  destruct (calculate_metrics_returns _ (Q2R (max_distance_km * 1000))
              (retained_patches_NoDup layer area_field minp mins) Hret)
    as (m & annotated & Hm).
  unfold analyze_layer_connectivity, retained_patches in *. rewrite H. simpl.
  destruct (extract_features _ _ _ _) as [|d ds] eqn:Hex.
  { exfalso. apply Hret. reflexivity. }
  destruct (filter_patches _ _) as [|p df] eqn:Hdf; [contradiction|].
  rewrite Hm. eexists _, _. reflexivity.
Qed.

Lemma extract_features_nil layer area_field features : forall i,
  extract_features layer area_field i features = [] <->
  forall f, f ∈ features -> isEmpty (geometry_of f) = true.
Proof.
  induction features as [|f features IH]; intros i; simpl.
  - split; [intros _ f Hf; apply elem_of_nil in Hf; contradiction | reflexivity].
  - destruct (isEmpty (geometry_of f)) eqn:Hf.
    + rewrite IH. split.
      * intros Hall g Hg. apply elem_of_cons in Hg as [->|Hg]; auto.
      * intros Hall g Hg. apply Hall. right. exact Hg.
    + split; [discriminate|]. intros Hall.
      rewrite (Hall f) in Hf by left. discriminate.
Qed.

Lemma retained_patches_nil layer area_field minp mins :
  retained_patches layer area_field minp mins = [] <->
  forall d : FeatureData,
    d ∈ extract_features layer area_field 0 (getFeatures layer) ->
    (area_ha d < mins)%Q.
Proof.
  split.
  - intros Hnil d Hd. apply Qnot_le_lt. intros Hle.
    assert (classify_row minp mins d ∈ retained_patches layer area_field minp mins)
      as Hin.
    { apply elem_of_retained_patches. split; [exists d; auto | exact Hle]. }
    rewrite Hnil in Hin. apply elem_of_nil in Hin. exact Hin.
  - intros Hall. destruct (retained_patches _ _ _ _) as [|p l] eqn:Hret; [reflexivity|].
    assert (p ∈ retained_patches layer area_field minp mins) as Hin
      by (rewrite Hret; left).
    apply elem_of_retained_patches in Hin as [[d [Hd ->]] Hle].
    specialize (Hall d Hd). simpl in Hle. exfalso. lra.
Qed.

(** ** C7: when extraction raises *)

(** C7.  On a valid layer the call raises [ValueError] ("No valid features
    found in layer") exactly when the layer has no feature with a non-empty
    geometry, an empty layer included; it raises [ValueError] ("No patches
    meet minimum size criteria") exactly when some feature is usable and no
    extracted patch has [area_ha >= min_secondary_size_ha]; in every other
    case, and only then, it returns, and [patches_df] then holds the
    retained patches. *)
Theorem extraction_raises_exactly self layer max_distance_km minp mins area_field :
  isValid layer = true ->
  let run := analyze_layer_connectivity self layer max_distance_km minp mins
               area_field in
  let extracted := extract_features layer area_field 0 (getFeatures layer) in
  (run.2 = Raise (ValueError "No valid features found in layer") <->
   forall f, f ∈ getFeatures layer -> isEmpty (geometry_of f) = true) /\
  (run.2 = Raise (ValueError "No patches meet minimum size criteria") <->
   extracted <> [] /\
   forall d : FeatureData, d ∈ extracted -> (area_ha d < mins)%Q) /\
  ((exists m, run.2 = Return m) <->
   exists d : FeatureData, d ∈ extracted /\ (mins <= area_ha d)%Q) /\
  (forall m, run.2 = Return m ->
     frame_rows (self_patches_df run.1)
     = retained_patches layer area_field minp mins).
Proof.
  intros Hvalid run extracted.
  pose proof (extract_features_nil layer area_field (getFeatures layer) 0) as Hnil.
  pose proof (retained_patches_nil layer area_field minp mins) as Hret.
  fold extracted in Hnil, Hret.
  assert (forall m, run.2 = Return m ->
            frame_rows (self_patches_df run.1)
            = retained_patches layer area_field minp mins) as Hrows.
  { intros m Hm. apply (analyze_returns_rows self layer max_distance_km minp mins
                          area_field run.1 m).
    rewrite <- Hm. apply surjective_pairing. }
  destruct (decide (extracted = [])) as [Hex|Hex].
  - pose proof (analyze_no_features self layer max_distance_km minp mins area_field
                  Hvalid Hex) as Hrun. fold run in Hrun.
    repeat split; auto.
    + intros _. apply Hnil. exact Hex.
    + rewrite Hrun in H. discriminate.
    + rewrite Hrun in H. discriminate.
    + intros [? _]. contradiction.
    + intros [m Hm]. rewrite Hrun in Hm. discriminate.
    + intros (d & Hd & _). rewrite Hex in Hd. apply elem_of_nil in Hd. contradiction.
  - destruct (decide (retained_patches layer area_field minp mins = [])) as [Hr|Hr].
    + pose proof (analyze_none_retained self layer max_distance_km minp mins
                    area_field Hvalid Hex Hr) as Hrun. fold run in Hrun.
      repeat split; auto.
      * intros H. rewrite Hrun in H. discriminate.
      * intros H. apply Hnil in H. contradiction.
      * apply Hret. exact Hr.
      * intros [m Hm]. rewrite Hrun in Hm. discriminate.
      * intros (d & Hd & Hle). pose proof (proj1 Hret Hr d Hd).
        exfalso. lra.
    + destruct (analyze_some_retained self layer max_distance_km minp mins
                  area_field Hvalid Hr) as (self' & m & Hrun).
      fold run in Hrun. rewrite Hrun in *. simpl.
      repeat split; auto; try discriminate.
      * intros H. apply Hnil in H. contradiction.
      * intros [_ H]. apply (proj2 Hret) in H. contradiction.
      * intros _. destruct (retained_patches layer area_field minp mins)
          as [|p l] eqn:Hp; [contradiction|].
        assert (p ∈ retained_patches layer area_field minp mins) as Hin
          by (rewrite Hp; left).
        apply elem_of_retained_patches in Hin as [[d [Hd ->]] Hle].
        exists d. auto.
      * intros _. exists m. reflexivity.
Qed.

Lemma extraction_raises_exactly_witness :
  exists m,
    (analyze_layer_connectivity init one_patch_layer 2 0.5 0.1 None).2 = Return m.
Proof.
  apply (extraction_raises_exactly init one_patch_layer 2 0.5 0.1 None eq_refl).
  eexists. split; [left|]. vm_compute. discriminate.
Defined.

(** ** C1: the parameters are not validated *)

(** C1, as the script behaves: no threshold is checked.  On a valid layer
    with a usable feature whose area reaches [min_secondary_size_ha], the
    call returns metrics for every [max_distance_km],
    [min_primary_size_ha] and [min_secondary_size_ha], zero and negative
    values included. *)
Theorem parameters_not_validated self layer max_distance_km minp mins area_field
    (d : FeatureData) :
  isValid layer = true ->
  d ∈ extract_features layer area_field 0 (getFeatures layer) ->
  (mins <= area_ha d)%Q ->
  exists self' m,
    analyze_layer_connectivity self layer max_distance_km minp mins area_field
    = (self', Return m).
Proof.
  intros Hvalid Hd Hle. apply analyze_some_retained; [exact Hvalid|].
  intros Hnil.
  assert (classify_row minp mins d ∈ retained_patches layer area_field minp mins)
    as Hin.
  { apply elem_of_retained_patches. split; [exists d; auto | exact Hle]. }
  rewrite Hnil in Hin. apply elem_of_nil in Hin. exact Hin.
Qed.

Lemma parameters_not_validated_witness :
  exists self' m,
    analyze_layer_connectivity init one_patch_layer (-1) 0 (-3) None
    = (self', Return m).
Proof.
  eapply (parameters_not_validated init one_patch_layer (-1) 0 (-3) None).
  - reflexivity.
  - left.
  - vm_compute. discriminate.
Defined.

(** A call with [max_distance_km = -1], [min_primary_size_ha = 0] and
    [min_secondary_size_ha = -3] returns its metrics; nothing is raised. *)
Lemma nonpositive_parameters_return :
  (-1 <= 0)%Q /\ (0 <= 0)%Q /\ (-3 <= 0)%Q /\
  (analyze_layer_connectivity init one_patch_layer (-1) 0 (-3) None).2 =
  Return {| total_patches := 1; total_connections := 0; network_density := 0;
            primary_nodes := 1; secondary_nodes := 0; num_components := 1;
            largest_component_size := 1; isolated_patches := 1;
            avg_connections_per_patch := Some (0 # 1); max_connections := 0;
            total_area_ha := 20000 # 10000 |}.
Proof.
  split; [discriminate|]. split; [discriminate|]. split; [discriminate|].
  vm_compute. reflexivity.
Qed.

(** ** C5: the edges of the network *)

Lemma euclidean_sym (p q : R * R) : euclidean p q = euclidean q p.
Proof. unfold euclidean. f_equal. ring. Qed.

Lemma edge_between_sym (row_a row_b : Patch) :
  edge_between row_a row_b = edge_between row_b row_a.
Proof.
  unfold edge_between. rewrite (euclidean_sym (centroid_xy row_a)).
  rewrite (Rmult_comm (Q2R (area_ha row_a))). reflexivity.
Qed.

Lemma cdist_rows (df : list Patch) (i j : nat) (row_i row_j : Patch) :
  df !! i = Some row_i -> df !! j = Some row_j ->
  cdist (coords_of df) i j = euclidean (centroid_xy row_i) (centroid_xy row_j).
Proof.
  intros Hi Hj. unfold cdist, coords_of. rewrite !list_lookup_fmap, Hi, Hj.
  reflexivity.
Qed.

Lemma connection_data_rows (df : list Patch) (i j : nat) (row_i row_j : Patch) :
  df !! i = Some row_i -> df !! j = Some row_j ->
  connection_data (area_ha row_i) (area_ha row_j) (cdist (coords_of df) i j)
  = edge_between row_i row_j.
Proof.
  intros Hi Hj. unfold connection_data, edge_between.
  rewrite (cdist_rows df i j row_i row_j Hi Hj), Q2R_mult. reflexivity.
Qed.

Lemma link_rows df max_distance_m i j (row_i row_j : Patch) e :
  NoDup (patch_ids df) ->
  df !! i = Some row_i -> df !! j = Some row_j -> i <> j ->
  (exists i' j', link df max_distance_m i' j' (patch_id row_i) (patch_id row_j) e)
  <->
  (0 < euclidean (centroid_xy row_i) (centroid_xy row_j) <= max_distance_m)%R
  /\ e = edge_between row_i row_j.
Proof.
  intros Hnd Hi Hj Hne.
  assert (forall x y p, patch_ids df !! x = Some p -> patch_ids df !! y = Some p -> x = y)
    as Hinj.
  { intros x y p Hx Hy. exact (NoDup_lookup _ _ _ _ Hnd Hx Hy). }
  pose proof (patch_ids_lookup _ _ _ Hi) as Ki.
  pose proof (patch_ids_lookup _ _ _ Hj) as Kj.
  split.
  - intros (i' & j' & ri & rj & Hi' & Hj' & Hlt & Hw & Hab & ->).
    pose proof (patch_ids_lookup _ _ _ Hi') as Ki'.
    pose proof (patch_ids_lookup _ _ _ Hj') as Kj'.
    unfold within in Hw. rewrite (cdist_rows df i' j' ri rj Hi' Hj') in Hw.
    rewrite (connection_data_rows df i' j' ri rj Hi' Hj').
    destruct Hab as [[E1 E2]|[E1 E2]]; rewrite E1 in *; rewrite E2 in *.
    + assert (i = i') as <- by eauto. assert (j = j') as <- by eauto.
      simplify_eq. auto.
    + assert (i = j') as <- by eauto. assert (j = i') as <- by eauto.
      simplify_eq. rewrite euclidean_sym, edge_between_sym. auto.
  - intros [Hw ->]. destruct (Nat.lt_total i j) as [Hlt|[Heq|Hgt]]; [|contradiction|].
    + exists i, j, row_i, row_j. repeat split; auto.
      * rewrite (cdist_rows df i j row_i row_j Hi Hj). apply Hw.
      * rewrite (cdist_rows df i j row_i row_j Hi Hj). apply Hw.
      * symmetry. apply connection_data_rows; assumption.
    + exists j, i, row_j, row_i. repeat split; auto.
      * rewrite (cdist_rows df j i row_j row_i Hj Hi), euclidean_sym. apply Hw.
      * rewrite (cdist_rows df j i row_j row_i Hj Hi), euclidean_sym. apply Hw.
      * rewrite edge_between_sym. symmetry. apply connection_data_rows; assumption.
Qed.

Lemma build_network_edge df max_distance_m i j (row_i row_j : Patch) e :
  NoDup (patch_ids df) ->
  df !! i = Some row_i -> df !! j = Some row_j -> i <> j ->
  edge_data (build_network df max_distance_m) (patch_id row_i) (patch_id row_j)
    = Some e
  <->
  (0 < euclidean (centroid_xy row_i) (centroid_xy row_j) <= max_distance_m)%R
  /\ e = edge_between row_i row_j.
Proof.
  intros Hnd Hi Hj Hne. unfold edge_data.
  destruct (build_network_spec df max_distance_m Hnd) as (_ & _ & _ & Hedges).
  rewrite Hedges. apply (link_rows df max_distance_m i j); assumption.
Qed.

Lemma build_network_edge_rows df max_distance_m a b e :
  NoDup (patch_ids df) ->
  edge_data (build_network df max_distance_m) a b = Some e ->
  exists i j (row_i row_j : Patch),
    df !! i = Some row_i /\ df !! j = Some row_j /\ i <> j /\
    a = patch_id row_i /\ b = patch_id row_j /\ a <> b.
Proof.
  intros Hnd He. unfold edge_data in He.
  destruct (build_network_spec df max_distance_m Hnd) as (_ & _ & _ & Hedges).
  apply Hedges in He as (i & j & ri & rj & Hi & Hj & Hlt & _ & Hab & _).
  assert (patch_id ri <> patch_id rj) as Hids.
  { intros Heq. pose proof (patch_ids_lookup _ _ _ Hi) as Ki.
    pose proof (patch_ids_lookup _ _ _ Hj) as Kj. rewrite Heq in Ki.
    pose proof (NoDup_lookup _ _ _ _ Hnd Ki Kj). lia. }
  destruct Hab as [[-> ->]|[-> ->]].
  - exists i, j, ri, rj. repeat split; auto. lia.
  - exists j, i, rj, ri. repeat split; auto. lia.
Qed.

Lemma analyze_returns_network self layer max_distance_km minp mins area_field
    self' m G :
  analyze_layer_connectivity self layer max_distance_km minp mins area_field
    = (self', Return m) ->
  self_network self' = Some G ->
  G = build_network (frame_rows (self_patches_df self'))
        (Q2R (max_distance_km * 1000))
  /\ NoDup (patch_ids (frame_rows (self_patches_df self')))
  /\ frame_rows (self_patches_df self') <> [].
Proof.
  intros Hrun HG. rewrite (analyze_returns_rows _ _ _ _ _ _ _ _ Hrun).
  apply analyze_returns in Hrun as (annotated & _ & Hne & _ & ->).
  simpl in HG. injection HG as <-.
  split; [reflexivity|]. split; [apply retained_patches_NoDup | exact Hne].
Qed.

(** C5.  In the network a returning call leaves in [self.network], with
    [max_distance_m = max_distance_km * 1000] the argument of
    [_build_network]: for any two distinct rows [i], [j] of [patches_df] an
    edge joins their patches iff [0 < distance <= max_distance_m], where
    [distance] is the Euclidean distance of their centroids; that edge has
    [distance_m = distance] and
    [weight = sqrt (area_i * area_j) / distance]; and every edge of the
    network joins two different patches of [patches_df] at a distance in
    that range. *)
Theorem network_edges self layer max_distance_km minp mins area_field self' m G :
  analyze_layer_connectivity self layer max_distance_km minp mins area_field
    = (self', Return m) ->
  self_network self' = Some G ->
  let df := frame_rows (self_patches_df self') in
  let max_distance_m := Q2R (max_distance_km * 1000) in
  (forall i j (row_i row_j : Patch),
     df !! i = Some row_i -> df !! j = Some row_j -> i <> j ->
     let distance := euclidean (centroid_xy row_i) (centroid_xy row_j) in
     (has_edge G (patch_id row_i) (patch_id row_j) = true
      <-> (0 < distance <= max_distance_m)%R) /\
     (forall e, edge_data G (patch_id row_i) (patch_id row_j) = Some e ->
        distance_m e = distance /\
        weight e
        = (sqrt (Q2R (area_ha row_i * area_ha row_j)) / distance)%R)) /\
  (forall a b e, edge_data G a b = Some e ->
     a <> b /\ (0 < distance_m e <= max_distance_m)%R /\
     exists row_a row_b : Patch,
       row_a ∈ df /\ row_b ∈ df /\ a = patch_id row_a /\ b = patch_id row_b /\
       distance_m e = euclidean (centroid_xy row_a) (centroid_xy row_b)).
Proof.
  intros Hrun HG df max_distance_m.
  destruct (analyze_returns_network _ _ _ _ _ _ _ _ _ Hrun HG) as (-> & Hnd & _).
  fold df in Hnd. fold df max_distance_m. split.
  - intros i j row_i row_j Hi Hj Hne distance. split.
    + unfold has_edge. rewrite bool_decide_eq_true. split.
      * intros [e He].
        apply (build_network_edge df max_distance_m i j row_i row_j e Hnd Hi Hj Hne)
          in He as [Hw _]. exact Hw.
      * intros Hw. exists (edge_between row_i row_j).
        apply (build_network_edge df max_distance_m i j row_i row_j _ Hnd Hi Hj Hne).
        auto.
    + intros e He.
      apply (build_network_edge df max_distance_m i j row_i row_j e Hnd Hi Hj Hne)
        in He as [_ ->].
      simpl. rewrite Q2R_mult. auto.
  - intros a b e He.
    destruct (build_network_edge_rows df max_distance_m a b e Hnd He)
      as (i & j & row_i & row_j & Hi & Hj & Hne & -> & -> & Hab).
    apply (build_network_edge df max_distance_m i j row_i row_j e Hnd Hi Hj Hne)
      in He as [Hw ->].
    split; [exact Hab|]. split; [exact Hw|].
    exists row_i, row_j. repeat split; auto; eapply list_elem_of_lookup_2; eauto.
Qed.

Lemma network_edges_witness :
  exists self' m G,
    analyze_layer_connectivity init two_patch_layer 2 0.5 0.1 None = (self', Return m)
    /\ self_network self' = Some G
    /\ (has_edge G (patch_ 0) (patch_ 1) = true
        <-> (0 < euclidean (0, 0) (1000, 0) <= Q2R (2 * 1000))%R).
Proof.
  destruct (analyze_some_retained init two_patch_layer 2 0.5 0.1 None eq_refl)
    as (self' & m & Hrun).
  { vm_compute. discriminate. }
  pose proof Hrun as Hstate.
  apply analyze_returns in Hstate as (annotated & _ & _ & _ & Hstate).
  exists self', m, (build_network (retained_patches two_patch_layer None 0.5 0.1)
                      (Q2R (2 * 1000))).
  split; [exact Hrun|]. split; [rewrite Hstate; reflexivity|].
  assert (self_network self' =
          Some (build_network (retained_patches two_patch_layer None 0.5 0.1)
                  (Q2R (2 * 1000)))) as HG by (rewrite Hstate; reflexivity).
  destruct (network_edges _ _ _ _ _ _ _ _ _ Hrun HG) as [Hpairs _].
  rewrite (analyze_returns_rows _ _ _ _ _ _ _ _ Hrun) in Hpairs.
  apply (Hpairs 0%nat 1%nat west_patch east_patch); [reflexivity | reflexivity | lia].
Defined.

(** ** C2: degree centrality *)

Lemma annotate_spec (G : Graph) (row : Patch) (a : AnnotatedPatch) :
  annotate G row = Return a ->
  patch a = row /\
  degree G (patch_id row) = Return (num_connections a) /\
  degree_centrality a = default 0 (nx_degree_centrality G !! patch_id row) /\
  betweenness_centrality a
  = default 0 (nx_betweenness_centrality G !! patch_id row).
Proof.
  unfold annotate. destruct (degree G (patch_id row)) as [d|]; simpl; [|discriminate].
  intros H. injection H as <-. simpl. auto.
Qed.

Lemma mapM_annotate_elem (G : Graph) (df : list Patch) (l : list AnnotatedPatch)
    (a : AnnotatedPatch) :
  mapM (annotate G) df = Return l -> a ∈ l ->
  exists row : Patch, row ∈ df /\ annotate G row = Return a.
Proof.
  intros H Ha. apply mapM_Return_Forall2 in H.
  induction H as [|row b df l Hb _ IH]; [apply elem_of_nil in Ha; contradiction|].
  apply elem_of_cons in Ha as [->|Ha].
  - exists row. split; [left | exact Hb].
  - destruct (IH Ha) as (row' & Hin & Hrow'). exists row'. split; [right|]; auto.
Qed.

Lemma number_of_nodes_build_network (df : list Patch) (max_distance_m : R) :
  NoDup (patch_ids df) ->
  number_of_nodes (build_network df max_distance_m) = length df.
Proof.
  intros Hnd. destruct (build_network_spec df max_distance_m Hnd) as (_ & _ & Hdom & _).
  unfold number_of_nodes. rewrite <- size_dom, Hdom, size_list_to_set by exact Hnd.
  unfold patch_ids. apply length_fmap.
Qed.

(** In the built network no patch is its own neighbour and the neighbours of
    a patch are other nodes of the network. *)
Lemma degree_of_build_network (df : list Patch) (max_distance_m : R) (a : PatchId) :
  NoDup (patch_ids df) ->
  a ∈ dom (g_node (build_network df max_distance_m)) ->
  let G := build_network df max_distance_m in
  degree_of (nbrs G a) a = size (nbrs G a) /\
  (size (nbrs G a) <= number_of_nodes G - 1)%nat.
Proof.
  intros Hnd Ha G. split.
  - unfold degree_of. rewrite bool_decide_eq_false_2; [lia|].
    intros [e He].
    destruct (build_network_edge_rows df max_distance_m a a e Hnd He)
      as (_ & _ & _ & _ & _ & _ & _ & _ & _ & Hne). contradiction.
  - unfold number_of_nodes. rewrite <- !size_dom.
    assert (dom (nbrs G a) ⊆ dom (g_node G) ∖ {[a]}) as Hsub.
    { intros b Hb. apply elem_of_dom in Hb as [e He].
      destruct (build_network_edge_rows df max_distance_m a b e Hnd He)
        as (i & j & ri & rj & Hi & Hj & _ & _ & -> & Hne).
      destruct (build_network_spec df max_distance_m Hnd) as (_ & _ & Hdom & _).
      apply elem_of_difference. split.
      - fold G in Hdom. rewrite Hdom. apply elem_of_list_to_set.
        apply list_elem_of_lookup. exists j. apply patch_ids_lookup. exact Hj.
      - apply not_elem_of_singleton. congruence. }
    apply subseteq_size in Hsub. rewrite size_difference in Hsub.
    + rewrite size_singleton in Hsub. exact Hsub.
    + apply singleton_subseteq_l. exact Ha.
Qed.

Lemma nx_degree_centrality_lookup (G : Graph) (a : PatchId) :
  a ∈ dom (g_node G) ->
  nx_degree_centrality G !! a =
  Some (if (number_of_nodes G <=? 1)%nat then 1
        else Qnat (degree_of (nbrs G a) a) * (1 / (Qnat (number_of_nodes G) - 1))).
Proof.
  intros Ha. apply elem_of_dom in Ha as [d Hd]. unfold nx_degree_centrality.
  destruct (number_of_nodes G <=? 1)%nat.
  - rewrite lookup_fmap, Hd. reflexivity.
  - rewrite map_lookup_imap, Hd. reflexivity.
Qed.

Lemma Qnat_le (a b : nat) : (a <= b)%nat -> (Qnat a <= Qnat b)%Q.
Proof.
  intros H. unfold Qnat. rewrite <- Zle_Qle. lia.
Qed.

Lemma Qnat_pred (n : nat) : (1 <= n)%nat -> (Qnat (n - 1) == Qnat n - 1)%Q.
Proof.
  intros H. unfold Qnat. rewrite Nat2Z.inj_sub by exact H.
  unfold Z.sub. rewrite inject_Z_plus, inject_Z_opp. reflexivity.
Qed.

Lemma centrality_bounds (d n : nat) :
  (1 < n)%nat -> (d <= n - 1)%nat ->
  let c := (Qnat d * (1 / (Qnat n - 1)))%Q in
  (c == Qnat d / (Qnat n - 1))%Q /\ (0 <= c)%Q /\ (c <= 1)%Q /\
  (d = 0%nat -> c == 0)%Q.
Proof.
  intros Hn Hd c.
  assert (0 < Qnat n - 1)%Q as Hpos.
  { rewrite <- Qnat_pred by lia. change 0%Q with (Qnat 0).
    unfold Qnat. rewrite <- Zlt_Qlt. lia. }
  assert (0 <= Qnat d)%Q as Hd0 by (change 0%Q with (Qnat 0); apply Qnat_le; lia).
  assert (Qnat d <= Qnat n - 1)%Q as Hd1
    by (rewrite <- Qnat_pred by lia; apply Qnat_le; exact Hd).
  assert (c == Qnat d / (Qnat n - 1))%Q as Hc.
  { unfold c. field. intros Hz. rewrite Hz in Hpos. exact (Qlt_irrefl _ Hpos). }
  split; [exact Hc|]. split; [|split].
  - rewrite Hc. apply Qle_shift_div_l; [exact Hpos|]. lra.
  - rewrite Hc. apply Qle_shift_div_r; [exact Hpos|]. lra.
  - intros ->. unfold c. change (Qnat 0) with 0%Q. lra.
Qed.

Lemma analyze_returns_annotated self layer max_distance_km minp mins area_field
    self' m :
  analyze_layer_connectivity self layer max_distance_km minp mins area_field
    = (self', Return m) ->
  mapM (annotate (build_network (retained_patches layer area_field minp mins)
                    (Q2R (max_distance_km * 1000))))
       (retained_patches layer area_field minp mins)
  = Return (annotated_rows (self_patches_df self')).
Proof.
  intros Hrun. apply analyze_returns in Hrun as (annotated & _ & _ & Hm & ->).
  simpl. exact (calculate_metrics_annotated _ _ _ _ Hm).
Qed.

Lemma annotated_row_centrality self layer max_distance_km minp mins area_field
    self' m G (row : AnnotatedPatch) :
  analyze_layer_connectivity self layer max_distance_km minp mins area_field
    = (self', Return m) ->
  self_network self' = Some G ->
  row ∈ annotated_rows (self_patches_df self') ->
  let n := number_of_nodes G in
  n = length (annotated_rows (self_patches_df self')) /\
  degree G (patch_id row) = Return (num_connections row) /\
  (n = 1%nat -> degree_centrality row = 1) /\
  ((1 < n)%nat ->
   (degree_centrality row == Qnat (num_connections row) / (Qnat n - 1))%Q /\
   (0 <= degree_centrality row)%Q /\ (degree_centrality row <= 1)%Q /\
   (num_connections row = 0%nat -> degree_centrality row == 0)%Q).
Proof.
  intros Hrun HG Hrow n.
  pose proof (analyze_returns_annotated _ _ _ _ _ _ _ _ Hrun) as Hann.
  destruct (analyze_returns_network _ _ _ _ _ _ _ _ _ Hrun HG) as (HGeq & Hnd & _).
  rewrite (analyze_returns_rows _ _ _ _ _ _ _ _ Hrun) in HGeq, Hnd.
  set (df := retained_patches layer area_field minp mins) in *.
  set (max_distance_m := Q2R (max_distance_km * 1000)) in *.
  rewrite <- HGeq in Hann.
  assert (n = length df) as Hn.
  { unfold n. rewrite HGeq. apply number_of_nodes_build_network. exact Hnd. }
  destruct (mapM_annotate_elem _ _ _ _ Hann Hrow) as (p & Hp & Ha).
  apply annotate_spec in Ha as (Hpatch & Hdeg & Hdc & _).
  assert (patch_id row = patch_id p) as Hid by (rewrite <- Hpatch; reflexivity).
  assert (patch_id p ∈ dom (g_node G)) as Hin.
  { destruct (build_network_spec df max_distance_m Hnd) as (_ & _ & Hdom & _).
    rewrite HGeq, Hdom. apply elem_of_list_to_set. unfold patch_ids.
    apply list_elem_of_fmap. exists p. auto. }
  rewrite (nx_degree_centrality_lookup G _ Hin) in Hdc. simpl in Hdc.
  assert (num_connections row = degree_of (nbrs G (patch_id p)) (patch_id p)) as Hnc.
  { clear -Hdeg. unfold degree in Hdeg. unfold nbrs.
    destruct (g_adj G !! patch_id p); [|discriminate].
    injection Hdeg as Hdeg. simpl. congruence. }
  split; [rewrite Hn; symmetry; exact (mapM_Return_length _ _ _ Hann)|].
  split; [rewrite Hid; exact Hdeg|]. split.
  - intros H1. fold n in Hdc. rewrite H1 in Hdc. exact Hdc.
  - intros Hgt. fold n in Hdc.
    destruct (n <=? 1)%nat eqn:Hle; [apply Nat.leb_le in Hle; lia|].
    rewrite Hdc, <- Hnc.
    rewrite HGeq in Hin.
    destruct (degree_of_build_network df max_distance_m _ Hnd Hin) as [Hsz Hbound].
    rewrite <- HGeq in Hsz, Hbound. rewrite <- Hnc in Hsz. fold n in Hbound.
    rewrite <- Hsz in Hbound.
    exact (centrality_bounds (num_connections row) n Hgt Hbound).
Qed.

(** C2, as the script behaves.  After a returning call, with [n] the number
    of nodes of the network (the number of retained patches): for every row
    [num_connections] is the degree of its node; when [n = 1] the row's
    [degree_centrality] is 1; when [n > 1] it is
    [num_connections / (n - 1)], lies in [[0, 1]], and is 0 for a node
    without edges. *)
Theorem degree_centrality_of_rows self layer max_distance_km minp mins area_field
    self' m G (row : AnnotatedPatch) :
  analyze_layer_connectivity self layer max_distance_km minp mins area_field
    = (self', Return m) ->
  self_network self' = Some G ->
  row ∈ annotated_rows (self_patches_df self') ->
  let n := number_of_nodes G in
  n = length (annotated_rows (self_patches_df self')) /\
  degree G (patch_id row) = Return (num_connections row) /\
  (n = 1%nat -> degree_centrality row = 1) /\
  ((1 < n)%nat ->
   (degree_centrality row == Qnat (num_connections row) / (Qnat n - 1))%Q /\
   (0 <= degree_centrality row)%Q /\ (degree_centrality row <= 1)%Q /\
   (num_connections row = 0%nat -> degree_centrality row == 0)%Q).
Proof.
  intros Hrun HG Hrow. exact (annotated_row_centrality _ _ _ _ _ _ _ _ _ _ Hrun HG Hrow).
Qed.

Lemma degree_centrality_of_rows_witness :
  exists self' m G (row : AnnotatedPatch),
    analyze_layer_connectivity init two_patch_layer 2 0.5 0.1 None = (self', Return m)
    /\ self_network self' = Some G
    /\ row ∈ annotated_rows (self_patches_df self')
    /\ number_of_nodes G = 2%nat
    /\ (degree_centrality row == Qnat (num_connections row) / (Qnat 2 - 1))%Q.
Proof.
  destruct (analyze_some_retained init two_patch_layer 2 0.5 0.1 None eq_refl)
    as (self' & m & Hrun).
  { vm_compute. discriminate. }
  pose proof Hrun as Hstate.
  apply analyze_returns in Hstate as (annotated & _ & _ & Hm & Hstate).
  assert (self_network self' =
          Some (build_network (retained_patches two_patch_layer None 0.5 0.1)
                  (Q2R (2 * 1000)))) as HG by (rewrite Hstate; reflexivity).
  pose proof (mapM_Return_length _ _ _ (calculate_metrics_annotated _ _ _ _ Hm)) as Hlen.
  destruct annotated as [|row annotated]; [discriminate|].
  assert (row ∈ annotated_rows (self_patches_df self')) as Hrow
    by (rewrite Hstate; left).
  destruct (degree_centrality_of_rows _ _ _ _ _ _ _ _ _ row Hrun HG Hrow)
    as (Hn & _ & _ & Hmany).
  assert (number_of_nodes
            (build_network (retained_patches two_patch_layer None 0.5 0.1)
               (Q2R (2 * 1000))) = 2%nat) as Hn2.
  { rewrite Hn, Hstate. simpl. exact Hlen. }
  eexists self', m, _, row. split; [exact Hrun|]. split; [exact HG|].
  split; [exact Hrow|]. split; [exact Hn2|].
  rewrite Hn2 in Hmany. apply Hmany. lia.
Defined.

(** With a single retained patch the graph has one node and no edge, and
    the patch's [degree_centrality] is 1, not 0. *)
Lemma single_patch_degree_centrality :
  (fun row : AnnotatedPatch => (num_connections row, degree_centrality row))
    <$> annotated_rows
          (self_patches_df
             (analyze_layer_connectivity init one_patch_layer 2 0.5 0.1 None).1)
  = [(0%nat, 1)]
  /\ (option_map number_of_nodes
        (self_network
           (analyze_layer_connectivity init one_patch_layer 2 0.5 0.1 None).1)
      = Some 1%nat)
  /\ ~ (1 == 0)%Q.
Proof.
  split; [vm_compute; reflexivity|]. split; [vm_compute; reflexivity|].
  discriminate.
Qed.

(** ** C6: the priority patches *)



Lemma gt_quantile_true (x : Q) (threshold : option Q) :
  gt_quantile x threshold = true <-> exists t, threshold = Some t /\ (t < x)%Q.
Proof.
  destruct threshold as [t|]; simpl.
  - rewrite Qgtb_true. split; [intros H; exists t; auto|].
    intros (t' & Ht & Hlt). injection Ht as <-. exact Hlt.
  - split; [discriminate | intros (t' & Ht & _); discriminate].
Qed.


(** A large unconnected patch next to two joined ones, none of them a hub:
    the layer holds that patch alone, as "Large Isolated". *)
Example large_isolated_scenario :
  (fun f => (pf_patch_id f, priority_type f))
    <$> default [] (create_priority_patches_layer isolated_frame)
  = [(patch_ 2, Large_Isolated)].
Proof. vm_compute. reflexivity. Qed.

(** ** C3: the label of a patch that meets both conditions *)




(** ** C9: a run does not depend on what the analyzer held before *)


(** ** C8: betweenness counts hops *)












(** ** Hop distance and reachability *)

Lemma elem_of_frontier_nbrs (G : Graph) (X : gset PatchId) (v : PatchId) :
  v ∈ frontier_nbrs G X <-> exists u, u ∈ X /\ v ∈ dom (nbrs G u).
Proof.
  unfold frontier_nbrs.
  apply (set_fold_ind_L
           (fun acc (X : gset PatchId) =>
              v ∈ acc <-> exists u, u ∈ X /\ v ∈ dom (nbrs G u))).
  - split; [intros H; apply elem_of_empty in H; contradiction|].
    intros (u & Hu & _). apply elem_of_empty in Hu. contradiction.
  - intros x Y acc _ IH. rewrite elem_of_union, IH. split.
    + intros [Hv|(u & Hu & Hv)].
      * exists x. split; [set_solver | exact Hv].
      * exists u. split; [set_solver | exact Hv].
    + intros (u & Hu & Hv). apply elem_of_union in Hu as [Hu|Hu].
      * apply elem_of_singleton in Hu. subst u. left. exact Hv.
      * right. exists u. auto.
Qed.









(** The built network is closed. *)
Lemma build_network_closed (df : list Patch) (max_distance_m : R) :
  NoDup (patch_ids df) -> closed (build_network df max_distance_m).
Proof.
  intros Hnd u v Hv. apply elem_of_dom in Hv as [e He].
  destruct (build_network_edge_rows df max_distance_m u v e Hnd He)
    as (i & j & ri & rj & Hi & Hj & _ & _ & -> & _).
  destruct (build_network_spec df max_distance_m Hnd) as (_ & _ & Hdom & _).
  rewrite Hdom. apply elem_of_list_to_set. apply list_elem_of_lookup.
  exists j. apply patch_ids_lookup. exact Hj.
Qed.

Lemma nx_betweenness_centrality_lookup (G : Graph) (v : PatchId) :
  v ∈ dom (g_node G) ->
  nx_betweenness_centrality G !! v = Some (betweenness_of G v).
Proof.
  intros Hv. apply elem_of_dom in Hv as [d Hd]. unfold nx_betweenness_centrality.
  rewrite map_lookup_imap, Hd. reflexivity.
Qed.


(** The middle node of the path lies on the one shortest path between the
    two ends: betweenness 1.  With the long direct edge added it lies on no
    shortest path: betweenness 0, although by length the way through it is
    the shorter one. *)
Example betweenness_path_middle :
  Qeq_bool (betweenness_of path_graph (patch_ 1)) 1 = true /\
  Qeq_bool (betweenness_of path_graph (patch_ 0)) 0 = true /\
  hop_distance path_graph (patch_ 0) (patch_ 2) = Some 2%nat.
Proof. vm_compute. auto. Qed.

Example betweenness_detour_middle :
  Qeq_bool (betweenness_of detour_graph (patch_ 1)) 0 = true /\
  hop_distance detour_graph (patch_ 0) (patch_ 2) = Some 1%nat.
Proof. vm_compute. auto. Qed.


(** ** The quantile is an order statistic *)

Lemma insert_sorted_perm (x : Q) (l : list Q) : insert_sorted x l ≡ₚ x :: l.
Proof.
  induction l as [|y l IH]; simpl; [reflexivity|].
  destruct (Qle_bool x y); [reflexivity|]. rewrite IH. apply perm_swap.
Qed.

Lemma sort_values_perm (l : list Q) : sort_values l ≡ₚ l.
Proof.
  induction l as [|x l IH]; simpl; [reflexivity|].
  rewrite insert_sorted_perm, IH. reflexivity.
Qed.

Lemma insert_sorted_Sorted (x : Q) (l : list Q) :
  Sorted Qle l -> Sorted Qle (insert_sorted x l).
Proof.
  induction l as [|y l IH]; simpl; intros Hs.
  - repeat constructor.
  - destruct (Qle_bool x y) eqn:Hxy.
    + apply Qle_bool_iff in Hxy. constructor; [exact Hs | constructor; exact Hxy].
    + assert (y <= x)%Q as Hyx.
      { apply Qlt_le_weak, Qnot_le_lt. intros H. apply Qle_bool_iff in H. congruence. }
      apply Sorted_inv in Hs as [Hs Hhd]. constructor; [apply IH; exact Hs|].
      destruct l as [|z l]; simpl; [constructor; exact Hyx|].
      destruct (Qle_bool x z); constructor; [exact Hyx|].
      apply HdRel_inv in Hhd. exact Hhd.
Qed.

Lemma sort_values_Sorted (l : list Q) : Sorted Qle (sort_values l).
Proof.
  induction l as [|x l IH]; simpl; [constructor|].
  apply insert_sorted_Sorted. exact IH.
Qed.

Lemma Qfloor_fraction (x : Q) :
  (0 <= x)%Q ->
  let gamma := (x - Qnat (Z.to_nat (Qfloor x)))%Q in
  (0 <= gamma)%Q /\ (gamma < 1)%Q.
Proof.
  intros Hx gamma.
  assert (0 <= Qfloor x)%Z as Hf.
  { change 0%Z with (Qfloor 0). apply Qfloor_resp_le. exact Hx. }
  assert (Qnat (Z.to_nat (Qfloor x)) = inject_Z (Qfloor x)) as Heq.
  { unfold Qnat. rewrite Z2Nat.id by exact Hf. reflexivity. }
  unfold gamma. rewrite Heq.
  pose proof (Qfloor_le x) as Hle. pose proof (Qlt_floor x) as Hlt.
  rewrite inject_Z_plus in Hlt. change (inject_Z 1) with 1%Q in Hlt.
  split; lra.
Qed.

Lemma lerp_bounds (a b g lo hi : Q) :
  (lo <= a)%Q -> (a <= hi)%Q -> (lo <= b)%Q -> (b <= hi)%Q ->
  (0 <= g)%Q -> (g <= 1)%Q ->
  (lo <= a + (b - a) * g)%Q /\ (a + (b - a) * g <= hi)%Q.
Proof.
  intros Ha0 Ha1 Hb0 Hb1 Hg0 Hg1.
  assert (0 <= (a - lo) * (1 - g))%Q by (apply Qmult_le_0_compat; lra).
  assert (0 <= (b - lo) * g)%Q by (apply Qmult_le_0_compat; lra).
  assert (0 <= (hi - a) * (1 - g))%Q by (apply Qmult_le_0_compat; lra).
  assert (0 <= (hi - b) * g)%Q by (apply Qmult_le_0_compat; lra).
  assert (a + (b - a) * g - lo == (a - lo) * (1 - g) + (b - lo) * g)%Q by ring.
  assert (hi - (a + (b - a) * g) == (hi - a) * (1 - g) + (hi - b) * g)%Q by ring.
  split; lra.
Qed.

(** A quantile lies between any bounds of the column. *)
Lemma quantile_bounds (column : list Q) (q t lo hi : Q) :
  (0 <= q)%Q ->
  (forall x, x ∈ column -> (lo <= x)%Q /\ (x <= hi)%Q) ->
  quantile column q = Some t ->
  (lo <= t)%Q /\ (t <= hi)%Q.
Proof.
  intros Hq Hcol. unfold quantile.
  destruct (sort_values column) as [|v0 rest] eqn:Hs; [discriminate|].
  intros Ht. injection Ht as <-.
  set (sorted := v0 :: rest) in *.
  assert (forall k, (lo <= nth k sorted v0)%Q /\ (nth k sorted v0 <= hi)%Q) as Hnth.
  { intros k. apply Hcol. rewrite <- (sort_values_perm column), Hs.
    apply list_elem_of_In.
    destruct (nth_in_or_default k sorted v0) as [Hin| ->]; [exact Hin | left; reflexivity]. }
  set (vi := (q * (Qnat (length sorted) - 1))%Q).
  assert (0 <= vi)%Q as Hvi.
  { unfold vi. apply Qmult_le_0_compat; [exact Hq|].
    assert (Qnat 1 <= Qnat (length sorted))%Q by (apply Qnat_le; simpl; lia).
    change (Qnat 1) with 1%Q in *. lra. }
  destruct (Qfloor_fraction vi Hvi) as [Hg0 Hg1].
  set (gamma := (vi - Qnat (Z.to_nat (Qfloor vi)))%Q) in *.
  destruct (Hnth (Z.to_nat (Qfloor vi))) as [Ha0 Ha1].
  destruct (Hnth (Nat.min (S (Z.to_nat (Qfloor vi))) (length sorted - 1))) as [Hb0 Hb1].
  set (a := nth (Z.to_nat (Qfloor vi)) sorted v0) in *.
  set (b := nth (Nat.min (S (Z.to_nat (Qfloor vi))) (length sorted - 1)) sorted v0) in *.
  apply (lerp_bounds a b gamma lo hi); auto. apply Qlt_le_weak. exact Hg1.
Qed.

(** ** The two priority conditions after an analysis *)

(** In the frame a returning call leaves, a patch without connections never
    meets the hub condition: the two conditions exclude each other on every
    frame the pipeline produces. *)
Lemma isolated_row_not_hub self layer max_distance_km minp mins area_field
    self' m (row : AnnotatedPatch) :
  analyze_layer_connectivity self layer max_distance_km minp mins area_field
    = (self', Return m) ->
  row ∈ annotated_rows (self_patches_df self') ->
  num_connections row = 0%nat ->
  hub_mask (annotated_rows (self_patches_df self')) row = false.
Proof.
  intros Hrun Hrow Hnc.
  pose proof Hrun as Hstate.
  apply analyze_returns in Hstate as (annotated & _ & _ & _ & Hstate).
  assert (self_network self' =
          Some (build_network (retained_patches layer area_field minp mins)
                  (Q2R (max_distance_km * 1000)))) as HG
    by (rewrite Hstate; reflexivity).
  set (df := annotated_rows (self_patches_df self')) in *.
  set (G := build_network _ _) in HG.
  assert (forall r : AnnotatedPatch, r ∈ df ->
            number_of_nodes G = length df /\
            (number_of_nodes G = 1%nat -> degree_centrality r = 1) /\
            ((1 < number_of_nodes G)%nat ->
             (0 <= degree_centrality r)%Q /\ (degree_centrality r <= 1)%Q /\
             (num_connections r = 0%nat -> degree_centrality r == 0)%Q)) as Hall.
  { intros r Hr.
    destruct (annotated_row_centrality _ _ _ _ _ _ _ _ _ _ Hrun HG Hr)
      as (Hn & _ & H1 & Hmany).
    split; [exact Hn|]. split; [exact H1|]. intros Hgt. apply Hmany in Hgt. tauto. }
  destruct (Hall row Hrow) as (Hn & H1 & Hmany).
  unfold hub_mask. apply andb_false_iff. left.
  destruct (decide (number_of_nodes G = 1%nat)) as [Hone|Hne].
  - rewrite Hone in Hn. destruct df as [|r [|r' df']] eqn:Hdf; try discriminate.
    apply list_elem_of_singleton in Hrow. subst r. simpl.
    rewrite (H1 Hone). vm_compute. reflexivity.
  - assert (1 < number_of_nodes G)%nat as Hgt.
    { destruct df; [apply elem_of_nil in Hrow; contradiction|]. simpl in Hn. lia. }
    destruct (Hmany Hgt) as (_ & _ & Hzero). specialize (Hzero Hnc).
    destruct (quantile (degree_centrality <$> df) 0.8) as [t|] eqn:Hq; [|reflexivity].
    simpl. unfold Qgtb. apply negb_false_iff, Qle_bool_iff.
    destruct (quantile_bounds (degree_centrality <$> df) 0.8 t 0 1) as [Ht _].
    + discriminate.
    + intros x Hx. apply list_elem_of_fmap in Hx as (r & -> & Hr).
      destruct (Hall r Hr) as (_ & _ & Hr'). destruct (Hr' Hgt) as (? & ? & _). auto.
    + exact Hq.
    + rewrite Hzero. exact Ht.
Qed.

(** The [betweenness_centrality] column holds networkx's value for the
    row's node. *)
Lemma betweenness_column self layer max_distance_km minp mins area_field
    self' m G (row : AnnotatedPatch) :
  analyze_layer_connectivity self layer max_distance_km minp mins area_field
    = (self', Return m) ->
  self_network self' = Some G ->
  row ∈ annotated_rows (self_patches_df self') ->
  betweenness_centrality row = betweenness_of G (patch_id row).
Proof.
  intros Hrun HG Hrow.
  pose proof (analyze_returns_annotated _ _ _ _ _ _ _ _ Hrun) as Hann.
  destruct (analyze_returns_network _ _ _ _ _ _ _ _ _ Hrun HG) as (HGeq & Hnd & _).
  rewrite (analyze_returns_rows _ _ _ _ _ _ _ _ Hrun) in HGeq, Hnd.
  rewrite <- HGeq in Hann.
  destruct (mapM_annotate_elem _ _ _ _ Hann Hrow) as (p & Hp & Ha).
  apply annotate_spec in Ha as (Hpatch & _ & _ & Hb).
  assert (patch_id row = patch_id p) as Hid by (rewrite <- Hpatch; reflexivity).
  rewrite Hb, Hid, nx_betweenness_centrality_lookup; [reflexivity|].
  destruct (build_network_spec _ (Q2R (max_distance_km * 1000)) Hnd)
    as (_ & _ & Hdom & _).
  rewrite HGeq, Hdom. apply elem_of_list_to_set. unfold patch_ids.
  apply list_elem_of_fmap. exists p. auto.
Qed.

(** * Further properties of the pipeline *)

(** ** The nodes of the network *)

Lemma calculate_metrics_fields (G : Graph) (df : list Patch) (m : Metrics)
    (annotated : list AnnotatedPatch) :
  calculate_metrics G df = Return (m, annotated) ->
  total_patches m = number_of_nodes G /\
  total_connections m = number_of_edges G /\
  network_density m = density G /\
  count_node_type primary G = Return (primary_nodes m) /\
  count_node_type secondary G = Return (secondary_nodes m) /\
  num_components m = length (connected_components G) /\
  largest_component_size m = foldr Nat.max 0%nat (size <$> connected_components G) /\
  isolated_patches m
  = length (List.filter (fun c => (size c =? 1)%nat) (connected_components G)) /\
  avg_connections_per_patch m = np_mean (num_connections <$> annotated) /\
  np_max (num_connections <$> annotated) = Return (max_connections m) /\
  total_area_ha m = Qsum (area_column annotated).
Proof.
  unfold calculate_metrics.
  destruct (count_node_type primary G) as [n1|]; simpl; [|discriminate].
  destruct (count_node_type secondary G) as [n2|]; simpl; [|discriminate].
  destruct (mapM (annotate G) df) as [l|]; simpl; [|discriminate].
  destruct (np_max _) as [nmax|] eqn:Hmax; simpl; [|discriminate].
  intros H. injection H as <- <-. simpl. rewrite Hmax. repeat split; reflexivity.
Qed.

Lemma add_nodes_lookup (df : list Patch) : forall (G : Graph) (row : Patch),
  NoDup (patch_ids df) -> row ∈ df ->
  g_node (add_nodes df G) !! patch_id row = Some (Some (node_data_of row)).
Proof.
  unfold add_nodes.
  induction df as [|r df IH]; intros G row Hnd Hrow; simpl.
  - apply elem_of_nil in Hrow. contradiction.
  - simpl in Hnd. apply NoDup_cons in Hnd as [Hr Hnd].
    apply elem_of_cons in Hrow as [->|Hrow]; [|apply IH; assumption].
    assert (forall (l : list Patch) (G' : Graph),
              patch_id r ∉ patch_ids l ->
              g_node (foldl (fun G (row : Patch) =>
                               add_node (patch_id row) (node_data_of row) G) G' l)
                !! patch_id r = g_node G' !! patch_id r) as Hkeep.
    { clear. induction l as [|q l IHl]; intros G' Hq; simpl; [reflexivity|].
      simpl in Hq. apply not_elem_of_cons in Hq as [Hne Hq].
      rewrite IHl by exact Hq. unfold add_node.
      destruct (g_node G' !! patch_id q); simpl;
        rewrite lookup_insert_ne by congruence; reflexivity. }
    rewrite Hkeep by exact Hr. unfold add_node.
    destruct (g_node G !! patch_id r); simpl; apply lookup_insert_eq.
Qed.

Lemma build_network_g_node (df : list Patch) (max_distance_m : R) :
  NoDup (patch_ids df) ->
  g_node (build_network df max_distance_m) = g_node (add_nodes df empty_graph).
Proof.
  intros Hnd. unfold build_network.
  destruct (add_nodes_spec df empty_graph) as (Hwf & Hall & Hdom & Hnb).
  { exact graph_wf_empty. }
  { intros n d Hn. simpl in Hn. rewrite lookup_empty in Hn. discriminate. }
  simpl in Hdom. rewrite dom_empty_L, (left_id_L ∅ (∪)) in Hdom.
  destruct (add_connections_fold df max_distance_m (index_pairs (length df)) []
              (add_nodes df empty_graph)) as (_ & Hnode & _ & _); auto.
  - intros i j Hij. apply elem_of_index_pairs in Hij. lia.
  - intros row Hrow. rewrite Hdom. apply elem_of_list_to_set.
    unfold patch_ids. apply list_elem_of_fmap. exists row. auto.
  - intros a b e. rewrite Hnb. unfold nbrs. simpl. rewrite lookup_empty. simpl.
    rewrite lookup_empty. discriminate.
  - intros i j a b e Hin. apply elem_of_nil in Hin. contradiction.
Qed.

Lemma build_network_node (df : list Patch) (max_distance_m : R) (row : Patch) :
  NoDup (patch_ids df) -> row ∈ df ->
  g_node (build_network df max_distance_m) !! patch_id row
  = Some (Some (node_data_of row)).
Proof.
  intros Hnd Hrow. rewrite build_network_g_node by exact Hnd.
  apply add_nodes_lookup; assumption.
Qed.

Lemma build_network_node_inv (df : list Patch) (max_distance_m : R) (n : PatchId) :
  NoDup (patch_ids df) ->
  n ∈ dom (g_node (build_network df max_distance_m)) ->
  exists row : Patch, row ∈ df /\ patch_id row = n.
Proof.
  intros Hnd Hn.
  destruct (build_network_spec df max_distance_m Hnd) as (_ & _ & Hdom & _).
  rewrite Hdom in Hn. apply elem_of_list_to_set in Hn. unfold patch_ids in Hn.
  apply list_elem_of_fmap in Hn as (row & -> & Hrow). exists row. auto.
Qed.

(** X1.  After a returning call the network has exactly the retained patches
    as nodes: every row of [patches_df] is a node carrying the row's
    [area_ha], [node_type], [fid] and centroid, every node is the patch of
    some row, and the number of nodes, the metric [total_patches] and the
    number of rows agree. *)
Theorem network_nodes_are_the_patches self layer max_distance_km minp mins
    area_field self' m G :
  analyze_layer_connectivity self layer max_distance_km minp mins area_field
    = (self', Return m) ->
  self_network self' = Some G ->
  let df := frame_rows (self_patches_df self') in
  (forall row : Patch, row ∈ df ->
     g_node G !! patch_id row =
     Some (Some {| nd_area_ha := area_ha row; nd_node_type := node_type row;
                   nd_fid := fid row;
                   nd_centroid := (centroid_x row, centroid_y row) |})) /\
  (forall n, n ∈ dom (g_node G) -> exists row : Patch, row ∈ df /\ patch_id row = n) /\
  number_of_nodes G = length df /\
  total_patches m = length df.
Proof.
  intros Hrun HG df.
  destruct (analyze_returns_network _ _ _ _ _ _ _ _ _ Hrun HG) as (-> & Hnd & _).
  fold df in Hnd. fold df.
  split; [intros row Hrow; apply (build_network_node df _ row Hnd Hrow)|].
  split; [intros n Hn; apply (build_network_node_inv df _ n Hnd Hn)|].
  pose proof (number_of_nodes_build_network df (Q2R (max_distance_km * 1000)) Hnd)
    as Hn.
  split; [exact Hn|].
  pose proof Hrun as Hstate.
  apply analyze_returns in Hstate as (annotated & _ & _ & Hm & _).
  apply calculate_metrics_fields in Hm as (Htotal & _).
  rewrite Htotal. unfold df. rewrite (analyze_returns_rows _ _ _ _ _ _ _ _ Hrun).
  apply number_of_nodes_build_network. apply retained_patches_NoDup.
Qed.

Lemma network_nodes_are_the_patches_witness :
  exists self' m G,
    analyze_layer_connectivity init two_patch_layer 2 0.5 0.1 None = (self', Return m)
    /\ self_network self' = Some G
    /\ number_of_nodes G = 2%nat /\ total_patches m = 2%nat
    /\ g_node G !! patch_ 1 = Some (Some (node_data_of east_patch)).
Proof.
  destruct (analyze_some_retained init two_patch_layer 2 0.5 0.1 None eq_refl)
    as (self' & m & Hrun).
  { vm_compute. discriminate. }
  pose proof Hrun as Hstate.
  apply analyze_returns in Hstate as (annotated & _ & _ & _ & Hstate).
  assert (self_network self' =
          Some (build_network (retained_patches two_patch_layer None 0.5 0.1)
                  (Q2R (2 * 1000)))) as HG by (rewrite Hstate; reflexivity).
  destruct (network_nodes_are_the_patches _ _ _ _ _ _ _ _ _ Hrun HG)
    as (Hnode & _ & Hn & Htotal).
  rewrite (analyze_returns_rows _ _ _ _ _ _ _ _ Hrun) in Hnode, Hn, Htotal.
  eexists self', m, _. split; [exact Hrun|]. split; [exact HG|].
  split; [exact Hn|]. split; [exact Htotal|].
  apply (Hnode east_patch). right. left.
Defined.

(** ** Counting the edges *)

Lemma degree_sum_replace (adj : gmap PatchId (gmap PatchId EdgeData))
    (u : PatchId) (nb nb' : gmap PatchId EdgeData) :
  adj !! u = Some nb ->
  (map_fold (fun n nb acc => acc + degree_of nb n) 0 (<[u := nb']> adj)
   + degree_of nb u
   = map_fold (fun n nb acc => acc + degree_of nb n) 0 adj + degree_of nb' u)%nat.
Proof.
  intros Hu.
  assert (forall m : gmap PatchId (gmap PatchId EdgeData),
            forall j1 j2 z1 z2 (y : nat),
              j1 <> j2 -> m !! j1 = Some z1 -> m !! j2 = Some z2 ->
              (y + degree_of z2 j2 + degree_of z1 j1
               = y + degree_of z1 j1 + degree_of z2 j2)%nat) as Hcomm
    by (intros; lia).
  rewrite (map_fold_delete_L _ _ u nb adj (Hcomm adj) Hu).
  rewrite (map_fold_delete_L _ _ u nb' (<[u := nb']> adj) (Hcomm _)
             (lookup_insert_eq adj u nb')).
  rewrite delete_insert_eq. lia.
Qed.

Lemma degree_of_insert (nb : gmap PatchId EdgeData) (u v : PatchId) (d : EdgeData) :
  u <> v -> nb !! v = None ->
  degree_of (<[v := d]> nb) u = S (degree_of nb u).
Proof.
  intros Hne Hv. unfold degree_of.
  rewrite map_size_insert_None by exact Hv.
  rewrite lookup_insert_ne by congruence. lia.
Qed.

(** A new edge between two different nodes adds two to the sum of the
    degrees. *)
Lemma degree_sum_add_edge (G : Graph) (u v : PatchId) (d : EdgeData) :
  graph_wf G -> u ∈ dom (g_node G) -> v ∈ dom (g_node G) -> u <> v ->
  nbrs G u !! v = None -> nbrs G v !! u = None ->
  degree_sum (add_edge u v d G) = (degree_sum G + 2)%nat.
Proof.
  intros Hwf Hu Hv Hne Huv Hvu. unfold add_edge.
  rewrite (ensure_node_id u G Hu), (ensure_node_id v G Hv).
  unfold degree_sum, set_adj. simpl.
  assert (exists nbu, g_adj G !! u = Some nbu) as [nbu Hnbu]
    by (apply elem_of_dom; rewrite Hwf; exact Hu).
  assert (exists nbv, g_adj G !! v = Some nbv) as [nbv Hnbv]
    by (apply elem_of_dom; rewrite Hwf; exact Hv).
  assert (nbrs G u = nbu) as Eu by (unfold nbrs; rewrite Hnbu; reflexivity).
  rewrite Eu in *.
  assert (nbrs {| g_node := g_node G; g_adj := <[u := <[v := d]> nbu]> (g_adj G) |} v
          = nbv) as Ev.
  { unfold nbrs. simpl. rewrite lookup_insert_ne by exact Hne. rewrite Hnbv.
    reflexivity. }
  rewrite Ev.
  assert (nbrs G v = nbv) as Ev' by (unfold nbrs; rewrite Hnbv; reflexivity).
  rewrite Ev' in Hvu.
  pose proof (degree_sum_replace (g_adj G) u nbu (<[v := d]> nbu) Hnbu) as H1.
  assert ((<[u := <[v := d]> nbu]> (g_adj G)) !! v = Some nbv) as Hnbv'
    by (rewrite lookup_insert_ne by exact Hne; exact Hnbv).
  pose proof (degree_sum_replace _ v nbv (<[u := d]> nbv) Hnbv') as H2.
  rewrite (degree_of_insert nbu u v d Hne Huv) in H1.
  rewrite (degree_of_insert nbv v u d (not_eq_sym Hne) Hvu) in H2.
  lia.
Qed.

Lemma NoDup_index_pairs (n : nat) : NoDup (index_pairs n).
Proof.
  unfold index_pairs. apply NoDup_bind.
  - intros i1 i2 [a b] _ _ H1 H2.
    apply list_elem_of_fmap in H1 as (j1 & E1 & _).
    apply list_elem_of_fmap in H2 as (j2 & E2 & _). congruence.
  - intros i _. apply NoDup_fmap_2; [intros a b; congruence | apply NoDup_seq].
  - apply NoDup_seq.
Qed.

Lemma link_swap df max_distance_m i j a b e :
  link df max_distance_m i j a b e -> link df max_distance_m i j b a e.
Proof.
  intros (ri & rj & Hi & Hj & Hlt & Hw & Hab & He).
  exists ri, rj. repeat split; auto; try apply Hw. tauto.
Qed.

Lemma count_snoc {A} (f : A -> bool) (l : list A) (x : A) :
  length (List.filter f (l ++ [x]))
  = (length (List.filter f l) + (if f x then 1 else 0))%nat.
Proof.
  rewrite List.filter_app, length_app. simpl. destruct (f x); reflexivity.
Qed.

Lemma add_connection_count df max_distance_m processed G i j :
  NoDup (patch_ids df) -> (i < j)%nat -> (i, j) ∉ processed ->
  graph_wf G -> covers df G ->
  exact df max_distance_m processed G ->
  degree_sum G
  = (2 * length (List.filter (connection_test df max_distance_m) processed))%nat ->
  let G' := add_connection df max_distance_m G (i, j) in
  graph_wf G' /\ g_node G' = g_node G /\
  exact df max_distance_m (processed ++ [(i, j)]) G' /\
  degree_sum G'
  = (2 * length (List.filter (connection_test df max_distance_m)
                   (processed ++ [(i, j)])))%nat.
Proof.
  intros Hnd Hlt Hnew Hwf Hcov Hexact Hsum. rewrite count_snoc.
  unfold add_connection, connection_test. simpl.
  assert (forall a b e,
            link df max_distance_m i j a b e ->
            exists row_i row_j : Patch,
              df !! i = Some row_i /\ df !! j = Some row_j /\
              connection_test df max_distance_m (i, j) = true) as Hlink_test.
  { intros a b e (ri & rj & Hi & Hj & _ & Hw & _). exists ri, rj.
    split; [exact Hi|]. split; [exact Hj|]. apply within_test. exact Hw. }
  assert (forall G0,
            nbrs G0 = nbrs G ->
            (forall a b e, ~ link df max_distance_m i j a b e) ->
            exact df max_distance_m (processed ++ [(i, j)]) G0) as Hsame.
  { intros G0 HG0 Hno a b e. rewrite HG0, (Hexact a b e). split.
    - intros (i' & j' & Hin & Hl). exists i', j'. split; [|exact Hl].
      apply elem_of_app. left. exact Hin.
    - intros (i' & j' & Hin & Hl). apply elem_of_app in Hin as [Hin|Hin].
      + exists i', j'. auto.
      + apply list_elem_of_singleton in Hin. injection Hin as -> ->.
        exfalso. exact (Hno a b e Hl). }
  destruct (df !! i) as [row_i|] eqn:Hi; [destruct (df !! j) as [row_j|] eqn:Hj|].
  - destruct (_ && _) eqn:Htest.
    + pose proof (proj1 (within_test df max_distance_m i j) Htest) as Hw.
      set (e0 := connection_data (area_ha row_i) (area_ha row_j)
                   (cdist (coords_of df) i j)) in *.
      assert (link df max_distance_m i j (patch_id row_i) (patch_id row_j) e0)
        as Hlink.
      { exists row_i, row_j. repeat split; auto; apply Hw. }
      assert (patch_id row_i ∈ dom (g_node G)) as Hin_i
        by (apply Hcov; eapply list_elem_of_lookup_2; eauto).
      assert (patch_id row_j ∈ dom (g_node G)) as Hin_j
        by (apply Hcov; eapply list_elem_of_lookup_2; eauto).
      assert (patch_id row_i <> patch_id row_j) as Hids.
      { intros Heq. pose proof (patch_ids_lookup _ _ _ Hi) as Ki.
        pose proof (patch_ids_lookup _ _ _ Hj) as Kj. rewrite Heq in Ki.
        pose proof (NoDup_lookup _ _ _ _ Hnd Ki Kj). lia. }
      assert (forall a b,
                link df max_distance_m i j a b e0 -> nbrs G a !! b = None) as Hfresh.
      { intros a b Hl. destruct (nbrs G a !! b) as [e|] eqn:He; [|reflexivity].
        apply Hexact in He as (i' & j' & Hin & Hl').
        destruct (link_unique _ _ _ _ _ _ _ _ _ _ Hnd Hl Hl') as (-> & -> & _).
        contradiction. }
      split; [apply graph_wf_add_edge; exact Hwf|].
      split; [apply g_node_add_edge; assumption|]. split.
      * intros a b e. rewrite lookup_add_edge by exact Hwf.
        case_decide as Hab.
        -- split.
           ++ intros He. injection He as <-. exists i, j.
              split; [apply elem_of_app; right; left|].
              destruct Hab as [[-> ->]|[-> ->]];
                [exact Hlink | apply link_swap; exact Hlink].
           ++ intros (i' & j' & _ & Hl). f_equal.
              assert (link df max_distance_m i j a b e0) as Hl0.
              { destruct Hab as [[-> ->]|[-> ->]];
                  [exact Hlink | apply link_swap; exact Hlink]. }
              destruct (link_unique _ _ _ _ _ _ _ _ _ _ Hnd Hl0 Hl) as (_ & _ & ->).
              reflexivity.
        -- rewrite (Hexact a b e). split.
           ++ intros (i' & j' & Hin & Hl). exists i', j'. split; [|exact Hl].
              apply elem_of_app. left. exact Hin.
           ++ intros (i' & j' & Hin & Hl). apply elem_of_app in Hin as [Hin|Hin].
              ** exists i', j'. auto.
              ** apply list_elem_of_singleton in Hin. injection Hin as -> ->.
                 exfalso. apply Hab.
                 destruct Hl as (ri & rj & Hi' & Hj' & _ & _ & Hends & _).
                 rewrite Hi in Hi'. rewrite Hj in Hj'.
                 injection Hi' as <-. injection Hj' as <-. exact Hends.
      * rewrite degree_sum_add_edge; auto.
        -- rewrite Hsum. unfold connection_test. simpl. lia.
        -- apply Hfresh. apply link_swap. exact Hlink.
    + split; [exact Hwf|]. split; [reflexivity|]. split.
      * apply Hsame; [reflexivity|]. intros a b e Hl.
        destruct (Hlink_test a b e Hl) as (_ & _ & _ & _ & Ht).
        unfold connection_test in Ht. simpl in Ht. congruence.
      * rewrite Hsum. unfold connection_test. simpl. lia.
  - assert (forall a b e, ~ link df max_distance_m i j a b e) as Hno.
    { intros a b e (? & ? & _ & Hj' & _). congruence. }
    split; [exact Hwf|]. split; [reflexivity|]. split; [apply Hsame; auto|].
    destruct (_ && _) eqn:Htest; [|rewrite Hsum; unfold connection_test; simpl; lia].
    exfalso. apply within_test in Htest. unfold within, cdist, coords_of in Htest.
    rewrite !list_lookup_fmap, Hi, Hj in Htest. simpl in Htest. lra.
  - assert (forall a b e, ~ link df max_distance_m i j a b e) as Hno.
    { intros a b e (? & ? & Hi' & _). congruence. }
    split; [exact Hwf|]. split; [reflexivity|]. split; [apply Hsame; auto|].
    destruct (_ && _) eqn:Htest; [|rewrite Hsum; unfold connection_test; simpl; lia].
    exfalso. apply within_test in Htest. unfold within, cdist, coords_of in Htest.
    rewrite !list_lookup_fmap, Hi in Htest. simpl in Htest. lra.
Qed.

Lemma add_connections_count df max_distance_m pairs : forall processed G,
  NoDup (patch_ids df) -> NoDup (processed ++ pairs) ->
  (forall i j, (i, j) ∈ pairs -> (i < j)%nat) ->
  graph_wf G -> covers df G ->
  exact df max_distance_m processed G ->
  degree_sum G
  = (2 * length (List.filter (connection_test df max_distance_m) processed))%nat ->
  let G' := foldl (add_connection df max_distance_m) G pairs in
  exact df max_distance_m (processed ++ pairs) G' /\
  degree_sum G'
  = (2 * length (List.filter (connection_test df max_distance_m)
                   (processed ++ pairs)))%nat.
Proof.
  induction pairs as [|[i j] pairs IH];
    intros processed G Hnd Hdup Hlt Hwf Hcov Hexact Hsum; simpl.
  - rewrite app_nil_r. auto.
  - assert ((i, j) ∉ processed) as Hnew.
    { apply NoDup_app in Hdup as (_ & Hdisj & _). intros Hin.
      apply (Hdisj _ Hin). left. }
    destruct (add_connection_count df max_distance_m processed G i j)
      as (Hwf' & Hnode & Hexact' & Hsum'); auto.
    { apply Hlt. left. }
    destruct (IH (processed ++ [(i, j)]) (add_connection df max_distance_m G (i, j)))
      as (Hexact'' & Hsum''); auto.
    { rewrite <- app_assoc. exact Hdup. }
    { intros i' j' Hin. apply Hlt. right. exact Hin. }
    { intros row Hrow. rewrite Hnode. apply Hcov. exact Hrow. }
    rewrite <- app_assoc in Hexact'', Hsum''. auto.
Qed.

Lemma degree_sum_list (G : Graph) :
  degree_sum G
  = sum_nat ((fun p : PatchId * gmap PatchId EdgeData => degree_of p.2 p.1)
               <$> map_to_list (g_adj G)).
Proof.
  unfold degree_sum. rewrite map_fold_foldr.
  induction (map_to_list (g_adj G)) as [|[n nb] l IH]; [reflexivity|].
  change (foldr (uncurry (fun n nb acc => acc + degree_of nb n)%nat) 0%nat l
          + degree_of nb n
          = degree_of nb n
            + sum_nat ((fun p : PatchId * gmap PatchId EdgeData =>
                          degree_of p.2 p.1) <$> l))%nat.
  rewrite IH. lia.
Qed.

Lemma sum_nat_perm (l1 l2 : list nat) : l1 ≡ₚ l2 -> sum_nat l1 = sum_nat l2.
Proof.
  induction 1 as [|x l1 l2 _ IH|x y l|l1 l2 l3 _ IH1 _ IH2]; simpl; lia.
Qed.

Lemma degree_sum_no_edges (G : Graph) :
  (forall a, nbrs G a = ∅) -> degree_sum G = 0%nat.
Proof.
  intros Hempty. rewrite degree_sum_list.
  assert (forall p, p ∈ map_to_list (g_adj G) -> degree_of p.2 p.1 = 0%nat) as Hzero.
  { intros [n nb] Hp. apply elem_of_map_to_list in Hp. simpl.
    specialize (Hempty n). unfold nbrs in Hempty. rewrite Hp in Hempty.
    simpl in Hempty. subst nb. reflexivity. }
  induction (map_to_list (g_adj G)) as [|p l IH]; simpl; [reflexivity|].
  rewrite (Hzero p) by left. apply IH. intros q Hq. apply Hzero. right. exact Hq.
Qed.

(** The edges of the built network are the pairs that pass the test, each
    counted once. *)
Lemma build_network_edge_count (df : list Patch) (max_distance_m : R) :
  NoDup (patch_ids df) ->
  degree_sum (build_network df max_distance_m)
  = (2 * connections_added df max_distance_m)%nat /\
  number_of_edges (build_network df max_distance_m)
  = connections_added df max_distance_m.
Proof.
  intros Hnd.
  destruct (add_nodes_spec df empty_graph) as (Hwf & Hall & Hdom & Hnb).
  { exact graph_wf_empty. }
  { intros n d Hn. simpl in Hn. rewrite lookup_empty in Hn. discriminate. }
  simpl in Hdom. rewrite dom_empty_L, (left_id_L ∅ (∪)) in Hdom.
  assert (forall a, nbrs (add_nodes df empty_graph) a = ∅) as Hempty.
  { intros a. rewrite Hnb. unfold nbrs. simpl. rewrite lookup_empty. reflexivity. }
  destruct (add_connections_count df max_distance_m (index_pairs (length df)) []
              (add_nodes df empty_graph)) as (_ & Hsum); auto.
  - simpl. apply NoDup_index_pairs.
  - intros i j Hij. apply elem_of_index_pairs in Hij. lia.
  - intros row Hrow. rewrite Hdom. apply elem_of_list_to_set.
    unfold patch_ids. apply list_elem_of_fmap. exists row. auto.
  - intros a b e. rewrite Hempty, lookup_empty. split; [discriminate|].
    intros (i & j & Hin & _). apply elem_of_nil in Hin. contradiction.
  - simpl. apply degree_sum_no_edges. exact Hempty.
  - assert (degree_sum (build_network df max_distance_m)
            = (2 * connections_added df max_distance_m)%nat) as Hs by exact Hsum.
    split; [exact Hs|]. unfold number_of_edges. rewrite Hs.
    rewrite Nat.mul_comm. apply Nat.div_mul. discriminate.
Qed.

(** The adjacency dictionary has one entry per row. *)
Lemma build_network_adj_rows (df : list Patch) (max_distance_m : R) :
  NoDup (patch_ids df) ->
  let G := build_network df max_distance_m in
  map_to_list (g_adj G)
  ≡ₚ (fun row : Patch => (patch_id row, nbrs G (patch_id row))) <$> df.
Proof.
  intros Hnd G.
  destruct (build_network_spec df max_distance_m Hnd) as (Hwf & _ & Hdom & _).
  fold G in Hwf, Hdom.
  set (L := (fun row : Patch => (patch_id row, nbrs G (patch_id row))) <$> df).
  assert (L.*1 = patch_ids df) as Hfst.
  { unfold L, patch_ids. rewrite <- list_fmap_compose. reflexivity. }
  assert (g_adj G = list_to_map L) as ->.
  { apply map_eq. intros k. destruct (decide (k ∈ patch_ids df)) as [Hk|Hk].
    - assert (k ∈ dom (g_adj G)) as Hk'
        by (rewrite Hwf, Hdom; apply elem_of_list_to_set; exact Hk).
      apply elem_of_dom in Hk' as [nb Hnb]. rewrite Hnb. symmetry.
      apply elem_of_list_to_map; [rewrite Hfst; exact Hnd|].
      unfold patch_ids in Hk. apply list_elem_of_fmap in Hk as (row & -> & Hrow).
      unfold L. apply list_elem_of_fmap. exists row. split; [|exact Hrow].
      unfold nbrs. rewrite Hnb. reflexivity.
    - rewrite (not_elem_of_list_to_map_1 L k) by (rewrite Hfst; exact Hk).
      apply not_elem_of_dom. rewrite Hwf, Hdom. rewrite elem_of_list_to_set.
      exact Hk. }
  apply map_to_list_to_map. rewrite Hfst. exact Hnd.
Qed.

Lemma build_network_degree_rows (df : list Patch) (max_distance_m : R) :
  NoDup (patch_ids df) ->
  let G := build_network df max_distance_m in
  sum_nat ((fun row : Patch => degree_of (nbrs G (patch_id row)) (patch_id row))
             <$> df)
  = degree_sum G.
Proof.
  intros Hnd G. rewrite degree_sum_list.
  rewrite (sum_nat_perm _ _
             (fmap_Permutation _ _ _ (build_network_adj_rows df max_distance_m Hnd))).
  fold G. rewrite <- list_fmap_compose. reflexivity.
Qed.

Lemma annotate_num_connections (G : Graph) (row : Patch) (a : AnnotatedPatch) :
  annotate G row = Return a ->
  num_connections a = degree_of (nbrs G (patch_id row)) (patch_id row).
Proof.
  intros Ha. apply annotate_spec in Ha as (_ & Hdeg & _).
  unfold degree in Hdeg. unfold nbrs.
  destruct (g_adj G !! patch_id row); [|discriminate].
  injection Hdeg as Hdeg. simpl. congruence.
Qed.

Lemma mapM_annotate_num_connections (G : Graph) (df : list Patch)
    (l : list AnnotatedPatch) :
  mapM (annotate G) df = Return l ->
  num_connections <$> l
  = (fun row : Patch => degree_of (nbrs G (patch_id row)) (patch_id row)) <$> df.
Proof.
  intros H. apply mapM_Return_Forall2 in H.
  induction H as [|row a df l Ha _ IH]; simpl; [reflexivity|].
  f_equal; [exact (annotate_num_connections _ _ _ Ha) | exact IH].
Qed.

Lemma connections_sum self layer max_distance_km minp mins area_field
    self' m :
  analyze_layer_connectivity self layer max_distance_km minp mins area_field
    = (self', Return m) ->
  total_connections m
  = connections_added (frame_rows (self_patches_df self'))
      (Q2R (max_distance_km * 1000)) /\
  sum_nat (num_connections <$> annotated_rows (self_patches_df self'))
  = (2 * total_connections m)%nat /\
  avg_connections_per_patch m
  = Some (Qnat (2 * total_connections m) / Qnat (total_patches m)).
Proof.
  intros Hrun.
  pose proof (analyze_returns_annotated _ _ _ _ _ _ _ _ Hrun) as Hann.
  rewrite (analyze_returns_rows _ _ _ _ _ _ _ _ Hrun).
  pose proof Hrun as Hstate.
  apply analyze_returns in Hstate as (annotated & _ & Hne & Hm & ->). simpl in *.
  pose proof (retained_patches_NoDup layer area_field minp mins) as Hnd.
  set (df := retained_patches layer area_field minp mins) in *.
  set (G := build_network df (Q2R (max_distance_km * 1000))) in *.
  destruct (build_network_edge_count df (Q2R (max_distance_km * 1000)) Hnd)
    as [Hsum Hedges].
  fold G in Hsum, Hedges.
  apply calculate_metrics_fields
    in Hm as (Htotal & Hconn & _ & _ & _ & _ & _ & _ & Havg & _).
  assert (sum_nat (num_connections <$> annotated) = (2 * total_connections m)%nat)
    as Hdegrees.
  { rewrite (mapM_annotate_num_connections _ _ _ Hann).
    pose proof (build_network_degree_rows df (Q2R (max_distance_km * 1000)) Hnd)
      as Hrows.
    cbv zeta in Hrows. fold G in Hrows. rewrite Hrows, Hsum, Hconn, Hedges.
    reflexivity. }
  split; [rewrite Hconn; exact Hedges|]. split; [exact Hdegrees|].
  rewrite Havg. unfold np_mean.
  pose proof (mapM_Return_length _ _ _ Hann) as Hlen.
  destruct annotated as [|a annotated].
  { destruct df; [contradiction | discriminate]. }
  cbv zeta. rewrite Hdegrees, length_fmap, Hlen, Htotal.
  unfold G. rewrite number_of_nodes_build_network by exact Hnd. reflexivity.
Qed.

(** X2.  After a returning call [total_connections] is the number of pairs
    of rows [i < j] of [patches_df] that pass the distance test, the value
    of the counter [connections_added]: no edge is stored twice or
    overwritten.  The [num_connections] of all rows add up to twice that
    number, and [avg_connections_per_patch] is
    [2 * total_connections / total_patches]. *)
Theorem connections_counted_once self layer max_distance_km minp mins area_field
    self' m :
  analyze_layer_connectivity self layer max_distance_km minp mins area_field
    = (self', Return m) ->
  total_connections m
  = connections_added (frame_rows (self_patches_df self'))
      (Q2R (max_distance_km * 1000)) /\
  sum_nat (num_connections <$> annotated_rows (self_patches_df self'))
  = (2 * total_connections m)%nat /\
  avg_connections_per_patch m
  = Some (Qnat (2 * total_connections m) / Qnat (total_patches m)).
Proof.
  intros Hrun. exact (connections_sum _ _ _ _ _ _ _ _ Hrun).
Qed.

Lemma connections_counted_once_witness :
  exists self' m,
    analyze_layer_connectivity init two_patch_layer 2 0.5 0.1 None = (self', Return m)
    /\ sum_nat (num_connections <$> annotated_rows (self_patches_df self'))
       = (2 * total_connections m)%nat.
Proof.
  destruct (analyze_some_retained init two_patch_layer 2 0.5 0.1 None eq_refl)
    as (self' & m & Hrun).
  { vm_compute. discriminate. }
  exists self', m. split; [exact Hrun|].
  apply (connections_counted_once _ _ _ _ _ _ _ _ Hrun).
Defined.

(** X3.  The network a returning call leaves is undirected and has no self
    loop: the edge from [a] to [b] and the edge from [b] to [a] exist
    together and carry the same [distance_m], [distance_km] and [weight]. *)
Theorem network_undirected self layer max_distance_km minp mins area_field
    self' m G (a b : PatchId) :
  analyze_layer_connectivity self layer max_distance_km minp mins area_field
    = (self', Return m) ->
  self_network self' = Some G ->
  edge_data G a b = edge_data G b a /\
  has_edge G a b = has_edge G b a /\
  edge_data G a a = None.
Proof.
  intros Hrun HG.
  destruct (analyze_returns_network _ _ _ _ _ _ _ _ _ Hrun HG) as (-> & Hnd & _).
  set (df := frame_rows (self_patches_df self')) in *.
  set (max_distance_m := Q2R (max_distance_km * 1000)).
  destruct (build_network_spec df max_distance_m Hnd) as (_ & _ & _ & Hedges).
  assert (forall x y, edge_data (build_network df max_distance_m) x y
                      = edge_data (build_network df max_distance_m) y x) as Hsym.
  { intros x y. unfold edge_data.
    destruct (nbrs (build_network df max_distance_m) x !! y) as [e|] eqn:Hxy.
    - symmetry. apply Hedges. apply Hedges in Hxy as (i & j & Hl).
      exists i, j. apply link_swap. exact Hl.
    - destruct (nbrs (build_network df max_distance_m) y !! x) as [e|] eqn:Hyx;
        [|reflexivity].
      apply Hedges in Hyx as (i & j & Hl).
      assert (nbrs (build_network df max_distance_m) x !! y = Some e) as Hxy'
        by (apply Hedges; exists i, j; apply link_swap; exact Hl).
      congruence. }
  split; [apply Hsym|]. split.
  - unfold has_edge. fold (edge_data (build_network df max_distance_m) a b).
    fold (edge_data (build_network df max_distance_m) b a). rewrite Hsym.
    reflexivity.
  - destruct (edge_data (build_network df max_distance_m) a a) as [e|] eqn:He;
      [|reflexivity].
    destruct (build_network_edge_rows df max_distance_m a a e Hnd He)
      as (_ & _ & _ & _ & _ & _ & _ & _ & _ & Hne). contradiction.
Qed.

Lemma network_undirected_witness :
  exists self' m G,
    analyze_layer_connectivity init two_patch_layer 2 0.5 0.1 None = (self', Return m)
    /\ self_network self' = Some G
    /\ edge_data G (patch_ 0) (patch_ 1) = edge_data G (patch_ 1) (patch_ 0).
Proof.
  destruct (analyze_some_retained init two_patch_layer 2 0.5 0.1 None eq_refl)
    as (self' & m & Hrun).
  { vm_compute. discriminate. }
  pose proof Hrun as Hstate.
  apply analyze_returns in Hstate as (annotated & _ & _ & _ & Hstate).
  assert (self_network self' =
          Some (build_network (retained_patches two_patch_layer None 0.5 0.1)
                  (Q2R (2 * 1000)))) as HG by (rewrite Hstate; reflexivity).
  eexists self', m, _. split; [exact Hrun|]. split; [exact HG|].
  apply (network_undirected _ _ _ _ _ _ _ _ _ (patch_ 0) (patch_ 1) Hrun HG).
Defined.

(** ** Density *)

Lemma Qnat_mult (a b : nat) : (Qnat (a * b) == Qnat a * Qnat b)%Q.
Proof.
  unfold Qnat. rewrite Nat2Z.inj_mul, inject_Z_mult. reflexivity.
Qed.

Lemma Qnat_lt (a b : nat) : (a < b)%nat -> (Qnat a < Qnat b)%Q.
Proof. intros H. unfold Qnat. rewrite <- Zlt_Qlt. lia. Qed.

Lemma Qnat_inj (a b : nat) : (Qnat a == Qnat b)%Q -> a = b.
Proof.
  unfold Qnat, Qeq. simpl. lia.
Qed.

Lemma length_index_pairs_from (n k : nat) : forall a,
  (a + k = n)%nat ->
  (2 * length (i ← seq a k; (fun j => (i, j)) <$> seq (S i) (n - S i))
   = k * (k - 1))%nat.
Proof.
  induction k as [|k IH]; intros a Hn; [reflexivity|].
  cbn [seq mbind list_bind]. rewrite length_app, length_fmap, length_seq.
  assert (S a + k = n)%nat as Hn' by lia.
  specialize (IH (S a) Hn'). cbn [mbind] in IH.
  replace (n - S a)%nat with k by lia.
  replace (S k - 1)%nat with k by lia.
  destruct k as [|k']; [simpl in *; lia|].
  replace (S k' - 1)%nat with k' in IH by lia. nia.
Qed.

Lemma length_index_pairs (n : nat) : (2 * length (index_pairs n) = n * (n - 1))%nat.
Proof. unfold index_pairs. apply length_index_pairs_from. lia. Qed.

Lemma filter_length_all {A} (f : A -> bool) (l : list A) :
  length (List.filter f l) = length l <-> forall x, x ∈ l -> f x = true.
Proof.
  induction l as [|x l IH]; simpl.
  - split; [intros _ y Hy; apply elem_of_nil in Hy; contradiction | reflexivity].
  - pose proof (List.filter_length_le f l) as Hle. destruct (f x) eqn:Hx; simpl.
    + split.
      * intros H y Hy. apply elem_of_cons in Hy as [->|Hy]; [exact Hx|].
        apply IH; [lia | exact Hy].
      * intros H. f_equal. apply IH. intros y Hy. apply H. right. exact Hy.
    + split; [lia|]. intros H. rewrite (H x) in Hx by left. discriminate.
Qed.

Lemma density_value (G : Graph) :
  (2 <= number_of_nodes G)%nat ->
  (density G == Qnat (2 * number_of_edges G)
                / Qnat (number_of_nodes G * (number_of_nodes G - 1)))%Q.
Proof.
  intros Hn. unfold density.
  assert (0 < Qnat (number_of_nodes G))%Q as Hpos
    by (change 0%Q with (Qnat 0); apply Qnat_lt; lia).
  assert (Qnat (number_of_nodes G - 1) == Qnat (number_of_nodes G) - 1)%Q as Hpred
    by (apply Qnat_pred; lia).
  assert (0 < Qnat (number_of_nodes G - 1))%Q as Hpos'
    by (change 0%Q with (Qnat 0); apply Qnat_lt; lia).
  rewrite !Qnat_mult, Hpred. change (Qnat 2) with 2%Q.
  destruct (number_of_edges G =? 0)%nat eqn:Hm; simpl.
  - apply Nat.eqb_eq in Hm. rewrite Hm. change (Qnat 0) with 0%Q.
    field. split; lra.
  - destruct (number_of_nodes G <=? 1)%nat eqn:Hle;
      [apply Nat.leb_le in Hle; lia|].
    field. split; lra.
Qed.

(** X4.  After a returning call [network_density] lies in [[0, 1]]; it is 0
    exactly when there is no connection; with at least two patches it is
    [2 * total_connections / (n * (n - 1))] and it is 1 exactly when every
    pair of rows passes the distance test. *)
Theorem density_bounds self layer max_distance_km minp mins area_field self' m :
  analyze_layer_connectivity self layer max_distance_km minp mins area_field
    = (self', Return m) ->
  let df := frame_rows (self_patches_df self') in
  let n := total_patches m in
  (0 <= network_density m)%Q /\ (network_density m <= 1)%Q /\
  ((network_density m == 0)%Q <-> total_connections m = 0%nat) /\
  ((2 <= n)%nat ->
   (network_density m == Qnat (2 * total_connections m) / Qnat (n * (n - 1)))%Q /\
   ((network_density m == 1)%Q <->
    forall i j, (i < j < n)%nat ->
                connection_test df (Q2R (max_distance_km * 1000)) (i, j) = true)).
Proof.
  intros Hrun df n.
  pose proof (analyze_returns_rows _ _ _ _ _ _ _ _ Hrun) as Hrows. fold df in Hrows.
  pose proof Hrun as Hstate.
  apply analyze_returns in Hstate as (annotated & _ & Hne & Hm & _).
  rewrite <- Hrows in Hm, Hne.
  pose proof (retained_patches_NoDup layer area_field minp mins) as Hnd.
  rewrite <- Hrows in Hnd.
  set (max_distance_m := Q2R (max_distance_km * 1000)) in *.
  set (G := build_network df max_distance_m) in *.
  apply calculate_metrics_fields in Hm as (Htotal & Hconn & Hdens & _).
  destruct (build_network_edge_count df max_distance_m Hnd) as [_ Hedges].
  fold G in Hedges.
  pose proof (number_of_nodes_build_network df max_distance_m Hnd) as Hnodes.
  fold G in Hnodes.
  assert (n = length df) as Hn by (unfold n; rewrite Htotal; exact Hnodes).
  assert (2 * total_connections m <= n * (n - 1))%nat as Hbound.
  { rewrite Hconn, Hedges, Hn, <- length_index_pairs. unfold connections_added.
    pose proof (List.filter_length_le (connection_test df max_distance_m)
                  (index_pairs (length df))). lia. }
  assert ((2 <= n)%nat ->
          (network_density m
           == Qnat (2 * total_connections m) / Qnat (n * (n - 1)))%Q) as Hvalue.
  { intros Hn2. rewrite Hdens, Hconn. unfold n. rewrite Htotal.
    apply density_value. rewrite <- Htotal. exact Hn2. }
  assert ((n <= 1)%nat -> network_density m = 0%Q /\ total_connections m = 0%nat)
    as Hsmall.
  { intros Hn1. assert (total_connections m = 0%nat) as Hc by nia.
    split; [|exact Hc]. rewrite Hdens. unfold density.
    rewrite <- Hconn, Hc. reflexivity. }
  assert ((2 <= n)%nat -> (0 < Qnat (n * (n - 1)))%Q) as Hpos.
  { intros Hn2. change 0%Q with (Qnat 0). apply Qnat_lt. nia. }
  destruct (decide (n <= 1)%nat) as [Hn1|Hn2].
  - destruct (Hsmall Hn1) as [Hd Hc]. rewrite Hd.
    split; [discriminate|]. split; [discriminate|].
    split; [split; auto; reflexivity|]. intros; lia.
  - assert (2 <= n)%nat as Hge by lia.
    specialize (Hvalue Hge). specialize (Hpos Hge).
    assert (0 <= Qnat (2 * total_connections m))%Q as Hnum0
      by (change 0%Q with (Qnat 0); apply Qnat_le; lia).
    assert (Qnat (2 * total_connections m) <= Qnat (n * (n - 1)))%Q as Hnum1
      by (apply Qnat_le; exact Hbound).
    split; [rewrite Hvalue; apply Qle_shift_div_l; [exact Hpos | lra]|].
    split; [rewrite Hvalue; apply Qle_shift_div_r; [exact Hpos | lra]|].
    split; [|intros _; split; [exact Hvalue|]].
    + rewrite Hvalue. split.
      * intros Hz.
        assert (Qnat (2 * total_connections m) == 0)%Q as Hz'.
        { rewrite <- (Qmult_div_r (Qnat (2 * total_connections m))
                        (Qnat (n * (n - 1)))) by lra.
          rewrite Hz. ring. }
        apply (Qnat_inj _ 0) in Hz'. lia.
      * intros ->. change (Qnat (2 * 0)) with 0%Q. field. lra.
    + rewrite Hvalue. split.
      * intros H1 i j Hij.
        assert (Qnat (2 * total_connections m) == Qnat (n * (n - 1)))%Q as Heq.
        { rewrite <- (Qmult_div_r (Qnat (2 * total_connections m))
                        (Qnat (n * (n - 1)))) by lra.
          rewrite H1. ring. }
        apply Qnat_inj in Heq.
        assert (length (List.filter (connection_test df max_distance_m)
                          (index_pairs (length df)))
                = length (index_pairs (length df))) as Hall.
        { pose proof (length_index_pairs (length df)) as Hlen.
          rewrite Hconn, Hedges in Heq. unfold connections_added in Heq.
          rewrite Hn in Heq. lia. }
        apply (proj1 (filter_length_all _ _) Hall).
        apply elem_of_index_pairs. lia.
      * intros Hall.
        assert (length (List.filter (connection_test df max_distance_m)
                          (index_pairs (length df)))
                = length (index_pairs (length df))) as Hlen.
        { apply filter_length_all. intros [i j] Hij.
          apply elem_of_index_pairs in Hij. apply Hall. lia. }
        assert ((2 * total_connections m)%nat = (n * (n - 1))%nat) as ->.
        { rewrite Hconn, Hedges. unfold connections_added. rewrite Hlen, Hn.
          apply length_index_pairs. }
        field. lra.
Qed.

Lemma density_bounds_witness :
  exists self' m,
    analyze_layer_connectivity init two_patch_layer 2 0.5 0.1 None = (self', Return m)
    /\ (0 <= network_density m)%Q /\ (network_density m <= 1)%Q.
Proof.
  destruct (analyze_some_retained init two_patch_layer 2 0.5 0.1 None eq_refl)
    as (self' & m & Hrun).
  { vm_compute. discriminate. }
  exists self', m. split; [exact Hrun|].
  destruct (density_bounds _ _ _ _ _ _ _ _ Hrun) as (H0 & H1 & _). auto.
Defined.

(** ** The tier counts *)

Lemma filter_length_perm {A} (f : A -> bool) (l1 l2 : list A) :
  l1 ≡ₚ l2 -> length (List.filter f l1) = length (List.filter f l2).
Proof.
  induction 1 as [|x l1 l2 _ IH|x y l|l1 l2 l3 _ IH1 _ IH2]; simpl.
  - reflexivity.
  - destruct (f x); simpl; lia.
  - destruct (f x), (f y); reflexivity.
  - lia.
Qed.

Lemma build_network_node_rows (df : list Patch) (max_distance_m : R) :
  NoDup (patch_ids df) ->
  map_to_list (g_node (build_network df max_distance_m))
  ≡ₚ (fun row : Patch => (patch_id row, Some (node_data_of row))) <$> df.
Proof.
  intros Hnd.
  set (G := build_network df max_distance_m).
  set (L := (fun row : Patch => (patch_id row, Some (node_data_of row))) <$> df).
  assert (L.*1 = patch_ids df) as Hfst.
  { unfold L, patch_ids. rewrite <- list_fmap_compose. reflexivity. }
  assert (g_node G = list_to_map L) as ->.
  { apply map_eq. intros k. destruct (decide (k ∈ patch_ids df)) as [Hk|Hk].
    - unfold patch_ids in Hk. apply list_elem_of_fmap in Hk as (row & -> & Hrow).
      unfold G. rewrite (build_network_node df max_distance_m row Hnd Hrow).
      symmetry. apply elem_of_list_to_map; [rewrite Hfst; exact Hnd|].
      unfold L. apply list_elem_of_fmap. exists row. auto.
    - rewrite (not_elem_of_list_to_map_1 L k) by (rewrite Hfst; exact Hk).
      apply not_elem_of_dom. intros Hin.
      destruct (build_network_node_inv df max_distance_m k Hnd Hin)
        as (row & Hrow & <-).
      apply Hk. unfold patch_ids. apply list_elem_of_fmap. exists row. auto. }
  apply map_to_list_to_map. rewrite Hfst. exact Hnd.
Qed.

Lemma mapM_node_type_of (l : list (PatchId * option NodeData)) :
  (forall p, p ∈ l -> is_Some p.2) ->
  mapM (fun nd : PatchId * option NodeData => node_type_of nd.2) l
  = Return ((fun p : PatchId * option NodeData =>
               match p.2 with Some d => nd_node_type d | None => too_small end)
              <$> l).
Proof.
  induction l as [|[n d] l IH]; intros Hall; simpl; [reflexivity|].
  destruct (Hall (n, d)) as [d' Hd]; [left|]. simpl in Hd. subst d. simpl.
  rewrite IH by (intros p Hp; apply Hall; right; exact Hp). reflexivity.
Qed.

Lemma count_node_type_rows (df : list Patch) (max_distance_m : R) (t : NodeType) :
  NoDup (patch_ids df) ->
  count_node_type t (build_network df max_distance_m)
  = Return (length (List.filter (fun row : Patch => bool_decide (node_type row = t))
                                df)).
Proof.
  intros Hnd. unfold count_node_type.
  destruct (build_network_spec df max_distance_m Hnd) as (_ & Hall & _ & _).
  rewrite mapM_node_type_of.
  2:{ intros [n d] Hp. apply elem_of_map_to_list in Hp. exact (Hall n d Hp). }
  simpl. f_equal.
  set (ty := fun p : PatchId * option NodeData =>
               match p.2 with Some d => nd_node_type d | None => too_small end).
  assert (forall (A : Type) (g : A -> NodeType) (l : list A),
            length (List.filter (fun t' => bool_decide (t' = t)) (g <$> l))
            = length (List.filter (fun a => bool_decide (g a = t)) l)) as Hmap.
  { intros A g l. induction l as [|a l IH]; [reflexivity|].
    change (g <$> a :: l) with (g a :: (g <$> l)). cbn [List.filter].
    destruct (bool_decide (g a = t)); cbn [length]; rewrite IH; reflexivity. }
  rewrite Hmap.
  rewrite (filter_length_perm _ _ _ (build_network_node_rows df max_distance_m Hnd)).
  rewrite <- (Hmap _ ty), <- list_fmap_compose. rewrite Hmap. reflexivity.
Qed.

Lemma retained_not_too_small layer area_field minp mins (p : Patch) :
  p ∈ retained_patches layer area_field minp mins ->
  node_type p = primary \/ node_type p = secondary.
Proof.
  intros Hp. apply elem_of_retained_patches in Hp as [[d [_ ->]] Hkeep].
  simpl in *. destruct (Qgeb (area_ha d) minp); [left; reflexivity|].
  destruct (Qgeb (area_ha d) mins) eqn:Hs; [right; reflexivity|].
  apply Qgeb_false in Hs. exfalso. lra.
Qed.

(** X5.  After a returning call [primary_nodes] and [secondary_nodes] are the
    numbers of rows of [patches_df] with [node_type] "primary" and
    "secondary", and they add up to [total_patches]: no node of the network
    is "too_small". *)
Theorem tier_counts self layer max_distance_km minp mins area_field self' m :
  analyze_layer_connectivity self layer max_distance_km minp mins area_field
    = (self', Return m) ->
  let df := frame_rows (self_patches_df self') in
  primary_nodes m
  = length (List.filter (fun row : Patch => bool_decide (node_type row = primary)) df)
  /\ secondary_nodes m
     = length (List.filter (fun row : Patch => bool_decide (node_type row = secondary))
                           df)
  /\ (primary_nodes m + secondary_nodes m)%nat = total_patches m.
Proof.
  intros Hrun df.
  pose proof (analyze_returns_rows _ _ _ _ _ _ _ _ Hrun) as Hrows. fold df in Hrows.
  pose proof Hrun as Hstate.
  apply analyze_returns in Hstate as (annotated & _ & _ & Hm & _).
  pose proof (retained_patches_NoDup layer area_field minp mins) as Hnd.
  assert (forall p : Patch, p ∈ df ->
            node_type p = primary \/ node_type p = secondary) as Htiers.
  { intros p Hp. rewrite Hrows in Hp. exact (retained_not_too_small _ _ _ _ _ Hp). }
  rewrite <- Hrows in Hm, Hnd.
  apply calculate_metrics_fields in Hm as (Htotal & _ & _ & Hprim & Hsec & _).
  rewrite count_node_type_rows in Hprim, Hsec by exact Hnd.
  injection Hprim as Hprim. injection Hsec as Hsec.
  split; [symmetry; exact Hprim|]. split; [symmetry; exact Hsec|].
  rewrite <- Hprim, <- Hsec, Htotal, number_of_nodes_build_network by exact Hnd.
  clear -Htiers. induction df as [|p df IH]; simpl; [reflexivity|].
  assert (forall q : Patch, q ∈ df ->
            node_type q = primary \/ node_type q = secondary) as Htl
    by (intros q Hq; apply Htiers; right; exact Hq).
  specialize (IH Htl).
  destruct (Htiers p) as [Hp|Hp]; [left| |]; rewrite Hp; simpl; lia.
Qed.

Lemma tier_counts_witness :
  exists self' m,
    analyze_layer_connectivity init two_patch_layer 2 0.5 0.1 None = (self', Return m)
    /\ (primary_nodes m + secondary_nodes m)%nat = total_patches m.
Proof.
  destruct (analyze_some_retained init two_patch_layer 2 0.5 0.1 None eq_refl)
    as (self' & m & Hrun).
  { vm_compute. discriminate. }
  exists self', m. split; [exact Hrun|].
  apply (tier_counts _ _ _ _ _ _ _ _ Hrun).
Defined.

(** ** Components *)

Lemma connected_components_fold (G : Graph) :
  connected_components G
  = (foldl (component_step G) (∅, []) (elements (dom (g_node G)))).2.
Proof.
  unfold connected_components. f_equal.
  generalize (∅ : gset PatchId, [] : list (gset PatchId)).
  induction (elements (dom (g_node G))) as [|v l IH]; intros [seen comps];
    [reflexivity|].
  simpl. rewrite <- IH. reflexivity.
Qed.

Lemma plain_bfs_seen (fuel : nat) (G : Graph) : forall frontier seen,
  seen ⊆ plain_bfs fuel G frontier seen.
Proof.
  induction fuel as [|k IH]; intros frontier seen; simpl; [reflexivity|].
  destruct (decide (frontier_nbrs G frontier ∖ seen = ∅)); [reflexivity|].
  etransitivity; [|apply IH]. set_solver.
Qed.

Lemma plain_bfs_new (fuel : nat) (G : Graph) : forall frontier seen x,
  x ∈ plain_bfs fuel G frontier seen ->
  x ∈ seen \/ exists u, x ∈ dom (nbrs G u).
Proof.
  induction fuel as [|k IH]; intros frontier seen x Hx; simpl in Hx; [left; exact Hx|].
  destruct (decide (frontier_nbrs G frontier ∖ seen = ∅)); [left; exact Hx|].
  apply IH in Hx as [Hx|Hx]; [|right; exact Hx].
  apply elem_of_union in Hx as [Hx|Hx]; [left; exact Hx|].
  apply elem_of_difference in Hx as [Hx _].
  apply elem_of_frontier_nbrs in Hx as (u & _ & Hx). right. exists u. exact Hx.
Qed.

Lemma plain_bfs_isolated (fuel : nat) (G : Graph) (v : PatchId) :
  nbrs G v = ∅ -> plain_bfs fuel G {[v]} {[v]} = {[v]}.
Proof.
  intros Hv. destruct fuel as [|k]; simpl; [reflexivity|].
  assert (frontier_nbrs G {[v]} ∖ {[v]} = (∅ : gset PatchId)) as ->; [|reflexivity].
  apply set_eq. intros x. rewrite elem_of_difference, elem_of_frontier_nbrs.
  split; [|intros Hx; apply elem_of_empty in Hx; contradiction].
  intros [(u & Hu & Hx) _]. apply elem_of_singleton in Hu. subst u.
  rewrite Hv, dom_empty_L in Hx. exact Hx.
Qed.

Lemma plain_bfs_neighbour (fuel : nat) (G : Graph) (v u : PatchId) :
  (1 <= fuel)%nat -> u ∈ dom (nbrs G v) -> u <> v ->
  u ∈ plain_bfs fuel G {[v]} {[v]}.
Proof.
  intros Hfuel Hu Hne. destruct fuel as [|k]; [lia|]. simpl.
  assert (u ∈ frontier_nbrs G {[v]} ∖ {[v]}) as Hnext.
  { apply elem_of_difference. split.
    - apply elem_of_frontier_nbrs. exists v. split; [set_solver | exact Hu].
    - set_solver. }
  destruct (decide (frontier_nbrs G {[v]} ∖ {[v]} = ∅)) as [Hempty|_].
  - rewrite Hempty in Hnext. apply elem_of_empty in Hnext. contradiction.
  - apply plain_bfs_seen. set_solver.
Qed.

Lemma isolated_spec (G : Graph) (v : PatchId) :
  isolated G v = true <-> nbrs G v = ∅.
Proof. unfold isolated. apply bool_decide_eq_true. Qed.

Lemma component_size (G : Graph) (v : PatchId) :
  simple G -> closed G -> v ∈ dom (g_node G) ->
  let c := plain_bfs (number_of_nodes G) G {[v]} {[v]} in
  (1 <= size c <= number_of_nodes G)%nat /\
  (size c = 1%nat <-> isolated G v = true) /\
  (forall x, x ∈ c -> x <> v -> isolated G x = false).
Proof.
  intros [Hsym Hloop] Hclosed Hv c.
  assert (1 <= number_of_nodes G)%nat as Hn.
  { unfold number_of_nodes. rewrite <- size_dom.
    assert ({[v]} ⊆ dom (g_node G)) as Hsub by (apply singleton_subseteq_l; exact Hv).
    apply subseteq_size in Hsub. rewrite size_singleton in Hsub. exact Hsub. }
  assert ({[v]} ⊆ c) as Hvc by apply plain_bfs_seen.
  assert (c ⊆ dom (g_node G)) as Hc.
  { intros x Hx. apply plain_bfs_new in Hx as [Hx|(u & Hx)].
    - apply elem_of_singleton in Hx. subst x. exact Hv.
    - exact (Hclosed u x Hx). }
  assert (forall x, x ∈ c -> x <> v -> isolated G x = false) as Hothers.
  { intros x Hx Hne. apply plain_bfs_new in Hx as [Hx|(u & Hx)]; [set_solver|].
    apply bool_decide_eq_false. intros Hempty. apply Hsym in Hx.
    rewrite Hempty, dom_empty_L in Hx. apply elem_of_empty in Hx. exact Hx. }
  split; [|split; [|exact Hothers]].
  - split.
    + apply subseteq_size in Hvc. rewrite size_singleton in Hvc. exact Hvc.
    + apply subseteq_size in Hc. rewrite size_dom in Hc. exact Hc.
  - split.
    + intros Hsize. apply isolated_spec.
      destruct (decide (nbrs G v = ∅)) as [He|Hne]; [exact He|exfalso].
      apply map_choose in Hne as (u & e & Hu).
      assert (u ∈ dom (nbrs G v)) as Hu' by (apply elem_of_dom; eauto).
      assert (u <> v) as Huv by (intros ->; exact (Hloop v Hu')).
      pose proof (plain_bfs_neighbour _ G v u Hn Hu' Huv) as Huc. fold c in Huc.
      assert ({[v; u]} ⊆ c) as Hsub by set_solver.
      apply subseteq_size in Hsub.
      rewrite size_union, !size_singleton in Hsub by set_solver. lia.
    + intros Hiso. apply isolated_spec in Hiso. unfold c.
      rewrite plain_bfs_isolated by exact Hiso. apply size_singleton.
Qed.

Lemma components_fold (G : Graph) (l : list PatchId) :
  simple G -> closed G -> NoDup l ->
  (forall v, v ∈ l -> v ∈ dom (g_node G)) ->
  forall seen comps,
    (forall x, x ∈ seen -> isolated G x = true -> x ∉ l) ->
    let final := foldl (component_step G) (seen, comps) l in
    length (List.filter (fun c => (size c =? 1)%nat) final.2)
    = (length (List.filter (fun c => (size c =? 1)%nat) comps)
       + length (List.filter (isolated G) l))%nat /\
    (length comps <= length final.2 <= length comps + length l)%nat /\
    (forall c, c ∈ final.2 ->
               c ∈ comps \/ (1 <= size c <= number_of_nodes G)%nat) /\
    (seen = ∅ -> l <> [] -> (length comps < length final.2)%nat).
Proof.
  intros Hsimple Hclosed Hnd. induction Hnd as [|v l Hv Hnd IH];
    intros Hnodes seen comps Hinv; cbv zeta; cbn [foldl].
  - simpl. repeat split; try lia; auto. intros _ H. contradiction.
  - assert (forall w, w ∈ l -> w ∈ dom (g_node G)) as Hnodes'
      by (intros w Hw; apply Hnodes; right; exact Hw).
    assert (component_step G (seen, comps) v
            = if decide (v ∈ seen) then (seen, comps)
              else (seen ∪ plain_bfs (number_of_nodes G) G {[v]} {[v]},
                    comps ++ [plain_bfs (number_of_nodes G) G {[v]} {[v]}]))
      as -> by reflexivity.
    cbn [List.filter length].
    destruct (decide (v ∈ seen)) as [Hseen|Hseen].
    + assert (isolated G v = false) as Hiso.
      { destruct (isolated G v) eqn:E; [|reflexivity].
        exfalso. apply (Hinv v Hseen E). left. }
      rewrite Hiso.
      destruct (IH Hnodes' seen comps) as (Hcount & Hlen & Hsizes & _).
      { intros x Hx Hxi Hin. apply (Hinv x Hx Hxi). right. exact Hin. }
      split; [exact Hcount|]. split; [lia|]. split; [exact Hsizes|].
      intros Hempty _. rewrite Hempty in Hseen. apply elem_of_empty in Hseen.
      contradiction.
    + destruct (component_size G v Hsimple Hclosed (Hnodes v ltac:(left)))
        as (Hsz & Hone & Hothers).
      set (c := plain_bfs (number_of_nodes G) G {[v]} {[v]}) in *.
      destruct (IH Hnodes' (seen ∪ c) (comps ++ [c])) as (Hcount & Hlen & Hsizes & _).
      { intros x Hx Hxi Hin. apply elem_of_union in Hx as [Hx|Hx].
        - apply (Hinv x Hx Hxi). right. exact Hin.
        - destruct (decide (x = v)) as [->|Hne]; [contradiction|].
          rewrite (Hothers x Hx Hne) in Hxi. discriminate. }
      rewrite count_snoc, length_app in *. cbn [length] in *.
      split; [|split; [lia|split; [|intros; lia]]].
      * rewrite Hcount. destruct (isolated G v) eqn:Hiso.
        -- rewrite (proj2 Hone eq_refl). simpl. lia.
        -- destruct (size c =? 1)%nat eqn:E; [|simpl; lia].
           apply Nat.eqb_eq in E. apply (proj1 Hone) in E. discriminate.
      * intros c' Hc'. destruct (Hsizes c' Hc') as [Hin|Hb]; [|right; exact Hb].
        apply elem_of_app in Hin as [Hin|Hin]; [left; exact Hin|].
        apply list_elem_of_singleton in Hin. subst c'. right. exact Hsz.
Qed.

Lemma build_network_simple (df : list Patch) (max_distance_m : R) :
  NoDup (patch_ids df) -> simple (build_network df max_distance_m).
Proof.
  intros Hnd.
  destruct (build_network_spec df max_distance_m Hnd) as (_ & _ & _ & Hedges).
  split.
  - intros u v Hv. apply elem_of_dom in Hv as [e He]. apply elem_of_dom.
    exists e. apply Hedges. apply Hedges in He as (i & j & Hl).
    exists i, j. apply link_swap. exact Hl.
  - intros u Hu. apply elem_of_dom in Hu as [e He].
    destruct (build_network_edge_rows df max_distance_m u u e Hnd He)
      as (_ & _ & _ & _ & _ & _ & _ & _ & _ & Hne). contradiction.
Qed.

Lemma foldr_max_bounds (l : list nat) (lo hi : nat) :
  l <> [] -> (forall x, x ∈ l -> (lo <= x <= hi)%nat) ->
  (lo <= foldr Nat.max 0%nat l <= hi)%nat.
Proof.
  induction l as [|x l IH]; intros Hne Hall; [contradiction|]. simpl.
  destruct (Hall x ltac:(left)) as [Hlo Hhi].
  destruct l as [|y l]; [simpl; lia|].
  assert (lo <= foldr Nat.max 0%nat (y :: l) <= hi)%nat as Hrest.
  { apply IH; [discriminate|]. intros z Hz. apply Hall. right. exact Hz. }
  lia.
Qed.

Lemma isolated_degree (df : list Patch) (max_distance_m : R) (v : PatchId) :
  NoDup (patch_ids df) ->
  let G := build_network df max_distance_m in
  isolated G v = (degree_of (nbrs G v) v =? 0)%nat.
Proof.
  intros Hnd G. destruct (build_network_simple df max_distance_m Hnd) as [_ Hloop].
  fold G in Hloop. unfold degree_of.
  rewrite bool_decide_eq_false_2
    by (intros Hsome; apply (Hloop v); apply elem_of_dom; exact Hsome).
  rewrite Nat.add_0_r. unfold isolated.
  destruct (decide (nbrs G v = ∅)) as [He|Hne].
  - rewrite bool_decide_eq_true_2 by exact He. rewrite He, map_size_empty.
    reflexivity.
  - rewrite bool_decide_eq_false_2 by exact Hne. symmetry. apply Nat.eqb_neq.
    intros Hz. apply Hne. apply map_size_empty_iff. exact Hz.
Qed.

Lemma components_metrics self layer max_distance_km minp mins area_field
    self' m :
  analyze_layer_connectivity self layer max_distance_km minp mins area_field
    = (self', Return m) ->
  isolated_patches m
  = length (List.filter (fun row : AnnotatedPatch => (num_connections row =? 0)%nat)
              (annotated_rows (self_patches_df self'))) /\
  (isolated_patches m <= num_components m)%nat /\
  (1 <= num_components m <= total_patches m)%nat /\
  (1 <= largest_component_size m <= total_patches m)%nat.
Proof.
  intros Hrun.
  pose proof (analyze_returns_annotated _ _ _ _ _ _ _ _ Hrun) as Hann.
  pose proof Hrun as Hstate.
  apply analyze_returns in Hstate as (annotated & _ & Hne & Hm & ->). simpl in *.
  pose proof (retained_patches_NoDup layer area_field minp mins) as Hnd.
  set (df := retained_patches layer area_field minp mins) in *.
  set (max_distance_m := Q2R (max_distance_km * 1000)) in *.
  set (G := build_network df max_distance_m) in *.
  apply calculate_metrics_fields
    in Hm as (Htotal & _ & _ & _ & _ & Hnum & Hlargest & Hiso & _).
  destruct (build_network_spec df max_distance_m Hnd) as (_ & _ & Hdom & _).
  fold G in Hdom.
  pose proof (build_network_simple df max_distance_m Hnd) as Hsimple.
  pose proof (build_network_closed df max_distance_m Hnd) as Hclosed.
  fold G in Hsimple, Hclosed.
  set (nodes := elements (dom (g_node G))).
  assert (nodes ≡ₚ patch_ids df) as Hperm.
  { apply NoDup_Permutation; [apply NoDup_elements | exact Hnd|].
    intros x. unfold nodes. rewrite elem_of_elements, Hdom, elem_of_list_to_set.
    reflexivity. }
  destruct (components_fold G nodes Hsimple Hclosed (NoDup_elements _)) with
    (seen := (∅ : gset PatchId)) (comps := ([] : list (gset PatchId)))
    as (Hcount & Hlen & Hsizes & Hfirst).
  { intros v Hv. apply elem_of_elements in Hv. exact Hv. }
  { intros x Hx. apply elem_of_empty in Hx. contradiction. }
  rewrite <- connected_components_fold in Hcount, Hlen, Hsizes, Hfirst.
  simpl in Hcount, Hlen, Hfirst.
  assert (length nodes = number_of_nodes G) as Hnodes.
  { unfold nodes, number_of_nodes. rewrite <- size_dom. reflexivity. }
  assert (nodes <> []) as Hnonempty.
  { intros Hnil. rewrite Hnil in Hperm. apply Permutation_nil_l in Hperm.
    destruct df; [contradiction | discriminate]. }
  assert (length (List.filter (isolated G) nodes)
          = length (List.filter
                      (fun row : AnnotatedPatch => (num_connections row =? 0)%nat)
                      annotated)) as Hrows.
  { rewrite (filter_length_perm _ _ _ Hperm). unfold patch_ids.
    apply mapM_Return_Forall2 in Hann.
    assert (forall (rows : list Patch) (anns : list AnnotatedPatch),
              Forall2 (fun r a => annotate G r = Return a) rows anns ->
              length (List.filter (isolated G)
                        ((fun p : Patch => patch_id p) <$> rows))
              = length (List.filter
                          (fun row : AnnotatedPatch =>
                             (num_connections row =? 0)%nat) anns)) as Hgen.
    { intros rows anns H. induction H as [|row a l l' Ha _ IH]; [reflexivity|].
      cbn [fmap list_fmap List.filter].
      pose proof (isolated_degree df max_distance_m (patch_id row) Hnd) as Hd.
      cbv zeta in Hd. fold G in Hd. rewrite Hd.
      rewrite <- (annotate_num_connections G row a Ha).
      destruct (num_connections a =? 0)%nat; cbn [length]; rewrite IH; reflexivity. }
    exact (Hgen df annotated Hann). }
  rewrite Hiso, Hnum, Hlargest, Htotal. split; [rewrite Hcount; exact Hrows|].
  split.
  { pose proof (List.filter_length_le (fun c => (size c =? 1)%nat)
                  (connected_components G)). lia. }
  split; [specialize (Hfirst eq_refl Hnonempty); lia|].
  apply foldr_max_bounds.
  - specialize (Hfirst eq_refl Hnonempty).
    destruct (connected_components G); [simpl in Hfirst; lia | discriminate].
  - intros x Hx. apply list_elem_of_fmap in Hx as (c & -> & Hc).
    destruct (Hsizes c Hc) as [Hin|Hb]; [apply elem_of_nil in Hin; contradiction|].
    exact Hb.
Qed.

(** X6.  After a returning call [isolated_patches] is the number of rows of
    [patches_df] with [num_connections = 0]; there is at least one
    component and at most one per patch, and the largest component has
    between one and [total_patches] patches. *)
Theorem isolated_patches_counted self layer max_distance_km minp mins area_field
    self' m :
  analyze_layer_connectivity self layer max_distance_km minp mins area_field
    = (self', Return m) ->
  isolated_patches m
  = length (List.filter (fun row : AnnotatedPatch => (num_connections row =? 0)%nat)
              (annotated_rows (self_patches_df self'))) /\
  (isolated_patches m <= num_components m)%nat /\
  (1 <= num_components m <= total_patches m)%nat /\
  (1 <= largest_component_size m <= total_patches m)%nat.
Proof.
  intros Hrun. exact (components_metrics _ _ _ _ _ _ _ _ Hrun).
Qed.

Lemma isolated_patches_counted_witness :
  exists self' m,
    analyze_layer_connectivity init two_patch_layer 2 0.5 0.1 None = (self', Return m)
    /\ (1 <= num_components m <= total_patches m)%nat.
Proof.
  destruct (analyze_some_retained init two_patch_layer 2 0.5 0.1 None eq_refl)
    as (self' & m & Hrun).
  { vm_compute. discriminate. }
  exists self', m. split; [exact Hrun|].
  apply (isolated_patches_counted _ _ _ _ _ _ _ _ Hrun).
Defined.



(** ** Extraction *)

Lemma extract_features_spec layer area_field features : forall i0 (d : FeatureData),
  d ∈ extract_features layer area_field i0 features <->
  exists k f, features !! k = Some f /\ isEmpty (geometry_of f) = false /\
              d = feature_row layer area_field (i0 + k) f.
Proof.
  induction features as [|f features IH]; intros i0 d; simpl.
  - split; [intros H; apply elem_of_nil in H; contradiction|].
    intros (k & f & Hk & _). rewrite lookup_nil in Hk. discriminate.
  - assert (d ∈ extract_features layer area_field (S i0) features <->
            exists k f', (f :: features) !! S k = Some f' /\
                         isEmpty (geometry_of f') = false /\
                         d = feature_row layer area_field (i0 + S k) f') as Htail.
    { rewrite IH. split; intros (k & f' & Hk & He & ->); exists k, f';
        (split; [exact Hk|]; split; [exact He|]; f_equal; lia). }
    destruct (isEmpty (geometry_of f)) eqn:Hf.
    + rewrite Htail. split.
      * intros (k & f' & H). exists (S k), f'. exact H.
      * intros ([|k] & f' & Hk & He & Hd).
        -- simpl in Hk. injection Hk as <-. congruence.
        -- exists k, f'. auto.
    + rewrite elem_of_cons, Htail. split.
      * intros [->|(k & f' & H)].
        -- exists 0%nat, f. split; [reflexivity|]. split; [exact Hf|].
           unfold feature_row. rewrite Nat.add_0_r. reflexivity.
        -- exists (S k), f'. exact H.
      * intros ([|k] & f' & Hk & He & Hd).
        -- left. simpl in Hk. injection Hk as <-. rewrite Hd.
           unfold feature_row. rewrite Nat.add_0_r. reflexivity.
        -- right. exists k, f'. auto.
Qed.

Lemma extract_features_sorted layer area_field features : forall i0,
  StronglySorted lt
    ((fun d : FeatureData => patch_index (patch_id d))
       <$> extract_features layer area_field i0 features).
Proof.
  induction features as [|f features IH]; intros i0; simpl; [constructor|].
  destruct (isEmpty (geometry_of f)); [apply IH|].
  simpl. constructor; [apply IH|].
  apply Forall_forall. intros x Hx.
  apply list_elem_of_fmap in Hx as (d & -> & Hd).
  apply extract_features_ids in Hd. lia.
Qed.

Lemma filter_sorted {A} (idx : A -> nat) (f : A -> bool) (l : list A) :
  StronglySorted lt (idx <$> l) -> StronglySorted lt (idx <$> List.filter f l).
Proof.
  induction l as [|x l IH]; simpl; intros Hs; [constructor|].
  apply StronglySorted_inv in Hs as [Hs Hall].
  destruct (f x); [|apply IH; exact Hs].
  simpl. constructor; [apply IH; exact Hs|].
  apply Forall_forall. intros y Hy.
  apply list_elem_of_fmap in Hy as (a & -> & Ha).
  apply list_elem_of_In, filter_In in Ha as [Ha _].
  rewrite Forall_forall in Hall. apply Hall. apply list_elem_of_fmap.
  exists a. split; [reflexivity|]. apply list_elem_of_In. exact Ha.
Qed.

(** X8.  After a returning call the rows of [patches_df] are exactly the
    features of the layer that have a non-empty geometry and an area of at
    least [min_secondary_size_ha], in the order of the layer.  The row of
    the feature at position [i] (empty geometries counted) is named
    [patch_i] and carries the feature's id, geometry, centroid and area. *)
Theorem patches_are_the_usable_features self layer max_distance_km minp mins
    area_field self' m :
  analyze_layer_connectivity self layer max_distance_km minp mins area_field
    = (self', Return m) ->
  let df := frame_rows (self_patches_df self') in
  (forall p : Patch,
     p ∈ df <->
     exists i f,
       getFeatures layer !! i = Some f /\ isEmpty (geometry_of f) = false /\
       (mins <= feature_area_ha layer area_field f)%Q /\
       patch_id p = patch_ i /\ fid p = id f /\
       geometry p = geometry_of f /\
       centroid_point p = centroid (geometry_of f) /\
       p = classify_row minp mins (feature_row layer area_field i f)) /\
  StronglySorted lt ((fun p : Patch => patch_index (patch_id p)) <$> df).
Proof.
  intros Hrun df. unfold df.
  rewrite (analyze_returns_rows _ _ _ _ _ _ _ _ Hrun). split.
  - intros p. rewrite elem_of_retained_patches. split.
    + intros [(d & Hd & ->) Hle].
      apply extract_features_spec in Hd as (k & f & Hk & He & ->).
      exists k, f. simpl in *. repeat split; auto.
    + intros (i & f & Hi & He & Hle & _ & _ & _ & _ & ->). split.
      * exists (feature_row layer area_field i f). split; [|reflexivity].
        apply extract_features_spec. exists i, f. auto.
      * exact Hle.
  - unfold retained_patches, filter_patches. apply filter_sorted.
    rewrite classify_node_types_rows, <- list_fmap_compose.
    apply extract_features_sorted.
Qed.

Lemma patches_are_the_usable_features_witness :
  exists self' m,
    analyze_layer_connectivity init inverted_layer 2 0.1 0.5 None = (self', Return m)
    /\ StronglySorted lt
         ((fun p : Patch => patch_index (patch_id p))
            <$> frame_rows (self_patches_df self')).
Proof.
  destruct (analyze_some_retained init inverted_layer 2 0.1 0.5 None eq_refl)
    as (self' & m & Hrun).
  { vm_compute. discriminate. }
  exists self', m. split; [exact Hrun|].
  apply (patches_are_the_usable_features _ _ _ _ _ _ _ _ Hrun).
Defined.

(** ** The area field *)

Lemma extract_features_area_field layer area_field features :
  area_field_used layer area_field = None ->
  forall i, extract_features layer area_field i features
            = extract_features layer None i features.
Proof.
  intros Hnone. induction features as [|f features IH]; intros i; simpl;
    [reflexivity|].
  rewrite IH. unfold feature_area_ha. rewrite Hnone. reflexivity.
Qed.

(** X9.  An area field the layer does not have, or an empty field name, is
    ignored without an error: the call behaves as with [area_field = None]
    and takes every area from the geometry. *)
Theorem unknown_area_field_ignored self layer max_distance_km minp mins
    (field : string) :
  field = EmptyString \/ field ∉ fields layer ->
  analyze_layer_connectivity self layer max_distance_km minp mins (Some field)
  = analyze_layer_connectivity self layer max_distance_km minp mins None.
Proof.
  intros Hfield.
  assert (area_field_used layer (Some field) = None) as Hnone.
  { unfold area_field_used. destruct Hfield as [->|Hnot].
    - reflexivity.
    - rewrite (bool_decide_eq_false_2 (field ∈ fields layer)) by exact Hnot.
      rewrite andb_false_r. reflexivity. }
  unfold analyze_layer_connectivity.
  rewrite (extract_features_area_field layer (Some field) _ Hnone). reflexivity.
Qed.

Lemma unknown_area_field_ignored_witness :
  analyze_layer_connectivity init one_patch_layer 2 0.5 0.1 (Some "area")
  = analyze_layer_connectivity init one_patch_layer 2 0.5 0.1 None.
Proof.
  apply unknown_area_field_ignored. right. simpl. apply not_elem_of_nil.
Defined.

(** ** The edge list *)

Lemma edges_fold_sound (l : list (PatchId * gmap PatchId EdgeData)) :
  forall seen out u v e,
    (u, v, e) ∈ (foldl edges_step (seen, out) l).2 ->
    (u, v, e) ∈ out \/ exists nb, (u, nb) ∈ l /\ nb !! v = Some e.
Proof.
  induction l as [|[n nb] l IH]; intros seen out u v e Hin; simpl in Hin.
  - left. exact Hin.
  - apply IH in Hin as [Hin|(nb' & Hl & Hv)].
    + unfold edges_step in Hin. simpl in Hin.
      apply elem_of_app in Hin as [Hin|Hin]; [left; exact Hin|].
      apply list_elem_of_fmap in Hin as ([b d] & Heq & Hb). simpl in Heq.
      injection Heq as -> -> ->.
      apply list_elem_of_In, filter_In in Hb as [Hb _].
      apply list_elem_of_In, elem_of_map_to_list in Hb.
      right. exists nb. split; [left | exact Hb].
    + right. exists nb'. split; [right; exact Hl | exact Hv].
Qed.

Lemma edges_fold_out (l : list (PatchId * gmap PatchId EdgeData)) :
  forall seen out x, x ∈ out -> x ∈ (foldl edges_step (seen, out) l).2.
Proof.
  induction l as [|[n nb] l IH]; intros seen out x Hx; simpl; [exact Hx|].
  apply IH. unfold edges_step. simpl. apply elem_of_app. left. exact Hx.
Qed.

Lemma edges_fold_complete (l : list (PatchId * gmap PatchId EdgeData)) :
  NoDup (l.*1) ->
  forall seen out u v nbu nbv e e',
    (forall x, x ∈ seen -> x ∉ l.*1) ->
    (u, nbu) ∈ l -> (v, nbv) ∈ l -> nbu !! v = Some e -> nbv !! u = Some e' ->
    (u, v, e) ∈ (foldl edges_step (seen, out) l).2 \/
    (v, u, e') ∈ (foldl edges_step (seen, out) l).2.
Proof.
  induction l as [|[n nb] l IH]; intros Hnd seen out u v nbu nbv e e' Hseen Hu Hv He He'.
  - apply elem_of_nil in Hu. contradiction.
  - simpl in Hnd. apply NoDup_cons in Hnd as [Hn Hnd]. simpl.
    assert (forall (a b : PatchId) (nba : gmap PatchId EdgeData) d,
              (a, nba) ∈ (n, nb) :: l -> a = n -> (b, nbv) ∈ (n, nb) :: l \/ True ->
              nba !! b = Some d -> b ∈ ((n, nb) :: l).*1 ->
              (a, b, d) ∈ (foldl edges_step (edges_step (seen, out) (n, nb)) l).2)
      as Hemit.
    { intros a b nba d Ha -> _ Hd Hb.
      assert (nba = nb) as ->.
      { apply elem_of_cons in Ha as [Ha|Ha]; [congruence|].
        exfalso. apply Hn. apply list_elem_of_fmap. exists (n, nba). auto. }
      assert (edges_step (seen, out) (n, nb)
              = (seen ∪ {[n]},
                 out ++ ((fun p : PatchId * EdgeData => (n, p.1, p.2))
                           <$> List.filter (fun p : PatchId * EdgeData =>
                                              bool_decide (p.1 ∉ seen))
                                 (map_to_list nb)))) as -> by reflexivity.
      apply edges_fold_out. apply elem_of_app. right.
      apply list_elem_of_fmap. exists (b, d). split; [reflexivity|].
      apply list_elem_of_In, filter_In. split.
      - apply list_elem_of_In, elem_of_map_to_list. exact Hd.
      - apply bool_decide_eq_true. intros Hbs. exact (Hseen b Hbs Hb). }
    assert (u ∈ ((n, nb) :: l).*1) as Hu1
      by (apply list_elem_of_fmap; exists (u, nbu); auto).
    assert (v ∈ ((n, nb) :: l).*1) as Hv1
      by (apply list_elem_of_fmap; exists (v, nbv); auto).
    destruct (decide (u = n)) as [Eu|Nu]; [left; eapply Hemit; eauto|].
    destruct (decide (v = n)) as [Ev|Nv]; [right; eapply Hemit; eauto|].
    apply elem_of_cons in Hu as [Hu|Hu]; [congruence|].
    apply elem_of_cons in Hv as [Hv|Hv]; [congruence|].
    apply (IH Hnd _ _ u v nbu nbv e e'); auto.
    intros x Hx Hxl. unfold edges_step in Hx. simpl in Hx.
    apply elem_of_union in Hx as [Hx|Hx].
    + apply (Hseen x Hx). simpl. right. exact Hxl.
    + apply elem_of_singleton in Hx. subst x. exact (Hn Hxl).
Qed.

Lemma edges_fold_once (l : list (PatchId * gmap PatchId EdgeData)) :
  NoDup (l.*1) ->
  forall seen out,
    (forall x, x ∈ seen -> x ∉ l.*1) ->
    (forall x, x ∈ out -> x.1.1 ∈ seen) ->
    (forall a b e e', (a, b, e) ∈ out -> (b, a, e') ∈ out -> a = b) ->
    NoDup (edge_key <$> out) ->
    let final := (foldl edges_step (seen, out) l).2 in
    (forall a b e e', (a, b, e) ∈ final -> (b, a, e') ∈ final -> a = b) /\
    NoDup (edge_key <$> final).
Proof.
  induction l as [|[n nb] l IH]; intros Hnd seen out Hseen Hfirst Honce Hkeys; simpl.
  - auto.
  - simpl in Hnd. apply NoDup_cons in Hnd as [Hn Hnd].
    assert (n ∉ seen) as Hns by (intros Hx; apply (Hseen n Hx); left).
    set (new := (fun p : PatchId * EdgeData => (n, p.1, p.2))
                  <$> List.filter (fun p : PatchId * EdgeData =>
                                     bool_decide (p.1 ∉ seen)) (map_to_list nb)).
    assert (edges_step (seen, out) (n, nb) = (seen ∪ {[n]}, out ++ new)) as ->
      by reflexivity.
    assert (forall x, x ∈ new -> x.1.1 = n /\ (x.1.2 ∉ seen) /\
                                 ((x.1.2, x.2) ∈ map_to_list nb)) as Hnew.
    { intros x Hx. unfold new in Hx.
      apply list_elem_of_fmap in Hx as ([b d] & -> & Hb). simpl.
      apply list_elem_of_In, filter_In in Hb as [Hb Hbs].
      apply bool_decide_eq_true in Hbs. simpl in Hbs.
      split; [reflexivity|]. split; [exact Hbs|]. apply list_elem_of_In. exact Hb. }
    apply IH; auto.
    + intros x Hx Hxl. apply elem_of_union in Hx as [Hx|Hx].
      * apply (Hseen x Hx). simpl. right. exact Hxl.
      * apply elem_of_singleton in Hx. subst x. exact (Hn Hxl).
    + intros x Hx. apply elem_of_app in Hx as [Hx|Hx].
      * apply elem_of_union. left. apply Hfirst. exact Hx.
      * apply Hnew in Hx as (-> & _). set_solver.
    + intros a b e e' H1 H2.
      apply elem_of_app in H1 as [H1|H1]; apply elem_of_app in H2 as [H2|H2].
      * eapply Honce; eauto.
      * apply Hnew in H2 as (Hb & Ha & _). simpl in *. subst b.
        apply Hfirst in H1. simpl in H1. contradiction.
      * apply Hnew in H1 as (Ha & Hb & _). simpl in *. subst a.
        apply Hfirst in H2. simpl in H2. contradiction.
      * apply Hnew in H1 as (Ha & _). apply Hnew in H2 as (Hb & _).
        simpl in *. congruence.
    + rewrite fmap_app. apply NoDup_app. split; [exact Hkeys|]. split.
      * intros k Hk1 Hk2.
        apply list_elem_of_fmap in Hk1 as (x & -> & Hx).
        apply list_elem_of_fmap in Hk2 as (y & Heq & Hy).
        apply Hfirst in Hx. apply Hnew in Hy as (Hy & _).
        unfold edge_key in Heq. injection Heq as E1 _. rewrite E1, Hy in Hx.
        contradiction.
      * unfold new. rewrite <- list_fmap_compose.
        apply NoDup_fmap_2_strong.
        -- intros [b d] [b' d'] Hb Hb' Heq. unfold compose, edge_key in Heq.
           simpl in Heq. injection Heq as ->.
           apply list_elem_of_In, filter_In in Hb as [Hb _].
           apply list_elem_of_In, filter_In in Hb' as [Hb' _].
           apply list_elem_of_In, elem_of_map_to_list in Hb, Hb'. congruence.
        -- apply NoDup_ListNoDup, List.NoDup_filter, NoDup_ListNoDup.
           apply NoDup_map_to_list.
Qed.

(** [G.edges] lists every edge, in one direction only. *)
Lemma edges_spec (G : Graph) :
  graph_wf G -> closed G -> simple G ->
  (forall u v e, (u, v, e) ∈ edges G -> nbrs G u !! v = Some e) /\
  (forall u v e, nbrs G u !! v = Some e ->
                 (u, v, e) ∈ edges G \/ exists e', (v, u, e') ∈ edges G) /\
  (forall a b e e', (a, b, e) ∈ edges G -> (b, a, e') ∈ edges G -> a = b) /\
  NoDup (edge_key <$> edges G).
Proof.
  intros Hwf Hclosed [Hsym Hloop]. unfold edges.
  pose proof (NoDup_fst_map_to_list (g_adj G)) as Hnd.
  split; [|split].
  - intros u v e Hin. apply edges_fold_sound in Hin as [Hin|(nb & Hl & Hv)].
    + apply elem_of_nil in Hin. contradiction.
    + apply elem_of_map_to_list in Hl. unfold nbrs. rewrite Hl. exact Hv.
  - intros u v e He.
    assert (v ∈ dom (nbrs G u)) as Hv by (apply elem_of_dom; eauto).
    pose proof (Hsym u v Hv) as Hu. apply elem_of_dom in Hu as [e' He'].
    assert (forall a b d, nbrs G a !! b = Some d ->
                          (a, nbrs G a) ∈ map_to_list (g_adj G)) as Hentry.
    { intros a b d Hd. apply elem_of_map_to_list. unfold nbrs in *.
      destruct (g_adj G !! a); [reflexivity|]. simpl in Hd.
      rewrite lookup_empty in Hd. discriminate. }
    destruct (edges_fold_complete (map_to_list (g_adj G)) Hnd ∅ [] u v
                (nbrs G u) (nbrs G v) e e') as [H|H]; eauto.
    intros x Hx. apply elem_of_empty in Hx. contradiction.
  - apply (edges_fold_once (map_to_list (g_adj G)) Hnd ∅ []).
    + intros x Hx. apply elem_of_empty in Hx. contradiction.
    + intros x Hx. apply elem_of_nil in Hx. contradiction.
    + intros a b e e' Hx. apply elem_of_nil in Hx. contradiction.
    + constructor.
Qed.

(** ** The output layers *)

Lemma mapM_Ok_Forall2 {A B} (f : A -> Result B) (l : list A) (l' : list B) :
  mapM f l = Ok l' -> Forall2 (fun a b => f a = Ok b) l l'.
Proof.
  revert l'. induction l as [|a l IH]; intros l' H; simpl in H.
  - injection H as <-. constructor.
  - destruct (f a) as [b|e] eqn:Hb; simpl in H; [|discriminate].
    destruct (mapM f l) as [bs|e]; simpl in H; [|discriminate].
    injection H as <-. constructor; [exact Hb | apply IH; reflexivity].
Qed.

Lemma mapM_all_Ok {A B} (f : A -> Result B) (l : list A) :
  (forall a, a ∈ l -> exists b, f a = Ok b) ->
  exists l', mapM f l = Ok l'.
Proof.
  induction l as [|a l IH]; intros H; simpl.
  - eexists. reflexivity.
  - destruct (H a) as [b Hb]; [left|]. rewrite Hb. simpl.
    destruct IH as [bs Hbs]; [intros a' Ha'; apply H; right; exact Ha'|].
    rewrite Hbs. simpl. eexists. reflexivity.
Qed.

Lemma mapM_Failed {A B} (f : A -> Result B) (l : list A) (e : LayerError) :
  mapM f l = Failed e -> exists a, a ∈ l /\ f a = Failed e.
Proof.
  induction l as [|a l IH]; intros H; simpl in H; [discriminate|].
  destruct (f a) as [b|e'] eqn:Hb; simpl in H.
  - destruct (mapM f l) as [bs|e'']; simpl in H; [discriminate|].
    destruct IH as (a' & Ha' & Hf); [exact H|]. exists a'. split; [right|]; auto.
  - exists a. split; [left | congruence].
Qed.

Lemma patch_id_row (df : list Patch) (row row' : Patch) :
  NoDup (patch_ids df) -> row ∈ df -> row' ∈ df ->
  patch_id row = patch_id row' -> row = row'.
Proof.
  intros Hnd Hrow Hrow' Hid.
  apply list_elem_of_lookup in Hrow as [i Hi].
  apply list_elem_of_lookup in Hrow' as [j Hj].
  assert (i = j) as ->; [|congruence].
  apply (NoDup_lookup (patch_ids df) i j (patch_id row)); [exact Hnd| |].
  - unfold patch_ids. rewrite list_lookup_fmap, Hi. reflexivity.
  - unfold patch_ids. rewrite list_lookup_fmap, Hj, Hid. reflexivity.
Qed.

Lemma first_centroid_row (df : list Patch) (row : Patch) :
  NoDup (patch_ids df) -> row ∈ df ->
  first_centroid df (patch_id row) = Ok (centroid_point row).
Proof.
  intros Hnd Hin. unfold first_centroid.
  induction df as [|p df IH]; [apply elem_of_nil in Hin; contradiction|].
  simpl in Hnd. apply NoDup_cons in Hnd as [Hp Hnd]. simpl.
  destruct (bool_decide (patch_id p = patch_id row)) eqn:Hb.
  - apply bool_decide_eq_true in Hb.
    apply elem_of_cons in Hin as [->|Hin]; [reflexivity|].
    exfalso. apply Hp. rewrite Hb. apply list_elem_of_fmap. exists row. auto.
  - apply bool_decide_eq_false in Hb.
    apply elem_of_cons in Hin as [->|Hin]; [congruence|]. apply IH; auto.
Qed.

Lemma connection_feature_key (rows : list Patch) (G : Graph)
    (edge : PatchId * PatchId * EdgeData) (c : ConnectionFeature) :
  connection_feature rows G edge = Ok c -> connection_key c = edge_key edge.
Proof.
  destruct edge as [[u v] e]. unfold connection_feature. intros H.
  destruct (first_centroid rows u); simpl in H; [|discriminate].
  destruct (first_centroid rows v); simpl in H; [|discriminate].
  destruct (node_type_attr G u); simpl in H; [|discriminate].
  destruct (node_type_attr G v); simpl in H; [|discriminate].
  injection H as <-. reflexivity.
Qed.

Lemma connection_feature_edge (df : list Patch) (max_distance_m : R) u v e :
  NoDup (patch_ids df) ->
  nbrs (build_network df max_distance_m) u !! v = Some e ->
  exists row_a row_b : Patch,
    row_a ∈ df /\ row_b ∈ df /\ u = patch_id row_a /\ v = patch_id row_b /\
    patch_id row_a <> patch_id row_b /\
    (0 < euclidean (centroid_xy row_a) (centroid_xy row_b) <= max_distance_m)%R /\
    connection_feature df (build_network df max_distance_m) (u, v, e)
    = Ok (connection_between row_a row_b).
Proof.
  intros Hnd He.
  destruct (build_network_edge_rows df max_distance_m u v e Hnd He)
    as (i & j & ri & rj & Hi & Hj & Hij & -> & -> & Hne).
  apply (build_network_edge df max_distance_m i j ri rj e Hnd Hi Hj Hij)
    in He as [Hr ->].
  assert (ri ∈ df) as Hri by (eapply list_elem_of_lookup_2; eauto).
  assert (rj ∈ df) as Hrj by (eapply list_elem_of_lookup_2; eauto).
  exists ri, rj.
  split; [exact Hri|]. split; [exact Hrj|]. split; [reflexivity|].
  split; [reflexivity|]. split; [exact Hne|]. split; [exact Hr|].
  unfold connection_feature.
  rewrite !first_centroid_row by assumption. simpl.
  unfold node_type_attr. rewrite !build_network_node by assumption. reflexivity.
Qed.

Lemma connection_features_spec (df : list Patch) (max_distance_m : R) :
  NoDup (patch_ids df) ->
  let G := build_network df max_distance_m in
  exists features,
    mapM (connection_feature df G) (edges G) = Ok features /\
    (forall c, c ∈ features ->
       exists row_a row_b : Patch,
         row_a ∈ df /\ row_b ∈ df /\ patch_id row_a <> patch_id row_b /\
         (0 < euclidean (centroid_xy row_a) (centroid_xy row_b)
          <= max_distance_m)%R /\
         c = connection_between row_a row_b) /\
    (forall row_a row_b : Patch,
       row_a ∈ df -> row_b ∈ df -> patch_id row_a <> patch_id row_b ->
       (0 < euclidean (centroid_xy row_a) (centroid_xy row_b)
        <= max_distance_m)%R ->
       connection_between row_a row_b ∈ features \/
       connection_between row_b row_a ∈ features) /\
    (forall row_a row_b : Patch,
       connection_between row_a row_b ∈ features ->
       connection_between row_b row_a ∉ features) /\
    NoDup (connection_key <$> features).
Proof.
  intros Hnd G.
  destruct (build_network_spec df max_distance_m Hnd) as (Hwf & _ & _ & _).
  pose proof (build_network_closed df max_distance_m Hnd) as Hclosed.
  pose proof (build_network_simple df max_distance_m Hnd) as Hsimple.
  destruct (edges_spec G Hwf Hclosed Hsimple)
    as (Hsound & Hcomplete & Honce & Hkeys).
  assert (forall edge, edge ∈ edges G ->
            exists row_a row_b : Patch,
              row_a ∈ df /\ row_b ∈ df /\
              edge.1.1 = patch_id row_a /\ edge.1.2 = patch_id row_b /\
              patch_id row_a <> patch_id row_b /\
              (0 < euclidean (centroid_xy row_a) (centroid_xy row_b)
               <= max_distance_m)%R /\
              connection_feature df G edge = Ok (connection_between row_a row_b))
    as Hedge.
  { intros [[u v] e] Hin. apply Hsound in Hin.
    exact (connection_feature_edge df max_distance_m u v e Hnd Hin). }
  destruct (mapM_all_Ok (connection_feature df G) (edges G)) as [features Hmap].
  { intros edge Hin. destruct (Hedge edge Hin) as (ra & rb & H).
    exists (connection_between ra rb). apply H. }
  pose proof (mapM_Ok_Forall2 _ _ _ Hmap) as Hall.
  assert (forall c, c ∈ features ->
            exists edge, edge ∈ edges G /\ connection_feature df G edge = Ok c)
    as Hback.
  { intros c Hc. apply list_elem_of_lookup in Hc as [k Hk].
    destruct (Forall2_lookup_r _ _ _ _ _ Hall Hk) as (edge & Hedge_k & Hf).
    exists edge. split; [eapply list_elem_of_lookup_2; eauto | exact Hf]. }
  assert (forall edge, edge ∈ edges G ->
            exists c, c ∈ features /\ connection_feature df G edge = Ok c)
    as Hforth.
  { intros edge He. apply list_elem_of_lookup in He as [k Hk].
    destruct (Forall2_lookup_l _ _ _ _ _ Hall Hk) as (c & Hc & Hf).
    exists c. split; [eapply list_elem_of_lookup_2; eauto | exact Hf]. }
  assert (forall row_a row_b : Patch,
            connection_between row_a row_b ∈ features ->
            exists e, (patch_id row_a, patch_id row_b, e) ∈ edges G /\
                      patch_id row_a <> patch_id row_b) as Hfeature_edge.
  { intros ra rb Hc. destruct (Hback _ Hc) as ([[u v] e] & Hin & Hf).
    pose proof (connection_feature_key _ _ _ _ Hf) as Hk.
    unfold connection_key, edge_key in Hk. simpl in Hk. injection Hk as <- <-.
    exists e. split; [exact Hin|].
    destruct (Hedge _ Hin) as (ra' & rb' & _ & _ & Hu & Hv & Hne & _).
    simpl in Hu, Hv. congruence. }
  exists features. split; [exact Hmap|]. split; [|split; [|split]].
  - intros c Hc. destruct (Hback c Hc) as (edge & Hin & Hf).
    destruct (Hedge edge Hin) as (ra & rb & Hra & Hrb & _ & _ & Hne & Hr & Hf').
    exists ra, rb. repeat (split; [assumption|]). congruence.
  - intros ra rb Hra Hrb Hne Hr.
    assert (forall (pa pb : Patch) e,
              pa ∈ df -> pb ∈ df -> (patch_id pa, patch_id pb, e) ∈ edges G ->
              connection_between pa pb ∈ features) as Hfound.
    { intros pa pb e Hpa Hpb Hin. destruct (Hforth _ Hin) as (c & Hc & Hf).
      destruct (Hedge _ Hin) as (pa' & pb' & Hpa' & Hpb' & Hu & Hv & _ & _ & Hf').
      simpl in Hu, Hv.
      apply (patch_id_row df pa pa' Hnd Hpa Hpa') in Hu.
      apply (patch_id_row df pb pb' Hnd Hpb Hpb') in Hv. subst pa' pb'.
      congruence. }
    apply list_elem_of_lookup in Hra as Hi. destruct Hi as [i Hi].
    apply list_elem_of_lookup in Hrb as Hj. destruct Hj as [j Hj].
    assert (i <> j) as Hij by (intros ->; congruence).
    assert (nbrs G (patch_id ra) !! patch_id rb = Some (edge_between ra rb)) as He.
    { apply (build_network_edge df max_distance_m i j ra rb _ Hnd Hi Hj Hij).
      split; [exact Hr | reflexivity]. }
    apply Hcomplete in He as [He|[e' He]].
    + left. eapply Hfound; eauto.
    + right. eapply Hfound; eauto.
  - intros ra rb H1 H2.
    destruct (Hfeature_edge _ _ H1) as (e & He & Hne).
    destruct (Hfeature_edge _ _ H2) as (e' & He' & _).
    apply Hne. eapply Honce; eauto.
  - assert (connection_key <$> features = edge_key <$> edges G) as ->;
      [|exact Hkeys].
    clear -Hall. induction Hall as [|edge c l l' Hf _ IH]; [reflexivity|].
    rewrite !fmap_cons, IH, (connection_feature_key _ _ _ _ Hf). reflexivity.
Qed.

Lemma create_qgis_layers_returns self layer max_distance_km minp mins area_field
    self' m (layer_prefix : string) :
  analyze_layer_connectivity self layer max_distance_km minp mins area_field
    = (self', Return m) ->
  let df := retained_patches layer area_field minp mins in
  let G := build_network df (Q2R (max_distance_km * 1000)) in
  let rows := annotated_rows (self_patches_df self') in
  exists features,
    mapM (connection_feature df G) (edges G) = Ok features /\
    create_qgis_layers self' layer_prefix
    = Ok ([Patches_layer {| layer_name := layer_prefix +:+ "_Patches";
                            layer_crs := authid (crs layer);
                            layer_features := patch_feature rows <$> rows |};
           Connections_layer {| layer_name := layer_prefix +:+ "_Connections";
                                layer_crs := authid (crs layer);
                                layer_features := features |}]
          ++ match create_priority_patches_layer rows with
             | Some selected =>
                 [Priority_layer
                    {| layer_name := layer_prefix +:+ "_Priority_Patches";
                       layer_crs := authid (crs layer);
                       layer_features := selected |}]
             | None => []
             end).
Proof.
  intros Hrun df G rows.
  pose proof (analyze_returns_rows _ _ _ _ _ _ _ _ Hrun) as Hrows.
  pose proof Hrun as Hstate.
  apply analyze_returns in Hstate as (annotated & _ & _ & _ & Hstate).
  destruct (connection_features_spec df (Q2R (max_distance_km * 1000))
              (retained_patches_NoDup layer area_field minp mins))
    as (features & Hmap & _).
  exists features. split; [exact Hmap|].
  unfold rows. rewrite Hstate in Hrows |- *. simpl in Hrows |- *.
  unfold create_qgis_layers, create_connections_layer. simpl.
  rewrite Hrows. fold df. rewrite Hmap. simpl.
  unfold create_priority_layer.
  destruct (create_priority_patches_layer annotated); reflexivity.
Qed.

(** X10.  After a returning analysis [create_qgis_layers] raises nothing.  It
    returns the patches layer, the connections layer and, when at least one
    patch is selected, the priority layer, in this order, named after the
    prefix and all in the CRS of the analysed layer; the patches layer has
    one feature per row of [patches_df], in the order of the frame, with
    the row's geometry and columns. *)
Theorem layers_after_analysis self layer max_distance_km minp mins area_field
    self' m (layer_prefix : string) :
  analyze_layer_connectivity self layer max_distance_km minp mins area_field
    = (self', Return m) ->
  let rows := annotated_rows (self_patches_df self') in
  exists (patches : MemoryLayer PatchFeature)
         (connections : MemoryLayer ConnectionFeature),
    create_qgis_layers self' layer_prefix
    = Ok ([Patches_layer patches; Connections_layer connections]
          ++ match priority_patches rows with
             | [] => []
             | selected =>
                 [Priority_layer
                    {| layer_name := layer_prefix +:+ "_Priority_Patches";
                       layer_crs := authid (crs layer);
                       layer_features := priority_feature <$> selected |}]
             end) /\
    layer_name patches = layer_prefix +:+ "_Patches" /\
    layer_crs patches = authid (crs layer) /\
    pt_patch_id <$> layer_features patches
    = patch_ids (frame_rows (self_patches_df self')) /\
    Forall2 (fun (f : PatchFeature) (row : AnnotatedPatch) =>
               pt_geometry f = geometry row /\ pt_area_ha f = area_ha row /\
               pt_node_type f = node_type row /\
               pt_num_connections f = num_connections row /\
               pt_degree_centrality f = degree_centrality row /\
               pt_betweenness_centrality f = betweenness_centrality row)
            (layer_features patches) rows /\
    layer_name connections = layer_prefix +:+ "_Connections" /\
    layer_crs connections = authid (crs layer).
Proof.
  intros Hrun rows.
  destruct (create_qgis_layers_returns _ _ _ _ _ _ _ _ layer_prefix Hrun)
    as (features & _ & Hlayers).
  fold rows in Hlayers.
  eexists _, _. split.
  - rewrite Hlayers. unfold create_priority_patches_layer.
    destruct (priority_patches rows); reflexivity.
  - simpl. split; [reflexivity|]. split; [reflexivity|]. split; [|split].
    + pose proof Hrun as Hstate.
      apply analyze_returns in Hstate as (annotated & _ & _ & _ & ->).
      unfold rows, patch_ids. simpl. rewrite <- !list_fmap_compose.
      reflexivity.
    + apply Forall2_fmap_l, Forall_Forall2_diag, Forall_forall.
      intros row _. simpl. auto 10.
    + auto.
Qed.

Lemma layers_after_analysis_witness :
  exists self' m layers,
    analyze_layer_connectivity init two_patch_layer 2 0.5 0.1 None
    = (self', Return m) /\
    create_qgis_layers self' "Prairie_Connectivity" = Ok layers.
Proof.
  destruct (analyze_some_retained init two_patch_layer 2 0.5 0.1 None eq_refl)
    as (self' & m & Hrun).
  { vm_compute. discriminate. }
  destruct (layers_after_analysis _ _ _ _ _ _ _ _ "Prairie_Connectivity" Hrun)
    as (patches & connections & Hlayers & _).
  exists self', m. eexists. split; [exact Hrun | exact Hlayers].
Defined.

(** X11.  After a returning analysis the connections layer has one line per
    connected pair of patches.  Every feature joins the centroids of two
    different rows of [patches_df] whose distance is positive and at most
    [max_distance_km]; it carries their ids, that distance in kilometres,
    the weight [sqrt(area_1 * area_2) / distance] and their node types,
    neither of which is [too_small].  Every such pair of rows has a feature
    in one direction and none in the other, and no two features have the
    same [patch_1] and [patch_2]. *)
Theorem connections_layer_features self layer max_distance_km minp mins
    area_field self' m (layer_prefix : string) :
  analyze_layer_connectivity self layer max_distance_km minp mins area_field
    = (self', Return m) ->
  let df := frame_rows (self_patches_df self') in
  let max_distance_m := Q2R (max_distance_km * 1000) in
  exists layers (connections : MemoryLayer ConnectionFeature),
    create_qgis_layers self' layer_prefix = Ok layers /\
    layers !! 1%nat = Some (Connections_layer connections) /\
    (forall c, c ∈ layer_features connections ->
       exists row_a row_b : Patch,
         row_a ∈ df /\ row_b ∈ df /\ patch_id row_a <> patch_id row_b /\
         (0 < euclidean (centroid_xy row_a) (centroid_xy row_b)
          <= max_distance_m)%R /\
         node_type row_a <> too_small /\ node_type row_b <> too_small /\
         line c = (centroid_point row_a, centroid_point row_b) /\
         patch_1 c = patch_id row_a /\ patch_2 c = patch_id row_b /\
         cn_distance_km c
         = (euclidean (centroid_xy row_a) (centroid_xy row_b) / 1000)%R /\
         cn_weight c
         = (sqrt (Q2R (area_ha row_a) * Q2R (area_ha row_b))
            / euclidean (centroid_xy row_a) (centroid_xy row_b))%R /\
         connection_type c = (node_type row_a, node_type row_b)) /\
    (forall row_a row_b : Patch,
       row_a ∈ df -> row_b ∈ df -> patch_id row_a <> patch_id row_b ->
       (0 < euclidean (centroid_xy row_a) (centroid_xy row_b)
        <= max_distance_m)%R ->
       (connection_between row_a row_b ∈ layer_features connections \/
        connection_between row_b row_a ∈ layer_features connections) /\
       ~ (connection_between row_a row_b ∈ layer_features connections /\
          connection_between row_b row_a ∈ layer_features connections)) /\
    NoDup (connection_key <$> layer_features connections).
Proof.
  intros Hrun df max_distance_m.
  destruct (create_qgis_layers_returns _ _ _ _ _ _ _ _ layer_prefix Hrun)
    as (features & Hmap & Hlayers).
  pose proof (analyze_returns_rows _ _ _ _ _ _ _ _ Hrun) as Hrows.
  fold df in Hrows.
  destruct (connection_features_spec (retained_patches layer area_field minp mins)
              max_distance_m
              (retained_patches_NoDup layer area_field minp mins))
    as (features' & Hmap' & Hsound & Hcomplete & Honce & Hkeys).
  assert (features' = features) as -> by (unfold max_distance_m in Hmap'; congruence).
  rewrite <- Hrows in Hsound, Hcomplete.
  eexists _, _. split; [exact Hlayers|]. split; [reflexivity|]. simpl.
  split; [|split; [|exact Hkeys]].
  - intros c Hc.
    destruct (Hsound c Hc) as (ra & rb & Hra & Hrb & Hne & Hr & ->).
    exists ra, rb.
    assert (forall p : Patch, p ∈ df -> node_type p <> too_small) as Htier.
    { intros p Hp. rewrite Hrows in Hp.
      apply retained_not_too_small in Hp as [-> | ->]; discriminate. }
    split; [exact Hra|]. split; [exact Hrb|]. split; [exact Hne|].
    split; [exact Hr|]. split; [apply Htier; exact Hra|].
    split; [apply Htier; exact Hrb|]. simpl. auto 10.
  - intros ra rb Hra Hrb Hne Hr. split; [apply Hcomplete; assumption|].
    intros [H1 H2]. exact (Honce ra rb H1 H2).
Qed.

Lemma connections_layer_features_witness :
  exists self' m layers,
    analyze_layer_connectivity init two_patch_layer 2 0.5 0.1 None
    = (self', Return m) /\
    create_qgis_layers self' "Prairie_Connectivity" = Ok layers.
Proof.
  destruct (analyze_some_retained init two_patch_layer 2 0.5 0.1 None eq_refl)
    as (self' & m & Hrun).
  { vm_compute. discriminate. }
  destruct (connections_layer_features _ _ _ _ _ _ _ _ "Prairie_Connectivity" Hrun)
    as (layers & connections & Hlayers & _).
  exists self', m, layers. split; [exact Hrun | exact Hlayers].
Defined.

(** ** The flags of the patches layer *)

Lemma euclidean_self (p : R * R) : euclidean p p = 0%R.
Proof.
  unfold euclidean.
  replace ((p.1 - p.1) * (p.1 - p.1) + (p.2 - p.2) * (p.2 - p.2))%R with 0%R
    by ring.
  apply sqrt_0.
Qed.

Lemma reaches_spec (max_distance_m : R) (row other : Patch) :
  reaches max_distance_m row other = true <->
  (0 < euclidean (centroid_xy row) (centroid_xy other) <= max_distance_m)%R.
Proof.
  unfold reaches. rewrite andb_true_iff, !bool_decide_eq_true. tauto.
Qed.

Lemma filter_patch_ids_NoDup (f : Patch -> bool) (df : list Patch) :
  NoDup (patch_ids df) -> NoDup (patch_ids (List.filter f df)).
Proof.
  induction df as [|p df IH]; simpl; intros Hnd; [constructor|].
  apply NoDup_cons in Hnd as [Hp Hnd].
  destruct (f p); [|apply IH; exact Hnd].
  simpl. apply NoDup_cons. split; [|apply IH; exact Hnd].
  intros Hin. apply Hp.
  apply list_elem_of_fmap in Hin as (q & Hq & Hin).
  apply list_elem_of_In, filter_In in Hin as [Hin _].
  apply list_elem_of_fmap. exists q. split; [exact Hq|].
  apply list_elem_of_In. exact Hin.
Qed.

(** The neighbours of a patch in the network are the rows it reaches. *)
Lemma nbrs_reached (df : list Patch) (max_distance_m : R) (row : Patch) :
  NoDup (patch_ids df) -> row ∈ df ->
  size (nbrs (build_network df max_distance_m) (patch_id row))
  = length (List.filter (reaches max_distance_m row) df).
Proof.
  intros Hnd Hrow.
  set (nb := nbrs (build_network df max_distance_m) (patch_id row)).
  rewrite <- length_map_to_list, <- (length_fmap fst (map_to_list nb)).
  rewrite <- (length_fmap (fun p : Patch => patch_id p)
                (List.filter (reaches max_distance_m row) df)).
  apply Permutation_length, NoDup_Permutation.
  - apply NoDup_fst_map_to_list.
  - apply (filter_patch_ids_NoDup _ df Hnd).
  - intros k. split.
    + intros Hk. apply list_elem_of_fmap in Hk as ([k' e] & -> & Hke).
      apply elem_of_map_to_list in Hke. simpl. unfold nb in Hke.
      destruct (build_network_edge_rows df max_distance_m _ _ e Hnd Hke)
        as (i & j & ri & rj & Hi & Hj & Hij & Hri & -> & _).
      assert (ri = row) as ->.
      { apply (patch_id_row df); auto. eapply list_elem_of_lookup_2; eauto. }
      apply (build_network_edge df max_distance_m i j row rj e Hnd Hi Hj Hij)
        in Hke as [Hr _].
      apply list_elem_of_fmap. exists rj. split; [reflexivity|].
      apply list_elem_of_In, filter_In. split.
      * apply list_elem_of_In. eapply list_elem_of_lookup_2; eauto.
      * apply reaches_spec. exact Hr.
    + intros Hk. apply list_elem_of_fmap in Hk as (other & -> & Hin).
      apply list_elem_of_In, filter_In in Hin as [Hother Hr].
      apply list_elem_of_In in Hother. apply reaches_spec in Hr.
      apply list_elem_of_lookup in Hrow as Hi. destruct Hi as [i Hi].
      apply list_elem_of_lookup in Hother as Hj. destruct Hj as [j Hj].
      assert (i <> j) as Hij.
      { intros ->. assert (row = other) as -> by congruence.
        rewrite euclidean_self in Hr. lra. }
      apply list_elem_of_fmap. exists (patch_id other, edge_between row other).
      split; [reflexivity|]. apply elem_of_map_to_list. unfold nb.
      apply (build_network_edge df max_distance_m i j row other _ Hnd Hi Hj Hij).
      split; [exact Hr | reflexivity].
Qed.

Lemma annotated_row_connections self layer max_distance_km minp mins area_field
    self' m (row : AnnotatedPatch) :
  analyze_layer_connectivity self layer max_distance_km minp mins area_field
    = (self', Return m) ->
  row ∈ annotated_rows (self_patches_df self') ->
  patch row ∈ frame_rows (self_patches_df self') /\
  num_connections row
  = length (List.filter (reaches (Q2R (max_distance_km * 1000)) (patch row))
              (frame_rows (self_patches_df self'))).
Proof.
  intros Hrun Hrow.
  pose proof (analyze_returns_annotated _ _ _ _ _ _ _ _ Hrun) as Hann.
  pose proof (analyze_returns_rows _ _ _ _ _ _ _ _ Hrun) as Hrows.
  pose proof (retained_patches_NoDup layer area_field minp mins) as Hnd.
  destruct (mapM_annotate_elem _ _ _ _ Hann Hrow) as (p & Hp & Ha).
  pose proof (annotate_spec _ _ _ Ha) as (Hpatch & _).
  rewrite (annotate_num_connections _ _ _ Ha), Hrows, Hpatch.
  split; [exact Hp|].
  destruct (build_network_spec _ (Q2R (max_distance_km * 1000)) Hnd)
    as (_ & _ & Hdom & _).
  destruct (degree_of_build_network _ (Q2R (max_distance_km * 1000))
              (patch_id p) Hnd) as [-> _].
  - rewrite Hdom. apply elem_of_list_to_set, list_elem_of_fmap. exists p. auto.
  - apply nbrs_reached; assumption.
Qed.

(** X12.  In the patches layer a returning analysis leads to,
    [num_connections] of a patch is the number of patches of [patches_df]
    whose centroid lies at a positive distance of at most [max_distance_km]
    from its own, and [is_isolated] is true exactly when there is no such
    patch. *)
Theorem connections_of_a_patch self layer max_distance_km minp mins area_field
    self' m (layer_prefix : string) :
  analyze_layer_connectivity self layer max_distance_km minp mins area_field
    = (self', Return m) ->
  let df := frame_rows (self_patches_df self') in
  let max_distance_m := Q2R (max_distance_km * 1000) in
  exists layers (patches : MemoryLayer PatchFeature),
    create_qgis_layers self' layer_prefix = Ok layers /\
    layers !! 0%nat = Some (Patches_layer patches) /\
    Forall2 (fun (f : PatchFeature) (row : Patch) =>
               pt_patch_id f = patch_id row /\
               pt_num_connections f
               = length (List.filter (reaches max_distance_m row) df) /\
               (is_isolated f = true <->
                forall other : Patch,
                  other ∈ df ->
                  ~ (0 < euclidean (centroid_xy row) (centroid_xy other)
                     <= max_distance_m)%R))
            (layer_features patches) df.
Proof.
  intros Hrun df max_distance_m.
  destruct (create_qgis_layers_returns _ _ _ _ _ _ _ _ layer_prefix Hrun)
    as (features & _ & Hlayers).
  eexists _, _. split; [exact Hlayers|]. split; [reflexivity|]. simpl.
  assert (df = patch <$> annotated_rows (self_patches_df self')) as Hdf.
  { pose proof Hrun as Hstate.
    apply analyze_returns in Hstate as (annotated & _ & _ & _ & ->).
    reflexivity. }
  match goal with
  | |- Forall2 ?P ?fs _ =>
      cut (Forall2 P fs (patch <$> annotated_rows (self_patches_df self')));
        [rewrite <- Hdf; auto|]
  end.
  apply Forall2_fmap, Forall_Forall2_diag, Forall_forall.
  intros row Hrow.
  destruct (annotated_row_connections _ _ _ _ _ _ _ _ row Hrun Hrow)
    as (Hin & Hnc).
  fold df in Hin, Hnc. fold max_distance_m in Hnc. simpl.
  split; [reflexivity|]. split; [exact Hnc|].
  rewrite Nat.eqb_eq, Hnc. split.
  - intros Hnone other Hother Hr.
    assert (other ∈ List.filter (reaches max_distance_m (patch row)) df) as Hf.
    { apply list_elem_of_In, filter_In. split.
      - apply list_elem_of_In. exact Hother.
      - apply reaches_spec. exact Hr. }
    destruct (List.filter (reaches max_distance_m (patch row)) df);
      [apply elem_of_nil in Hf; contradiction | discriminate].
  - intros Hnone.
    destruct (List.filter (reaches max_distance_m (patch row)) df) as [|q l] eqn:Hf;
      [reflexivity|].
    exfalso. assert (In q (List.filter (reaches max_distance_m (patch row)) df))
      as Hq by (rewrite Hf; left; reflexivity).
    apply filter_In in Hq as [Hq Hr].
    apply (Hnone q); [apply list_elem_of_In; exact Hq | apply reaches_spec; exact Hr].
Qed.

Lemma connections_of_a_patch_witness :
  exists self' m layers,
    analyze_layer_connectivity init two_patch_layer 2 0.5 0.1 None
    = (self', Return m) /\
    create_qgis_layers self' "Prairie_Connectivity" = Ok layers.
Proof.
  destruct (analyze_some_retained init two_patch_layer 2 0.5 0.1 None eq_refl)
    as (self' & m & Hrun).
  { vm_compute. discriminate. }
  destruct (connections_of_a_patch _ _ _ _ _ _ _ _ "Prairie_Connectivity" Hrun)
    as (layers & patches & Hlayers & _).
  exists self', m, layers. split; [exact Hrun | exact Hlayers].
Defined.

(** X13.  In the layers a returning analysis leads to, no patch is flagged
    both [is_hub] and [is_isolated].  Every feature of the priority layer
    is a patch of the patches layer; it is labelled "Hub" exactly when that
    patch is flagged [is_hub] and "Large Isolated" exactly when it is
    flagged [is_isolated].  Every patch flagged [is_hub] is in the priority
    layer, labelled "Hub". *)
Theorem hub_and_isolated_flags self layer max_distance_km minp mins area_field
    self' m (layer_prefix : string) :
  analyze_layer_connectivity self layer max_distance_km minp mins area_field
    = (self', Return m) ->
  exists layers (patches : MemoryLayer PatchFeature),
    create_qgis_layers self' layer_prefix = Ok layers /\
    layers !! 0%nat = Some (Patches_layer patches) /\
    (forall f, f ∈ layer_features patches ->
               is_hub f = true -> is_isolated f = false) /\
    (forall priority g,
       Priority_layer priority ∈ layers -> g ∈ layer_features priority ->
       exists f, f ∈ layer_features patches /\
                 pt_patch_id f = pf_patch_id g /\
                 pt_geometry f = pf_geometry g /\
                 pt_area_ha f = pf_area_ha g /\
                 (priority_type g = Hub <-> is_hub f = true) /\
                 (priority_type g = Large_Isolated <-> is_isolated f = true)) /\
    (forall f, f ∈ layer_features patches -> is_hub f = true ->
               exists priority g,
                 Priority_layer priority ∈ layers /\
                 g ∈ layer_features priority /\
                 pf_patch_id g = pt_patch_id f /\ priority_type g = Hub).
Proof.
  intros Hrun.
  destruct (create_qgis_layers_returns _ _ _ _ _ _ _ _ layer_prefix Hrun)
    as (features & _ & Hlayers).
  set (rows := annotated_rows (self_patches_df self')) in *.
  assert (forall row : AnnotatedPatch,
            row ∈ rows -> is_hub (patch_feature rows row) = true ->
            (num_connections row =? 0)%nat = false) as Hexcl.
  { intros row Hrow Hhub. destruct (num_connections row =? 0)%nat eqn:Hnc;
      [|reflexivity].
    apply Nat.eqb_eq in Hnc.
    pose proof (isolated_row_not_hub _ _ _ _ _ _ _ _ row Hrun Hrow Hnc) as Hno.
    fold rows in Hno. unfold hub_mask in Hno. simpl in Hhub. congruence. }
  eexists _, _. split; [exact Hlayers|]. split; [reflexivity|]. simpl.
  split; [|split].
  - intros f Hf. apply list_elem_of_fmap in Hf as (row & -> & Hrow).
    intros Hhub. simpl. apply Hexcl; assumption.
  - intros priority g Hp Hg.
    assert (exists row : AnnotatedPatch,
              row ∈ priority_patches rows /\ g = priority_feature row)
      as (row & Hsel & ->).
    { unfold create_priority_patches_layer in Hp.
      apply elem_of_cons in Hp as [Hp|Hp]; [discriminate|].
      apply elem_of_cons in Hp as [Hp|Hp]; [discriminate|].
      destruct (priority_patches rows) as [|r l] eqn:Hsel;
        [apply elem_of_nil in Hp; contradiction|].
      apply list_elem_of_singleton in Hp. injection Hp as ->.
      change (g ∈ priority_feature <$> r :: l) in Hg.
      apply list_elem_of_fmap in Hg as (row & -> & Hrow). exists row. auto. }
    apply list_elem_of_In, filter_In in Hsel as [Hrow Hmask].
    apply list_elem_of_In in Hrow.
    exists (patch_feature rows row).
    split; [apply list_elem_of_fmap; exists row; auto|].
    simpl. split; [reflexivity|]. split; [reflexivity|]. split; [reflexivity|].
    unfold priority_type_of.
    fold (hub_mask rows row).
    destruct (num_connections row =? 0)%nat eqn:Hnc.
    + apply Nat.eqb_eq in Hnc.
      pose proof (isolated_row_not_hub _ _ _ _ _ _ _ _ row Hrun Hrow Hnc) as Hno.
      fold rows in Hno. rewrite Hno.
      split; split; auto; discriminate.
    + unfold large_isolated_mask in Hmask. rewrite Hnc in Hmask.
      simpl in Hmask. rewrite orb_false_r in Hmask. rewrite Hmask.
      split; split; auto; discriminate.
  - intros f Hf Hhub. apply list_elem_of_fmap in Hf as (row & -> & Hrow).
    pose proof (Hexcl row Hrow Hhub) as Hnc.
    assert (row ∈ priority_patches rows) as Hsel.
    { apply list_elem_of_In, filter_In. split; [apply list_elem_of_In; exact Hrow|].
      unfold hub_mask. simpl in Hhub. rewrite Hhub. reflexivity. }
    unfold create_priority_patches_layer.
    destruct (priority_patches rows) as [|r l] eqn:Hp;
      [apply elem_of_nil in Hsel; contradiction|].
    eexists _, (priority_feature row). split; [right; right; left|].
    split; [|split; [reflexivity|]].
    + change (priority_feature row ∈ priority_feature <$> r :: l).
      apply list_elem_of_fmap. exists row. auto.
    + simpl. unfold priority_type_of. rewrite Hnc. reflexivity.
Qed.

Lemma hub_and_isolated_flags_witness :
  exists self' m layers,
    analyze_layer_connectivity init two_patch_layer 2 0.5 0.1 None
    = (self', Return m) /\
    create_qgis_layers self' "Prairie_Connectivity" = Ok layers.
Proof.
  destruct (analyze_some_retained init two_patch_layer 2 0.5 0.1 None eq_refl)
    as (self' & m & Hrun).
  { vm_compute. discriminate. }
  destruct (hub_and_isolated_flags _ _ _ _ _ _ _ _ "Prairie_Connectivity" Hrun)
    as (layers & patches & Hlayers & _).
  exists self', m, layers. split; [exact Hrun | exact Hlayers].
Defined.

(** ** The analyzer after a call that raises *)

Lemma connection_feature_error (rows : list Patch) (G : Graph)
    (edge : PatchId * PatchId * EdgeData) (e : LayerError) :
  connection_feature rows G edge = Failed e ->
  e = IndexError \/ e = Raised KeyError.
Proof.
  assert (forall n e', first_centroid rows n = Failed e' -> e' = IndexError)
    as Hcentroid.
  { intros n e'. unfold first_centroid. destruct (List.find _ rows); congruence. }
  assert (forall n e', node_type_attr G n = Failed e' -> e' = Raised KeyError)
    as Htype.
  { intros n e'. unfold node_type_attr.
    destruct (g_node G !! n) as [[?|]|]; congruence. }
  destruct edge as [[u v] d]. unfold connection_feature. intros H.
  destruct (first_centroid rows u) eqn:H1; simpl in H;
    [|left; apply (Hcentroid u); congruence].
  destruct (first_centroid rows v) eqn:H2; simpl in H;
    [|left; apply (Hcentroid v); congruence].
  destruct (node_type_attr G u) eqn:H3; simpl in H;
    [|right; apply (Htype u); congruence].
  destruct (node_type_attr G v) eqn:H4; simpl in H;
    [discriminate | right; apply (Htype v); congruence].
Qed.

Lemma analyze_raises_state self layer max_distance_km minp mins area_field
    self' e :
  analyze_layer_connectivity self layer max_distance_km minp mins area_field
    = (self', Raise e) ->
  (e = ValueError "Invalid layer provided" /\ self' = self) \/
  (e = ValueError "No valid features found in layer" /\
   self' = {| self_network := self_network self;
              self_patches_df := self_patches_df self;
              self_crs := Some (crs layer) |}) \/
  (e = ValueError "No patches meet minimum size criteria" /\
   self' = {| self_network := self_network self;
              self_patches_df := Some (Plain []);
              self_crs := Some (crs layer) |}).
Proof.
  intros Hrun.
  destruct (isValid layer) eqn:Hvalid.
  - destruct (decide (retained_patches layer area_field minp mins = []))
      as [Hnone|Hsome].
    + right. revert Hrun. unfold analyze_layer_connectivity.
      rewrite Hvalid. simpl.
      destruct (extract_features layer area_field 0 (getFeatures layer))
        as [|d l] eqn:Hext.
      * intros H. injection H as <- <-. left. auto.
      * unfold retained_patches in Hnone. rewrite Hext in Hnone.
        rewrite Hnone. intros H. injection H as <- <-. right. auto.
    + destruct (analyze_some_retained self layer max_distance_km minp mins
                  area_field Hvalid Hsome) as (s & m & Hret).
      congruence.
  - rewrite analyze_invalid in Hrun by exact Hvalid.
    injection Hrun as <- <-. left. auto.
Qed.

(** X14.  When the analyzer holds no network, as a new one does, and the
    analysis raises, [create_qgis_layers] afterwards raises
    [ValueError("Must run analysis first")] and creates no layer. *)
Theorem no_layers_without_analysis self layer max_distance_km minp mins
    area_field self' e (layer_prefix : string) :
  self_network self = None ->
  analyze_layer_connectivity self layer max_distance_km minp mins area_field
    = (self', Raise e) ->
  create_qgis_layers self layer_prefix
  = Failed (Raised (ValueError "Must run analysis first")) /\
  create_qgis_layers self' layer_prefix
  = Failed (Raised (ValueError "Must run analysis first")).
Proof.
  intros Hnone Hrun.
  assert (forall s : Analyzer,
            self_network s = None ->
            create_qgis_layers s layer_prefix
            = Failed (Raised (ValueError "Must run analysis first"))) as Hfail.
  { intros s Hs. unfold create_qgis_layers. rewrite Hs.
    destruct (self_patches_df s); reflexivity. }
  split; [apply Hfail; exact Hnone|]. apply Hfail.
  destruct (analyze_raises_state _ _ _ _ _ _ _ _ Hrun)
    as [[_ ->]|[[_ ->]|[_ ->]]]; simpl; exact Hnone.
Qed.

Lemma no_layers_without_analysis_witness :
  exists self',
    analyze_layer_connectivity init one_patch_layer 2 10 5 None
    = (self', Raise (ValueError "No patches meet minimum size criteria")) /\
    create_qgis_layers self' "Prairie_Connectivity"
    = Failed (Raised (ValueError "Must run analysis first")).
Proof.
  eexists. split; [vm_compute; reflexivity|].
  eapply (no_layers_without_analysis init one_patch_layer 2 10 5 None).
  - reflexivity.
  - vm_compute. reflexivity.
Defined.

(** X15.  A call that raises keeps the network of an earlier analysis, so
    [create_qgis_layers] afterwards does not ask for an analysis.  After
    "Invalid layer provided" it behaves as before the call; after "No valid
    features found in layer" it works on the earlier patches and network
    with the CRS of the new layer; after "No patches meet minimum size
    criteria" the frame is empty and it raises [IndexError] when the earlier
    network has an edge and [KeyError] when it has none. *)
Theorem stale_network_after_failure self layer max_distance_km minp mins
    area_field self' e (G : Graph) (frame : Frame) (layer_prefix : string) :
  self_network self = Some G ->
  self_patches_df self = Some frame ->
  analyze_layer_connectivity self layer max_distance_km minp mins area_field
    = (self', Raise e) ->
  self_network self' = Some G /\
  create_qgis_layers self' layer_prefix
  <> Failed (Raised (ValueError "Must run analysis first")) /\
  (e = ValueError "Invalid layer provided" ->
   create_qgis_layers self' layer_prefix = create_qgis_layers self layer_prefix) /\
  (e = ValueError "No valid features found in layer" ->
   create_qgis_layers self' layer_prefix
   = create_qgis_layers {| self_network := Some G;
                           self_patches_df := Some frame;
                           self_crs := Some (crs layer) |} layer_prefix) /\
  (e = ValueError "No patches meet minimum size criteria" ->
   create_qgis_layers self' layer_prefix
   = Failed (match edges G with
             | [] => Raised KeyError
             | _ :: _ => IndexError
             end)).
Proof.
  intros HG Hframe Hrun.
  assert (forall s : Analyzer,
            is_Some (self_network s) -> is_Some (self_patches_df s) ->
            create_qgis_layers s layer_prefix
            <> Failed (Raised (ValueError "Must run analysis first"))) as Hasks.
  { intros s [G' HG'] [frame' Hframe']. unfold create_qgis_layers.
    rewrite HG', Hframe'.
    destruct (create_patches_layer (self_crs s) frame' _) as [a|err] eqn:Hp; simpl.
    - destruct (create_connections_layer (self_crs s) frame' G' _)
        as [b|err] eqn:Hc; simpl.
      + destruct (create_priority_layer (self_crs s) frame' _)
          as [c|err] eqn:Hq; simpl; [discriminate|].
        unfold create_priority_layer in Hq.
        destruct frame'; [congruence|].
        destruct (create_priority_patches_layer rows); [|discriminate].
        destruct (self_crs s); simpl in Hq; [discriminate Hq | congruence].
      + unfold create_connections_layer in Hc.
        destruct (self_crs s); simpl in Hc; [|congruence].
        destruct (mapM _ (edges G')) as [fs|err'] eqn:Hm; simpl in Hc;
          [discriminate|].
        injection Hc as <-. intros Heq. injection Heq as ->.
        apply mapM_Failed in Hm as ([[u v] d] & _ & Hcf).
        apply connection_feature_error in Hcf as [Hcf|Hcf]; discriminate.
    - unfold create_patches_layer in Hp.
      destruct (self_crs s); simpl in Hp; [|congruence].
      destruct frame' as [[|? ?]|?]; congruence. }
  destruct (analyze_raises_state _ _ _ _ _ _ _ _ Hrun)
    as [[-> ->]|[[-> ->]|[-> ->]]]; simpl; rewrite ?HG, ?Hframe.
  - split; [reflexivity|]. split; [apply Hasks; rewrite ?HG, ?Hframe; eauto|].
    split; [reflexivity|]. split; discriminate.
  - split; [reflexivity|]. split; [apply Hasks; simpl; eauto|].
    split; [discriminate|]. split; [reflexivity | discriminate].
  - split; [reflexivity|]. split; [apply Hasks; simpl; eauto|].
    split; [discriminate|]. split; [discriminate|]. intros _.
    unfold create_qgis_layers. simpl.
    unfold create_connections_layer. simpl.
    destruct (edges G) as [|[[u v] d] l]; reflexivity.
Qed.

Lemma stale_network_after_failure_witness :
  create_qgis_layers
    (analyze_layer_connectivity
       {| self_network := Some path_graph; self_patches_df := Some (Plain []);
          self_crs := None |}
       one_patch_layer 2 10 5 None).1 "Prairie_Connectivity"
  <> Failed (Raised (ValueError "Must run analysis first")).
Proof.
  eapply (stale_network_after_failure
            {| self_network := Some path_graph; self_patches_df := Some (Plain []);
               self_crs := None |}
            one_patch_layer 2 10 5 None).
  - reflexivity.
  - reflexivity.
  - vm_compute. reflexivity.
Defined.

(** ** [quick_prairie_analysis] *)

Lemma no_usable_feature layer area_field minp mins :
  retained_patches layer area_field minp mins = [] <->
  forall f, f ∈ getFeatures layer -> isEmpty (geometry_of f) = false ->
            (feature_area_ha layer area_field f < mins)%Q.
Proof.
  split.
  - intros Hnil f Hf Hgeom.
    destruct (Qlt_le_dec (feature_area_ha layer area_field f) mins) as [Hlt|Hle];
      [exact Hlt|].
    exfalso. apply list_elem_of_lookup in Hf as [i Hi].
    assert (classify_row minp mins (feature_row layer area_field i f)
            ∈ retained_patches layer area_field minp mins) as Hin.
    { apply elem_of_retained_patches. split; [|exact Hle].
      exists (feature_row layer area_field i f). split; [|reflexivity].
      apply extract_features_spec. exists i, f. auto. }
    rewrite Hnil in Hin. apply elem_of_nil in Hin. exact Hin.
  - intros Hall.
    destruct (retained_patches layer area_field minp mins) as [|p l] eqn:Hret;
      [reflexivity|].
    exfalso.
    assert (p ∈ retained_patches layer area_field minp mins) as Hp
      by (rewrite Hret; left).
    apply elem_of_retained_patches in Hp as [(d & Hd & ->) Hle].
    apply extract_features_spec in Hd as (i & f & Hi & Hgeom & ->).
    simpl in Hle.
    pose proof (Hall f (list_elem_of_lookup_2 _ _ _ Hi) Hgeom) as Hlt.
    apply Qlt_not_le in Hlt. contradiction.
Qed.

Lemma analyze_raises_iff self layer max_distance_km minp mins area_field :
  (exists e,
     (analyze_layer_connectivity self layer max_distance_km minp mins
        area_field).2 = Raise e) <->
  isValid layer = false \/ retained_patches layer area_field minp mins = [].
Proof.
  split.
  - intros [e He].
    destruct (isValid layer) eqn:Hvalid; [|left; reflexivity]. right.
    destruct (decide (retained_patches layer area_field minp mins = []))
      as [Hnil|Hsome]; [exact Hnil|].
    destruct (analyze_some_retained self layer max_distance_km minp mins
                area_field Hvalid Hsome) as (s & m & Hret).
    rewrite Hret in He. discriminate.
  - intros [Hinvalid|Hnil].
    + rewrite analyze_invalid by exact Hinvalid. eexists. reflexivity.
    + destruct (isValid layer) eqn:Hvalid;
        [|rewrite analyze_invalid by exact Hvalid; eexists; reflexivity].
      destruct (extract_features layer area_field 0 (getFeatures layer))
        as [|d l] eqn:Hext.
      * rewrite analyze_no_features by assumption. eexists. reflexivity.
      * rewrite analyze_none_retained; [eexists; reflexivity|exact Hvalid| |exact Hnil].
        rewrite Hext. discriminate.
Qed.

(** X16.  [quick_prairie_analysis] looks the layer up by name, or takes the
    active layer when no name or an empty name is given.  It returns [None]
    exactly when there is no such layer, the layer is invalid, or every
    feature with a non-empty geometry has a geometry area below half of
    [min_size_ha]; no exception leaves it.  Otherwise it returns the
    analyzer and the metrics of [analyze_layer_connectivity] run on a new
    analyzer with [min_size_ha] as the primary and half of it as the
    secondary threshold, after creating its layers. *)
Theorem quick_analysis_result (project : list Layer) (activeLayer : option Layer)
    (layer_name : option string) (max_distance_km min_size_ha : Q) :
  let layer := match layer_name with
               | None | Some EmptyString => activeLayer
               | Some n => head (mapLayersByName project n)
               end in
  let quick := quick_prairie_analysis project activeLayer layer_name
                 max_distance_km min_size_ha in
  (quick = None <->
   layer = None \/
   exists l, layer = Some l /\
     (isValid l = false \/
      forall f, f ∈ getFeatures l -> isEmpty (geometry_of f) = false ->
                (feature_area_ha l None f < min_size_ha * 0.5)%Q)) /\
  (forall analyzer metrics,
     quick = Some (analyzer, metrics) ->
     exists l layers,
       layer = Some l /\
       analyze_layer_connectivity init l max_distance_km min_size_ha
         (min_size_ha * 0.5) None = (analyzer, Return metrics) /\
       create_qgis_layers analyzer "Quick_Prairie_Analysis" = Ok layers) /\
  (forall n, layer_name = Some n -> n <> EmptyString ->
     (forall l, l ∈ project -> name l <> n) -> quick = None).
Proof.
  intros layer quick.
  assert (quick =
          match layer with
          | None => None
          | Some l =>
              match analyze_layer_connectivity init l max_distance_km
                      min_size_ha (min_size_ha * 0.5) None with
              | (analyzer, Return metrics) =>
                  match create_qgis_layers analyzer "Quick_Prairie_Analysis" with
                  | Ok _ => Some (analyzer, metrics)
                  | Failed _ => None
                  end
              | (_, Raise _) => None
              end
          end) as Hquick by reflexivity.
  assert (layer = None -> quick = None) as Hmissing
    by (intros Hnone; rewrite Hquick, Hnone; reflexivity).
  split; [|split].
  - rewrite Hquick. destruct layer as [l|]; [|split; auto].
    destruct (analyze_layer_connectivity init l max_distance_km min_size_ha
                (min_size_ha * 0.5) None) as [analyzer [metrics|e]] eqn:Hrun.
    + destruct (create_qgis_layers_returns _ _ _ _ _ _ _ _
                  "Quick_Prairie_Analysis" Hrun) as (features & _ & ->).
      split; [discriminate|].
      intros [Hnone|(l' & Hl' & Hbad)]; [discriminate|].
      injection Hl' as <-. exfalso.
      rewrite <- no_usable_feature in Hbad.
      apply (analyze_raises_iff init l max_distance_km) in Hbad as [e He].
      rewrite Hrun in He. discriminate.
    + split; [|reflexivity]. intros _. right. exists l. split; [reflexivity|].
      rewrite <- (no_usable_feature l None min_size_ha).
      apply (analyze_raises_iff init l max_distance_km). exists e.
      rewrite Hrun. reflexivity.
  - intros analyzer metrics. rewrite Hquick. destruct layer as [l|]; [|discriminate].
    destruct (analyze_layer_connectivity init l max_distance_km min_size_ha
                (min_size_ha * 0.5) None) as [analyzer' [metrics'|e]] eqn:Hrun;
      [|discriminate].
    destruct (create_qgis_layers_returns _ _ _ _ _ _ _ _
                "Quick_Prairie_Analysis" Hrun) as (features & _ & Hlayers).
    rewrite Hlayers. intros H. injection H as <- <-.
    exists l. eexists. split; [reflexivity|]. split; [exact Hrun | exact Hlayers].
  - intros n -> Hn Hnot. apply Hmissing. unfold layer.
    destruct n as [|c n]; [congruence|].
    apply head_None. unfold mapLayersByName.
    destruct (List.filter _ project) as [|l rest] eqn:Hf; [reflexivity|].
    exfalso. assert (In l (List.filter
                             (fun l : Layer => bool_decide (name l = String c n))
                             project)) as Hin by (rewrite Hf; left; reflexivity).
    apply filter_In in Hin as [Hin Hname]. apply bool_decide_eq_true in Hname.
    apply (Hnot l); [apply list_elem_of_In; exact Hin | exact Hname].
Qed.

(** ** Area and connection statistics *)

Lemma foldr_max_head (x : nat) (l : list nat) :
  foldr Nat.max x l ∈ x :: l /\
  forall y, y ∈ x :: l -> (y <= foldr Nat.max x l)%nat.
Proof.
  induction l as [|a l [IHin IHle]]; simpl.
  - split; [left|]. intros y Hy. apply list_elem_of_singleton in Hy. lia.
  - split.
    + destruct (Nat.max_spec a (foldr Nat.max x l)) as [[_ ->]|[_ ->]].
      * apply elem_of_cons in IHin as [Hx|Hl]; [rewrite Hx; left|].
        right. right. exact Hl.
      * right. left.
    + intros y Hy. apply elem_of_cons in Hy as [->|Hy].
      * specialize (IHle x ltac:(left)). lia.
      * apply elem_of_cons in Hy as [->|Hy]; [lia|].
        specialize (IHle y ltac:(right; exact Hy)). lia.
Qed.

Lemma Qsum_lower (c : Q) (l : list Q) :
  (forall x, x ∈ l -> (c <= x)%Q) -> (Qnat (length l) * c <= Qsum l)%Q.
Proof.
  induction l as [|x l IH]; intros Hall.
  - change (0 * c <= 0)%Q. lra.
  - assert (Qnat (length (x :: l)) == Qnat (length l) + 1)%Q as ->.
    { unfold Qnat. simpl length. rewrite Nat2Z.inj_succ. unfold Z.succ.
      rewrite inject_Z_plus. reflexivity. }
    change (Qsum (x :: l)) with (x + Qsum l)%Q.
    specialize (IH ltac:(intros y Hy; apply Hall; right; exact Hy)).
    specialize (Hall x ltac:(left)). lra.
Qed.

Lemma sum_nat_upper (c : nat) (l : list nat) :
  (forall x, x ∈ l -> (x <= c)%nat) -> (sum_nat l <= length l * c)%nat.
Proof.
  induction l as [|x l IH]; intros Hall; [simpl; lia|].
  specialize (IH ltac:(intros y Hy; apply Hall; right; exact Hy)).
  specialize (Hall x ltac:(left)).
  change (x + sum_nat l <= c + length l * c)%nat. lia.
Qed.

(** X17.  After a returning call [total_area_ha] is the sum of the areas of
    the retained patches and so at least [total_patches] times
    [min_secondary_size_ha]; [max_connections] is the number of connections
    of some patch, no patch has more, it is at most [total_patches - 1],
    and [avg_connections_per_patch] does not exceed it. *)
Theorem area_and_connection_statistics self layer max_distance_km minp mins
    area_field self' m :
  analyze_layer_connectivity self layer max_distance_km minp mins area_field
    = (self', Return m) ->
  let rows := annotated_rows (self_patches_df self') in
  total_area_ha m
  = Qsum ((fun p : Patch => area_ha p) <$> frame_rows (self_patches_df self')) /\
  (Qnat (total_patches m) * mins <= total_area_ha m)%Q /\
  (exists row : AnnotatedPatch,
     row ∈ rows /\ num_connections row = max_connections m) /\
  (forall row : AnnotatedPatch,
     row ∈ rows -> (num_connections row <= max_connections m)%nat) /\
  (max_connections m <= total_patches m - 1)%nat /\
  exists avg, avg_connections_per_patch m = Some avg /\
              (avg <= Qnat (max_connections m))%Q.
Proof.
  intros Hrun rows.
  pose proof (analyze_returns_annotated _ _ _ _ _ _ _ _ Hrun) as Hann.
  pose proof (analyze_returns_rows _ _ _ _ _ _ _ _ Hrun) as Hrows.
  pose proof (retained_patches_NoDup layer area_field minp mins) as Hnd.
  fold rows in Hann.
  pose proof (mapM_Return_length _ _ _ Hann) as Hlen.
  pose proof Hrun as Hstate.
  apply analyze_returns in Hstate as (annotated & _ & Hsome & Hm & Hstate).
  assert (rows = annotated) as Hannotated by (unfold rows; rewrite Hstate; reflexivity).
  apply calculate_metrics_fields
    in Hm as (Htotal & _ & _ & _ & _ & _ & _ & _ & Havg & Hmax & Harea).
  rewrite number_of_nodes_build_network in Htotal by exact Hnd.
  rewrite <- Hannotated in Havg, Hmax, Harea.
  assert (frame_rows (self_patches_df self') = patch <$> rows) as Hframe
    by (unfold rows; rewrite Hstate; reflexivity).
  assert (forall row : AnnotatedPatch,
            row ∈ rows ->
            (mins <= area_ha row)%Q /\
            (num_connections row <= total_patches m - 1)%nat) as Hrow.
  { intros row Hin.
    destruct (mapM_annotate_elem _ _ _ _ Hann Hin) as (p & Hp & Ha).
    pose proof (annotate_spec _ _ _ Ha) as (Hpatch & _).
    split.
    - rewrite Hpatch. apply elem_of_retained_patches in Hp as [_ Hle]. exact Hle.
    - rewrite (annotate_num_connections _ _ _ Ha), Htotal.
      destruct (build_network_spec _ (Q2R (max_distance_km * 1000)) Hnd)
        as (_ & _ & Hdom & _).
      destruct (degree_of_build_network _ (Q2R (max_distance_km * 1000))
                  (patch_id p) Hnd) as [-> Hle].
      + rewrite Hdom. apply elem_of_list_to_set, list_elem_of_fmap.
        exists p. auto.
      + rewrite number_of_nodes_build_network in Hle by exact Hnd. exact Hle. }
  assert (rows <> []) as Hne.
  { intros Hnil. rewrite Hnil in Hlen. simpl in Hlen.
    destruct (retained_patches layer area_field minp mins);
      [contradiction | discriminate]. }
  destruct rows as [|r0 rest] eqn:Hrs; [contradiction|].
  simpl in Hmax. injection Hmax as Hmax.
  match type of Hmax with
  | foldr Nat.max ?x ?l = _ => destruct (foldr_max_head x l) as [Hin Hle]
  end.
  rewrite Hmax in Hin, Hle.
  change (max_connections m ∈ num_connections <$> r0 :: rest) in Hin.
  change (forall y, y ∈ num_connections <$> r0 :: rest ->
                    (y <= max_connections m)%nat) in Hle.
  split; [|split; [|split; [|split; [|split]]]].
  - rewrite Harea, Hframe. unfold area_column.
    rewrite <- list_fmap_compose. reflexivity.
  - rewrite Harea, Htotal, <- Hlen. unfold area_column.
    rewrite <- (length_fmap (fun row : AnnotatedPatch => area_ha row) (r0 :: rest)).
    apply Qsum_lower. intros x Hx.
    apply list_elem_of_fmap in Hx as (row & -> & Hin'). apply Hrow. exact Hin'.
  - apply list_elem_of_fmap in Hin as (row & Heq & Hin). exists row. auto.
  - intros row Hin'. apply Hle. apply list_elem_of_fmap. exists row. auto.
  - apply list_elem_of_fmap in Hin as (row & -> & Hin). apply Hrow. exact Hin.
  - rewrite Havg. eexists. split; [reflexivity|].
    rewrite length_fmap.
    assert (0 < Qnat (length (r0 :: rest)))%Q as Hpos
      by (apply (Qnat_lt 0); simpl; lia).
    apply Qle_shift_div_r; [exact Hpos|].
    rewrite Qmult_comm, <- Qnat_mult. apply Qnat_le.
    rewrite <- (length_fmap num_connections (r0 :: rest)).
    apply sum_nat_upper. exact Hle.
Qed.

Lemma area_and_connection_statistics_witness :
  exists self' m,
    analyze_layer_connectivity init two_patch_layer 2 0.5 0.1 None
    = (self', Return m) /\
    (max_connections m <= total_patches m - 1)%nat.
Proof.
  destruct (analyze_some_retained init two_patch_layer 2 0.5 0.1 None eq_refl)
    as (self' & m & Hrun).
  { vm_compute. discriminate. }
  exists self', m. split; [exact Hrun|].
  apply (area_and_connection_statistics _ _ _ _ _ _ _ _ Hrun).
Defined.
